(** * worse-preact: a shallow embedding of the reconciler and hook runtime

    The development follows the modules of the library:
    [vnode.js], [props.js], [children.js], [context.js], [hooks.js],
    [scheduler.js], [diff.js], [portal.js] and [render.js].

    JavaScript objects with identity (vnodes, component instances, DOM
    nodes, ref cells) live in heaps indexed by natural numbers; the engine
    functions are state-passing functions in a small monad with exceptions.
    Recursion through the vnode graph is driven by a fuel argument.

    The embedding comes first; the properties of the specification follow,
    their definitions and scenarios before their proofs. *)

From Stdlib Require Import ZArith Ascii String Sorted.
From stdpp Require Import base option list strings gmap pretty.

Set Warnings "-register-all".
Open Scope Z_scope.
Open Scope string_scope.
Open Scope list_scope.
Close Scope Z_scope.

(* ================================================================== *)
(** * JavaScript values *)
(* ================================================================== *)

(** Numbers are integers plus the two values on which [Object.is] and
    [===] disagree.  User functions, ref cells, vnodes, component instances
    and DOM nodes are known by identity.  [VSetter c i] and [VDispatch c i] are the closures
    [hookState._setState] and [hookState._dispatch] created for slot [i] of
    component instance [c].  [VArr] and [VRec] are array and object
    literals (children lists, props, style objects). *)
Inductive jsval : Type :=
  | VUndef
  | VNull
  | VBool (b : bool)
  | VNum (z : Z)
  | VNaN
  | VNegZero
  | VStr (s : string)
  | VFun (f : nat)
  | VSetter (c i : nat)
  | VDispatch (c i : nat)
  | VObj (o : nat)
  | VNode (v : nat)
  | VComp (c : nat)
  | VDom (d : nat)
  | VArr (l : list jsval)
  | VRec (l : list (string * jsval)).

Fixpoint jsval_eqb (a b : jsval) {struct a} : bool :=
  match a, b with
  | VUndef, VUndef => true
  | VNull, VNull => true
  | VBool x, VBool y => Bool.eqb x y
  | VNum x, VNum y => Z.eqb x y
  | VNaN, VNaN => true
  | VNegZero, VNegZero => true
  | VStr x, VStr y => String.eqb x y
  | VFun x, VFun y => Nat.eqb x y
  | VSetter c i, VSetter c' i' => Nat.eqb c c' && Nat.eqb i i'
  | VDispatch c i, VDispatch c' i' => Nat.eqb c c' && Nat.eqb i i'
  | VObj x, VObj y => Nat.eqb x y
  | VNode x, VNode y => Nat.eqb x y
  | VComp x, VComp y => Nat.eqb x y
  | VDom x, VDom y => Nat.eqb x y
  | VArr l, VArr l' =>
      (fix go (l l' : list jsval) : bool :=
         match l, l' with
         | [], [] => true
         | x :: xs, y :: ys => jsval_eqb x y && go xs ys
         | _, _ => false
         end) l l'
  | VRec l, VRec l' =>
      (fix go (l l' : list (string * jsval)) : bool :=
         match l, l' with
         | [], [] => true
         | (k, x) :: xs, (k', y) :: ys =>
             String.eqb k k' && jsval_eqb x y && go xs ys
         | _, _ => false
         end) l l'
  | _, _ => false
  end.

(** [Object.is]: the same-value predicate.  [NaN] is the same value as
    [NaN]; [+0] and [-0] are different values.  Primitives are compared by
    value; functions and the objects of the heaps ([VFun], [VSetter],
    [VDispatch], [VObj], [VNode], [VComp], [VDom]) by their identity, which
    is their number.  An array or object literal ([VArr], [VRec]) is plain
    content in [jsval] and has no identity there: on two of them the
    comparison below is by content, where JavaScript compares the two
    objects by identity; [strict_eq], [same_value_zero] and [argsChanged]
    below compare them in the same way.  The comparison is exact on the
    values that are [identified]. *)
Definition Object_is (a b : jsval) : bool := jsval_eqb a b.

(** A value whose identity is represented: anything but an array or object
    literal. *)
Definition identified (v : jsval) : Prop :=
  match v with VArr _ | VRec _ => False | _ => True end.

(** [a === b]: differs from [Object.is] on [NaN] and on the two zeros. *)
Definition strict_eq (a b : jsval) : bool :=
  match a, b with
  | VNaN, _ | _, VNaN => false
  | VNum 0%Z, VNegZero | VNegZero, VNum 0%Z => true
  | _, _ => jsval_eqb a b
  end.

(** The SameValueZero comparison of [Map] keys. *)
Definition same_value_zero (a b : jsval) : bool :=
  match a, b with
  | VNum 0%Z, VNegZero | VNegZero, VNum 0%Z => true
  | _, _ => jsval_eqb a b
  end.

(** [x == null] *)
Definition is_nullish (v : jsval) : bool :=
  match v with VUndef | VNull => true | _ => false end.

(** Truthiness (the condition of an [if]). *)
Definition truthy (v : jsval) : bool :=
  match v with
  | VUndef | VNull | VNaN | VNegZero => false
  | VBool b => b
  | VNum z => negb (Z.eqb z 0)
  | VStr s => negb (String.eqb s "")
  | _ => true
  end.

(** [typeof v === 'function'] *)
Definition is_function (v : jsval) : bool :=
  match v with VFun _ | VSetter _ _ | VDispatch _ _ => true | _ => false end.

Definition is_object (v : jsval) : bool :=   (* typeof v === 'object' && v !== null *)
  match v with
  | VObj _ | VNode _ | VComp _ | VDom _ | VArr _ | VRec _ => true
  | _ => false
  end.

(** [String(v)] on the values the engine stringifies.  [VNum z] stands for
    the integer [z], a JavaScript number when it is at most [2^53] in
    absolute value; these are printed in decimal notation.  An array prints
    its elements separated by commas, [null] and [undefined] among them as
    nothing; the text of a function is not represented. *)
Fixpoint js_String (v : jsval) : string :=
  match v with
  | VUndef => "undefined"
  | VNull => "null"
  | VBool true => "true"
  | VBool false => "false"
  | VNum z => pretty z
  | VNaN => "NaN"
  | VNegZero => "0"
  | VStr s => s
  | VFun _ | VSetter _ _ | VDispatch _ _ => "function"
  | VArr l =>
      (fix join (l : list jsval) : string :=
         match l with
         | [] => ""
         | x :: r =>
             let e := match x with
                      | VUndef | VNull => ""
                      | _ => js_String x
                      end in
             match r with
             | [] => e
             | _ => (e ++ "," ++ join r)%string
             end
         end) l
  | _ => "[object Object]"
  end.

(** Property access on an object literal: [o[name]], [undefined] when the
    property is missing or [o] is no object literal. *)
Fixpoint assoc_get (name : string) (l : list (string * jsval)) : jsval :=
  match l with
  | [] => VUndef
  | (k, x) :: r => if String.eqb k name then x else assoc_get name r
  end.

Fixpoint assoc_has (name : string) (l : list (string * jsval)) : bool :=
  match l with
  | [] => false
  | (k, _) :: r => String.eqb k name || assoc_has name r
  end.

Fixpoint assoc_set (name : string) (v : jsval) (l : list (string * jsval))
  : list (string * jsval) :=
  match l with
  | [] => [(name, v)]
  | (k, x) :: r =>
      if String.eqb k name then (k, v) :: r else (k, x) :: assoc_set name v r
  end.

Definition get_prop (o : jsval) (name : string) : jsval :=
  match o with VRec l => assoc_get name l | _ => VUndef end.

(** [name in o] *)
Definition has_prop (o : jsval) (name : string) : bool :=
  match o with VRec l => assoc_has name l | _ => false end.

(** The own enumerable keys of an object, in insertion order ([for..in]). *)
Definition keys_of (o : jsval) : list string :=
  match o with VRec l => map fst l | _ => [] end.

(** [props || {}] *)
Definition or_empty (o : jsval) : jsval := if truthy o then o else VRec [].

(* ================================================================== *)
(** * Heap objects *)
(* ================================================================== *)

(** The functions a vnode can have as its [type], by identity: the
    [Fragment] of vnode.js, the [Provider] closure that [createContext]
    made for the context with [_contextId = contextId], or a user
    component. *)
Inductive fn_id : Type :=
  | Fragment
  | Provider (contextId : nat)
  | UserFn (n : nat).

Definition fn_id_eqb (a b : fn_id) : bool :=
  match a, b with
  | Fragment, Fragment => true
  | Provider x, Provider y => Nat.eqb x y
  | UserFn x, UserFn y => Nat.eqb x y
  | _, _ => false
  end.

(** [vnode.type]: [null] for text, a tag name, a function, or the portal
    symbol.  [TUndefined] is the [type] of an object that has no such
    field. *)
Inductive vtype : Type :=
  | TText
  | TTag (tag : string)
  | TFun (f : fn_id)
  | TPortal
  | TUndefined.

(** [a.type === b.type] *)
Definition vtype_eqb (a b : vtype) : bool :=
  match a, b with
  | TText, TText => true
  | TTag x, TTag y => String.eqb x y
  | TFun x, TFun y => fn_id_eqb x y
  | TPortal, TPortal => true
  | TUndefined, TUndefined => true
  | _, _ => false
  end.

(** The object built by [createVNode], with the two fields the context
    module keeps on Provider vnodes ([_contextValue] reads as [undefined]
    and [_contextSubscriptions] as absent until something assigns them). *)
Record vnode : Type := mkVNode {
  v_type : vtype;
  v_props : jsval;
  v_key : jsval;
  v_ref : jsval;
  v_children : option (list nat);
  v_dom : option nat;
  v_component : option nat;
  v_parent : option nat;
  v_depth : nat;
  v_flags : nat;
  v_index : option nat;
  v_contextValue : jsval;
  v_contextSubscriptions : option (list nat);
}.

(** A hook slot: the object pushed by [getHookState]. *)
Record hookState : Type := mkHook {
  hs_initialized : bool;
  hs_value : jsval;
  hs_component : option nat;
  hs_setState : bool;
  hs_reducer : jsval;
  hs_dispatch : bool;
  hs_args : option (list jsval);
  hs_pendingArgs : option (list jsval);
  hs_cleanup : jsval;
}.

Definition empty_hook : hookState :=
  mkHook false VUndef None false VUndef false None None VUndef.

(** A component instance.  [_pendingEffects] and [_pendingLayoutEffects]
    hold references to slot objects of [_list]; a slot is named by its
    index, which never changes because slots are only ever appended. *)
Record component : Type := mkComponent {
  c_props : jsval;
  c_list : list hookState;
  c_pendingEffects : list nat;
  c_pendingLayoutEffects : option (list nat);
  c_vnode : option nat;
  c_contextSubscriptions : option (list nat);
}.

(** A DOM node, as much of it as the engine reads and writes. *)
Record domnode : Type := mkDom {
  d_isElement : bool;
  d_tag : string;
  d_namespaceURI : string;
  d_nodeValue : jsval;
  d_parentNode : option nat;
  d_childNodes : list nat;
  d_attrs : gmap string string;
  d_fields : gmap string jsval;
  d_cssText : jsval;
  d_style : gmap string jsval;
  d_innerHTML : jsval;
  d_listeners : option (gmap string jsval);
  d_events : list string;
  d_children : option nat;
}.

(** What user code and the console observe. *)
Inductive event : Type :=
  | EvWarn (msg : string) (arg : jsval)
  | EvError (msg : string)
  | EvCall (f : nat) (args : list jsval)
  | EvRender (c : nat) (f : fn_id).

Inductive exn : Type :=
  | Error (msg : string)
  | TypeError (msg : string)
  | NotFoundError.

Record state : Type := mkState {
  vnodes : list vnode;
  comps : list component;
  objs : list jsval;
  nodes : list domnode;
  renderQueue : list nat;
  scheduled : bool;
  microtasks : nat;
  paintQueue : list (list nat);
  currentComponent : option nat;
  currentIndex : nat;
  options : list (string * jsval);
  log : list event;
}.

Definition empty_state : state :=
  mkState [] [] [] [] [] false 0 [] None 0 [] [].

(** ** Field updates *)

Definition set_vnodes (x : list vnode) (s : state) : state :=
  mkState x (comps s) (objs s) (nodes s) (renderQueue s) (scheduled s)
    (microtasks s) (paintQueue s) (currentComponent s) (currentIndex s)
    (options s) (log s).
Definition set_comps (x : list component) (s : state) : state :=
  mkState (vnodes s) x (objs s) (nodes s) (renderQueue s) (scheduled s)
    (microtasks s) (paintQueue s) (currentComponent s) (currentIndex s)
    (options s) (log s).
Definition set_objs (x : list jsval) (s : state) : state :=
  mkState (vnodes s) (comps s) x (nodes s) (renderQueue s) (scheduled s)
    (microtasks s) (paintQueue s) (currentComponent s) (currentIndex s)
    (options s) (log s).
Definition set_nodes (x : list domnode) (s : state) : state :=
  mkState (vnodes s) (comps s) (objs s) x (renderQueue s) (scheduled s)
    (microtasks s) (paintQueue s) (currentComponent s) (currentIndex s)
    (options s) (log s).
Definition set_renderQueue (x : list nat) (s : state) : state :=
  mkState (vnodes s) (comps s) (objs s) (nodes s) x (scheduled s)
    (microtasks s) (paintQueue s) (currentComponent s) (currentIndex s)
    (options s) (log s).
Definition set_scheduled (x : bool) (s : state) : state :=
  mkState (vnodes s) (comps s) (objs s) (nodes s) (renderQueue s) x
    (microtasks s) (paintQueue s) (currentComponent s) (currentIndex s)
    (options s) (log s).
Definition set_microtasks (x : nat) (s : state) : state :=
  mkState (vnodes s) (comps s) (objs s) (nodes s) (renderQueue s) (scheduled s)
    x (paintQueue s) (currentComponent s) (currentIndex s)
    (options s) (log s).
Definition set_paintQueue (x : list (list nat)) (s : state) : state :=
  mkState (vnodes s) (comps s) (objs s) (nodes s) (renderQueue s) (scheduled s)
    (microtasks s) x (currentComponent s) (currentIndex s)
    (options s) (log s).
Definition set_current (c : option nat) (i : nat) (s : state) : state :=
  mkState (vnodes s) (comps s) (objs s) (nodes s) (renderQueue s) (scheduled s)
    (microtasks s) (paintQueue s) c i (options s) (log s).
Definition set_options (x : list (string * jsval)) (s : state) : state :=
  mkState (vnodes s) (comps s) (objs s) (nodes s) (renderQueue s) (scheduled s)
    (microtasks s) (paintQueue s) (currentComponent s) (currentIndex s)
    x (log s).
Definition add_log (e : event) (s : state) : state :=
  mkState (vnodes s) (comps s) (objs s) (nodes s) (renderQueue s) (scheduled s)
    (microtasks s) (paintQueue s) (currentComponent s) (currentIndex s)
    (options s) (log s ++ [e]).

Definition set_v_children (x : option (list nat)) (v : vnode) : vnode :=
  mkVNode (v_type v) (v_props v) (v_key v) (v_ref v) x (v_dom v)
    (v_component v) (v_parent v) (v_depth v) (v_flags v) (v_index v)
    (v_contextValue v) (v_contextSubscriptions v).
Definition set_v_dom (x : option nat) (v : vnode) : vnode :=
  mkVNode (v_type v) (v_props v) (v_key v) (v_ref v) (v_children v) x
    (v_component v) (v_parent v) (v_depth v) (v_flags v) (v_index v)
    (v_contextValue v) (v_contextSubscriptions v).
Definition set_v_component (x : option nat) (v : vnode) : vnode :=
  mkVNode (v_type v) (v_props v) (v_key v) (v_ref v) (v_children v) (v_dom v)
    x (v_parent v) (v_depth v) (v_flags v) (v_index v)
    (v_contextValue v) (v_contextSubscriptions v).
(** [_parent], [_depth] and [_index] are assigned together. *)
Definition set_v_place (p : option nat) (d : nat) (i : nat) (v : vnode) : vnode :=
  mkVNode (v_type v) (v_props v) (v_key v) (v_ref v) (v_children v) (v_dom v)
    (v_component v) p d (v_flags v) (Some i)
    (v_contextValue v) (v_contextSubscriptions v).
Definition set_v_subs (x : option (list nat)) (v : vnode) : vnode :=
  mkVNode (v_type v) (v_props v) (v_key v) (v_ref v) (v_children v) (v_dom v)
    (v_component v) (v_parent v) (v_depth v) (v_flags v) (v_index v)
    (v_contextValue v) x.

Definition set_c_props (x : jsval) (c : component) : component :=
  mkComponent x (c_list c) (c_pendingEffects c) (c_pendingLayoutEffects c)
    (c_vnode c) (c_contextSubscriptions c).
Definition set_c_list (x : list hookState) (c : component) : component :=
  mkComponent (c_props c) x (c_pendingEffects c) (c_pendingLayoutEffects c)
    (c_vnode c) (c_contextSubscriptions c).
Definition set_c_pendingEffects (x : list nat) (c : component) : component :=
  mkComponent (c_props c) (c_list c) x (c_pendingLayoutEffects c)
    (c_vnode c) (c_contextSubscriptions c).
Definition set_c_pendingLayoutEffects (x : option (list nat)) (c : component)
  : component :=
  mkComponent (c_props c) (c_list c) (c_pendingEffects c) x
    (c_vnode c) (c_contextSubscriptions c).
Definition set_c_vnode (x : option nat) (c : component) : component :=
  mkComponent (c_props c) (c_list c) (c_pendingEffects c)
    (c_pendingLayoutEffects c) x (c_contextSubscriptions c).
Definition set_c_subs (x : option (list nat)) (c : component) : component :=
  mkComponent (c_props c) (c_list c) (c_pendingEffects c)
    (c_pendingLayoutEffects c) (c_vnode c) x.

(** ** Reading and writing heap cells

    A reference is an index into its heap.  Reading a cell that does not
    exist yields the object without fields; writing it changes nothing. *)

Definition blank_vnode : vnode :=
  mkVNode TUndefined VUndef VUndef VUndef None None None None 0 0 None
    VUndef None.
Definition blank_component : component :=
  mkComponent VUndef [] [] None None None.
Definition blank_dom : domnode :=
  mkDom false "" "" VNull None [] ∅ ∅ (VStr "") ∅ (VStr "") None [] None.

Definition upd {A} (i : nat) (f : A -> A) (l : list A) : list A :=
  match l !! i with Some x => <[i := f x]> l | None => l end.

Definition vn (s : state) (v : nat) : vnode := default blank_vnode (vnodes s !! v).
Definition cp (s : state) (c : nat) : component :=
  default blank_component (comps s !! c).
Definition nd (s : state) (d : nat) : domnode := default blank_dom (nodes s !! d).

Definition upd_vnode (v : nat) (f : vnode -> vnode) (s : state) : state :=
  set_vnodes (upd v f (vnodes s)) s.
Definition upd_comp (c : nat) (f : component -> component) (s : state) : state :=
  set_comps (upd c f (comps s)) s.
Definition upd_node (d : nat) (f : domnode -> domnode) (s : state) : state :=
  set_nodes (upd d f (nodes s)) s.

(** Reading through an optional reference: [o && o.field]. *)
Definition vn_opt (s : state) (o : option nat) : vnode :=
  match o with Some v => vn s v | None => blank_vnode end.

(* ================================================================== *)
(** * The engine monad *)
(* ================================================================== *)

Inductive res (A : Type) : Type :=
  | Ok (a : A) (s : state)
  | Throw (e : exn) (s : state)
  | OutOfFuel.
Arguments Ok {A} a s.
Arguments Throw {A} e s.
Arguments OutOfFuel {A}.

Definition M (A : Type) : Type := state -> res A.

Definition ret {A} (a : A) : M A := fun s => Ok a s.
Definition bind {A B} (m : M A) (k : A -> M B) : M B :=
  fun s => match m s with
           | Ok a s' => k a s'
           | Throw e s' => Throw e s'
           | OutOfFuel => OutOfFuel
           end.
Definition throw {A} (e : exn) : M A := fun s => Throw e s.
Definition out_of_fuel {A} : M A := fun _ => OutOfFuel.
Definition gets {A} (f : state -> A) : M A := fun s => Ok (f s) s.
Definition modify (f : state -> state) : M unit := fun s => Ok tt (f s).

(** [try { m } finally { f }] *)
Definition try_finally {A} (m : M A) (f : state -> state) : M A :=
  fun s => match m s with
           | Ok a s' => Ok a (f s')
           | Throw e s' => Throw e (f s')
           | OutOfFuel => OutOfFuel
           end.

Notation "x <~ m ; k" := (bind m (fun x => k))
  (at level 20, m at level 100, k at level 200, only parsing).
Notation "' p <~ m ; k" := (bind m (fun x => match x with p => k end))
  (at level 20, p pattern, m at level 100, k at level 200, only parsing).
Notation "m ;;; k" := (bind m (fun _ => k))
  (at level 100, k at level 200, right associativity, only parsing).

Definition when (b : bool) (m : M unit) : M unit := if b then m else ret tt.

(** [for (const x of l) body(x)] *)
Fixpoint for_each {A} (l : list A) (body : A -> M unit) : M unit :=
  match l with
  | [] => ret tt
  | x :: r => body x ;;; for_each r body
  end.

Definition console_warn (msg : string) (arg : jsval) : M unit :=
  modify (add_log (EvWarn msg arg)).
Definition console_error (msg : string) : M unit :=
  modify (add_log (EvError msg)).

(* ================================================================== *)
(** * The host document: the DOM node API the engine consumes *)
(* ================================================================== *)

Definition HTML_NAMESPACE : string := "http://www.w3.org/1999/xhtml".
Definition SVG_NAMESPACE : string := "http://www.w3.org/2000/svg".

Definition alloc_node (n : domnode) : M nat :=
  fun s => Ok (length (nodes s)) (set_nodes (nodes s ++ [n]) s).

Definition new_element (ns tag : string) : domnode :=
  mkDom true tag ns VNull None [] ∅ ∅ (VStr "") ∅ (VStr "") None [] None.
Definition new_text (text : jsval) : domnode :=
  mkDom false "#text" "" text None [] ∅ ∅ (VStr "") ∅ (VStr "") None [] None.

Definition createElement (tag : string) : M nat :=
  alloc_node (new_element HTML_NAMESPACE tag).
Definition createElementNS (ns tag : string) : M nat :=
  alloc_node (new_element ns tag).
Definition createTextNode (text : jsval) : M nat :=
  alloc_node (new_text text).

Definition set_d_parentNode (p : option nat) (n : domnode) : domnode :=
  mkDom (d_isElement n) (d_tag n) (d_namespaceURI n) (d_nodeValue n) p
    (d_childNodes n) (d_attrs n) (d_fields n) (d_cssText n) (d_style n)
    (d_innerHTML n) (d_listeners n) (d_events n) (d_children n).
Definition set_d_childNodes (l : list nat) (n : domnode) : domnode :=
  mkDom (d_isElement n) (d_tag n) (d_namespaceURI n) (d_nodeValue n)
    (d_parentNode n) l (d_attrs n) (d_fields n) (d_cssText n) (d_style n)
    (d_innerHTML n) (d_listeners n) (d_events n) (d_children n).
Definition set_d_nodeValue (x : jsval) (n : domnode) : domnode :=
  mkDom (d_isElement n) (d_tag n) (d_namespaceURI n) x
    (d_parentNode n) (d_childNodes n) (d_attrs n) (d_fields n) (d_cssText n)
    (d_style n) (d_innerHTML n) (d_listeners n) (d_events n) (d_children n).
Definition set_d_attrs (x : gmap string string) (n : domnode) : domnode :=
  mkDom (d_isElement n) (d_tag n) (d_namespaceURI n) (d_nodeValue n)
    (d_parentNode n) (d_childNodes n) x (d_fields n) (d_cssText n)
    (d_style n) (d_innerHTML n) (d_listeners n) (d_events n) (d_children n).
Definition set_d_fields (x : gmap string jsval) (n : domnode) : domnode :=
  mkDom (d_isElement n) (d_tag n) (d_namespaceURI n) (d_nodeValue n)
    (d_parentNode n) (d_childNodes n) (d_attrs n) x (d_cssText n)
    (d_style n) (d_innerHTML n) (d_listeners n) (d_events n) (d_children n).
Definition set_d_cssText (x : jsval) (n : domnode) : domnode :=
  mkDom (d_isElement n) (d_tag n) (d_namespaceURI n) (d_nodeValue n)
    (d_parentNode n) (d_childNodes n) (d_attrs n) (d_fields n) x
    (d_style n) (d_innerHTML n) (d_listeners n) (d_events n) (d_children n).
Definition set_d_style (x : gmap string jsval) (n : domnode) : domnode :=
  mkDom (d_isElement n) (d_tag n) (d_namespaceURI n) (d_nodeValue n)
    (d_parentNode n) (d_childNodes n) (d_attrs n) (d_fields n) (d_cssText n)
    x (d_innerHTML n) (d_listeners n) (d_events n) (d_children n).
Definition set_d_innerHTML (x : jsval) (n : domnode) : domnode :=
  mkDom (d_isElement n) (d_tag n) (d_namespaceURI n) (d_nodeValue n)
    (d_parentNode n) (d_childNodes n) (d_attrs n) (d_fields n) (d_cssText n)
    (d_style n) x (d_listeners n) (d_events n) (d_children n).
Definition set_d_listeners (x : option (gmap string jsval)) (n : domnode)
  : domnode :=
  mkDom (d_isElement n) (d_tag n) (d_namespaceURI n) (d_nodeValue n)
    (d_parentNode n) (d_childNodes n) (d_attrs n) (d_fields n) (d_cssText n)
    (d_style n) (d_innerHTML n) x (d_events n) (d_children n).
Definition set_d_events (x : list string) (n : domnode) : domnode :=
  mkDom (d_isElement n) (d_tag n) (d_namespaceURI n) (d_nodeValue n)
    (d_parentNode n) (d_childNodes n) (d_attrs n) (d_fields n) (d_cssText n)
    (d_style n) (d_innerHTML n) (d_listeners n) x (d_children n).
(** [container._children = vnode] *)
Definition set_d_children (x : option nat) (n : domnode) : domnode :=
  mkDom (d_isElement n) (d_tag n) (d_namespaceURI n) (d_nodeValue n)
    (d_parentNode n) (d_childNodes n) (d_attrs n) (d_fields n) (d_cssText n)
    (d_style n) (d_innerHTML n) (d_listeners n) (d_events n) x.

Definition remove_nat (x : nat) (l : list nat) : list nat :=
  filter (fun y => y ≠ x) l.

(** [node.remove()] *)
Definition dom_remove (d : nat) (s : state) : state :=
  match d_parentNode (nd s d) with
  | None => s
  | Some p =>
      upd_node d (set_d_parentNode None)
        (upd_node p (fun n => set_d_childNodes (remove_nat d (d_childNodes n)) n) s)
  end.

Fixpoint insert_before_in (x r : nat) (l : list nat) : list nat :=
  match l with
  | [] => [x]
  | y :: t => if Nat.eqb y r then x :: y :: t else y :: insert_before_in x r t
  end.

Fixpoint next_in (d : nat) (l : list nat) : option nat :=
  match l with
  | [] => None
  | y :: t => if Nat.eqb y d then head t else next_in d t
  end.

Fixpoint prev_in (d : nat) (prev : option nat) (l : list nat) : option nat :=
  match l with
  | [] => None
  | y :: t => if Nat.eqb y d then prev else prev_in d (Some y) t
  end.

Definition firstChild (s : state) (p : nat) : option nat :=
  head (d_childNodes (nd s p)).
Definition nextSibling (s : state) (d : nat) : option nat :=
  match d_parentNode (nd s d) with
  | None => None
  | Some p => next_in d (d_childNodes (nd s p))
  end.
Definition previousSibling (s : state) (d : nat) : option nat :=
  match d_parentNode (nd s d) with
  | None => None
  | Some p => prev_in d None (d_childNodes (nd s p))
  end.

(** [parent.appendChild(node)] *)
Definition appendChild (parent node : nat) : M unit :=
  modify (fun s =>
    let s1 := dom_remove node s in
    upd_node node (set_d_parentNode (Some parent))
      (upd_node parent (fun n => set_d_childNodes (d_childNodes n ++ [node]) n) s1)).

(** [parent.insertBefore(node, ref)]: appends when [ref] is null, fails
    with [NotFoundError] when [ref] is not a child of [parent]. *)
Definition insertBefore (parent node : nat) (ref : option nat) : M unit :=
  match ref with
  | None => appendChild parent node
  | Some r =>
      fun s =>
        if negb (bool_decide (d_parentNode (nd s r) = Some parent))
        then Throw NotFoundError s
        else
          let ref' := if Nat.eqb r node then nextSibling s node else Some r in
          let s1 := dom_remove node s in
          let place l := match ref' with
                         | Some r' => insert_before_in node r' l
                         | None => l ++ [node]
                         end in
          Ok tt (upd_node node (set_d_parentNode (Some parent))
                   (upd_node parent
                      (fun n => set_d_childNodes (place (d_childNodes n)) n) s1))
  end.

Definition is_svg (s : state) (d : nat) : bool :=
  String.eqb (d_namespaceURI (nd s d)) SVG_NAMESPACE.

(* ================================================================== *)
(** * props.js: the property writer *)
(* ================================================================== *)

Definition is_upper (c : ascii) : bool :=
  (65 <=? nat_of_ascii c)%nat && (nat_of_ascii c <=? 90)%nat.
Definition lower_ascii (c : ascii) : ascii :=
  if is_upper c then ascii_of_nat (nat_of_ascii c + 32) else c.

(** [s.toLowerCase()] on names written in ASCII: the letters [A] to [Z]
    are lowered and every other character is kept.  (JavaScript also lowers
    the letters outside ASCII.) *)
Fixpoint toLowerCase (s : string) : string :=
  match s with
  | EmptyString => EmptyString
  | String c r => String (lower_ascii c) (toLowerCase r)
  end.

(** [s.slice(2)] *)
Definition slice2 (s : string) : string :=
  match s with
  | String _ (String _ r) => r
  | _ => EmptyString
  end.

(** [name[0] === 'o' && name[1] === 'n'] *)
Definition starts_with_on (name : string) : bool :=
  match name with
  | String a (String b _) => Ascii.eqb a "o" && Ascii.eqb b "n"
  | _ => false
  end.

(** [name[0] === '-'] *)
Definition starts_with_dash (name : string) : bool :=
  match name with
  | String a _ => Ascii.eqb a "-"
  | _ => false
  end.

Definition CSS_NUMBER_PROPERTIES : list string :=
  [ "animationIterationCount"; "columnCount"; "fillOpacity"; "flexGrow";
    "flexShrink"; "fontWeight"; "gridColumn"; "gridRow"; "lineHeight";
    "opacity"; "order"; "orphans"; "strokeOpacity"; "tabSize"; "widows";
    "zIndex"; "zoom" ].

Definition str_in (x : string) (l : list string) : bool :=
  existsb (String.eqb x) l.

Definition is_number (v : jsval) : bool :=
  match v with VNum _ | VNaN | VNegZero => true | _ => false end.
Definition is_string (v : jsval) : bool :=
  match v with VStr _ => true | _ => false end.

(** [setStyleProperty(style, name, value)]: [style.setProperty] for custom
    properties and [style[name] = ...] otherwise both land in the style
    declaration of the element. *)
Definition setStyleProperty (name : string) (value : jsval) (n : domnode)
  : domnode :=
  if starts_with_dash name then
    set_d_style (<[name := if is_nullish value then VStr "" else value]> (d_style n)) n
  else
    let value' :=
      if is_number value && negb (str_in name CSS_NUMBER_PROPERTIES)
      then VStr (js_String value ++ "px") else value in
    set_d_style (<[name := if is_nullish value' then VStr "" else value']> (d_style n)) n.

(** [setStyle(dom, value, oldValue)] *)
Definition setStyle (value oldValue : jsval) (n : domnode) : domnode :=
  if is_string value then set_d_cssText value n
  else
    let n1 :=
      if is_object oldValue then
        fold_left (fun acc styleName =>
                     if negb (truthy value && has_prop value styleName)
                     then setStyleProperty styleName (VStr "") acc else acc)
                  (keys_of oldValue) n
      else if is_string oldValue then set_d_cssText (VStr "") n
      else n in
    if is_object value then
      fold_left (fun acc styleName =>
                   let styleValue := get_prop value styleName in
                   if negb (truthy oldValue)
                      || negb (strict_eq (get_prop oldValue styleName) styleValue)
                   then setStyleProperty styleName styleValue acc else acc)
                (keys_of value) n1
    else n1.

Definition add_event (e : string) (l : list string) : list string :=
  if str_in e l then l else l ++ [e].
Definition remove_event (e : string) (l : list string) : list string :=
  filter (fun x => x ≠ e) l.

(** [setEventHandler(dom, name, value, oldValue)] *)
Definition setEventHandler (name : string) (value oldValue : jsval)
    (n : domnode) : domnode :=
  let eventName := toLowerCase (slice2 name) in
  let listeners := default ∅ (d_listeners n) in
  let n1 := set_d_listeners (Some (<[eventName := value]> listeners)) n in
  if truthy value && negb (truthy oldValue) then
    set_d_events (add_event eventName (d_events n1)) n1
  else if negb (truthy value) && truthy oldValue then
    set_d_events (remove_event eventName (d_events n1)) n1
  else n1.

Definition attr_name (name : string) : string :=
  if String.eqb name "className" then "class"
  else if String.eqb name "htmlFor" then "for"
  else name.

(** [setAttributeSVG(dom, name, value)] *)
Definition setAttributeSVG (name : string) (value : jsval) (n : domnode)
  : domnode :=
  let attrName := attr_name name in
  if is_nullish value || strict_eq value (VBool false) then
    set_d_attrs (delete attrName (d_attrs n)) n
  else
    set_d_attrs
      (<[attrName := if strict_eq value (VBool true) then "" else js_String value]>
         (d_attrs n)) n.

(** [setPropertyOrAttribute(dom, name, value)] *)
Definition setPropertyOrAttribute (name : string) (value : jsval)
    (n : domnode) : domnode :=
  let propName := attr_name name in
  if String.eqb propName "value" || String.eqb propName "checked" then
    if is_nullish value then
      set_d_fields
        (<[propName := if String.eqb propName "value" then VStr "" else VBool false]>
           (d_fields n)) n
    else set_d_fields (<[propName := value]> (d_fields n)) n
  else if strict_eq value (VBool true) then
    set_d_attrs (<[propName := ""]> (d_attrs n)) n
  else if is_nullish value || strict_eq value (VBool false) then
    set_d_attrs (delete propName (d_attrs n)) n
  else set_d_attrs (<[propName := js_String value]> (d_attrs n)) n.

(** [setProperty(dom, name, value, oldValue, namespace)] *)
Definition setProperty (name : string) (value oldValue : jsval)
    (namespace : option string) (n : domnode) : domnode :=
  if String.eqb name "children" then n
  else if String.eqb name "style" then setStyle value oldValue n
  else if starts_with_on name then setEventHandler name value oldValue n
  else if String.eqb name "dangerouslySetInnerHTML" then
    if truthy value && negb (is_nullish (get_prop value "__html"))
    then set_d_innerHTML (get_prop value "__html") n else n
  else if String.eqb name "ref" then n
  else if String.eqb name "key" then n
  else match namespace with
       | Some _ => setAttributeSVG name value n
       | None => setPropertyOrAttribute name value n
       end.

(** [diffProps(dom, newProps, oldProps, namespace)] *)
Definition diffProps (newProps oldProps : jsval) (namespace : option string)
    (n : domnode) : domnode :=
  let n1 :=
    fold_left (fun acc propName =>
                 if negb (String.eqb propName "children")
                    && negb (has_prop newProps propName)
                 then setProperty propName VNull (get_prop oldProps propName)
                        namespace acc
                 else acc)
              (keys_of oldProps) n in
  fold_left (fun acc propName =>
               let newValue := get_prop newProps propName in
               let oldValue := get_prop oldProps propName in
               if negb (strict_eq newValue oldValue)
                  || String.eqb propName "value"
                  || String.eqb propName "checked"
               then setProperty propName newValue oldValue namespace acc
               else acc)
            (keys_of newProps) n1.

(* ================================================================== *)
(** * Functions supplied from outside the engine *)
(* ================================================================== *)

(** The object returned by [createContext]; its [Provider] is the function
    [Provider ctx_id]. *)
Record context : Type := mkContext {
  ctx_id : nat;
  ctx_defaultValue : jsval;
}.

Definition set_hs_initialized (x : bool) (h : hookState) : hookState :=
  mkHook x (hs_value h) (hs_component h) (hs_setState h) (hs_reducer h)
    (hs_dispatch h) (hs_args h) (hs_pendingArgs h) (hs_cleanup h).
Definition set_hs_value (x : jsval) (h : hookState) : hookState :=
  mkHook (hs_initialized h) x (hs_component h) (hs_setState h) (hs_reducer h)
    (hs_dispatch h) (hs_args h) (hs_pendingArgs h) (hs_cleanup h).
Definition set_hs_component (x : option nat) (h : hookState) : hookState :=
  mkHook (hs_initialized h) (hs_value h) x (hs_setState h) (hs_reducer h)
    (hs_dispatch h) (hs_args h) (hs_pendingArgs h) (hs_cleanup h).
Definition set_hs_setState (x : bool) (h : hookState) : hookState :=
  mkHook (hs_initialized h) (hs_value h) (hs_component h) x (hs_reducer h)
    (hs_dispatch h) (hs_args h) (hs_pendingArgs h) (hs_cleanup h).
Definition set_hs_reducer (x : jsval) (h : hookState) : hookState :=
  mkHook (hs_initialized h) (hs_value h) (hs_component h) (hs_setState h) x
    (hs_dispatch h) (hs_args h) (hs_pendingArgs h) (hs_cleanup h).
Definition set_hs_dispatch (x : bool) (h : hookState) : hookState :=
  mkHook (hs_initialized h) (hs_value h) (hs_component h) (hs_setState h)
    (hs_reducer h) x (hs_args h) (hs_pendingArgs h) (hs_cleanup h).
Definition set_hs_args (x : option (list jsval)) (h : hookState) : hookState :=
  mkHook (hs_initialized h) (hs_value h) (hs_component h) (hs_setState h)
    (hs_reducer h) (hs_dispatch h) x (hs_pendingArgs h) (hs_cleanup h).
Definition set_hs_pendingArgs (x : option (list jsval)) (h : hookState)
  : hookState :=
  mkHook (hs_initialized h) (hs_value h) (hs_component h) (hs_setState h)
    (hs_reducer h) (hs_dispatch h) (hs_args h) x (hs_cleanup h).
Definition set_hs_cleanup (x : jsval) (h : hookState) : hookState :=
  mkHook (hs_initialized h) (hs_value h) (hs_component h) (hs_setState h)
    (hs_reducer h) (hs_dispatch h) (hs_args h) (hs_pendingArgs h) x.

(** The slot object [component.__hooks._list[i]]. *)
Definition slot (s : state) (c i : nat) : hookState :=
  default empty_hook (c_list (cp s c) !! i).
Definition upd_slot (c i : nat) (f : hookState -> hookState) (s : state)
  : state :=
  upd_comp c (fun comp => set_c_list (upd i f (c_list comp)) comp) s.

(** A [Set] keeps insertion order and has no duplicates. *)
Definition set_add (x : nat) (l : list nat) : list nat :=
  if bool_decide (x ∈ l) then l else l ++ [x].

(** A [Map] from keys to indices, compared by SameValueZero. *)
Fixpoint map_get (k : jsval) (m : list (jsval * nat)) : option nat :=
  match m with
  | [] => None
  | (k', i) :: r => if same_value_zero k' k then Some i else map_get k r
  end.
Fixpoint map_set (k : jsval) (i : nat) (m : list (jsval * nat))
  : list (jsval * nat) :=
  match m with
  | [] => [(k, i)]
  | (k', j) :: r =>
      if same_value_zero k' k then (k', i) :: r else (k', j) :: map_set k i r
  end.

Section Engine.

(** Functions supplied from outside the engine are known by identity; two
    tables tell what calling them does.  A user callback (effect, cleanup,
    reducer, updater, initializer, ref callback, option hook) is a function
    of its arguments, and each invocation is recorded in the log: such a
    callback returns a value and does nothing else.  A callback that throws,
    or that calls a setter or a dispatcher while it runs, is not
    represented; what is proved of a call holds for callbacks that only
    compute their result.  A user component runs in the engine monad, where
    it may call hooks, build vnodes and throw. *)
Variable callbacks : nat -> list jsval -> jsval.
Variable components : nat -> jsval -> M jsval.

(** Calling a user function: the call is logged and the callback's result
    returned.  Calling something that is not a function is a [TypeError]. *)
Definition call_user (f : jsval) (args : list jsval) : M jsval :=
  match f with
  | VFun n =>
      modify (add_log (EvCall n args)) ;;;
      ret (callbacks n args)
  | _ => throw (TypeError "not a function")
  end.

(** [if (options.name) options.name(args)] *)
Definition call_option (name : string) (args : list jsval) : M unit :=
  o <~ gets (fun s => assoc_get name (options s));
  if truthy o then call_user o args ;;; ret tt else ret tt.

(* ------------------------------------------------------------------ *)
(** ** vnode.js *)
(* ------------------------------------------------------------------ *)

(** [createVNode(type, props, key, ref)] *)
Definition createVNode (type : vtype) (props key ref : jsval) : M nat :=
  fun s =>
    Ok (length (vnodes s))
       (set_vnodes
          (vnodes s ++
             [mkVNode type props key ref None None None None 0 0 None VUndef None])
          s).

(** One child of [flattenChildren]: [null], [undefined] and booleans are
    dropped, arrays are flattened recursively. *)
Fixpoint flatten_child (child : jsval) : list jsval :=
  match child with
  | VUndef | VNull | VBool _ => []
  | VArr l =>
      (fix go (l : list jsval) : list jsval :=
         match l with
         | [] => []
         | x :: r => flatten_child x ++ go r
         end) l
  | _ => [child]
  end.

Definition flattenChildren (children : list jsval) : list jsval :=
  flatten_child (VArr children).

Definition strip_key_ref (props : list (string * jsval))
  : list (string * jsval) :=
  filter (fun p => p.1 ≠ "key" ∧ p.1 ≠ "ref") props.

(** [h(type, props, ...children)] *)
Definition h (type : vtype) (props : jsval) (children : list jsval) : M nat :=
  let normalizedProps := or_empty props in
  let key := if negb (strict_eq (get_prop normalizedProps "key") VUndef)
             then get_prop normalizedProps "key" else VNull in
  let ref := if negb (strict_eq (get_prop normalizedProps "ref") VUndef)
             then get_prop normalizedProps "ref" else VNull in
  let finalProps :=
    match normalizedProps with VRec l => strip_key_ref l | _ => [] end in
  let flatChildren := flattenChildren children in
  let finalProps' :=
    match flatChildren with
    | [] => finalProps
    | [one] => assoc_set "children" one finalProps
    | _ => assoc_set "children" (VArr flatChildren) finalProps
    end in
  vnode <~ createVNode type (VRec finalProps') key ref;
  call_option "vnode" [VNode vnode] ;;;
  ret vnode.

(** [createPortal(children, container)] of portal.js *)
Definition createPortal (children container : jsval) : M nat :=
  createVNode TPortal (VRec [("children", children); ("_container", container)])
    VNull VNull.

(* ------------------------------------------------------------------ *)
(** ** scheduler.js: the queue *)
(* ------------------------------------------------------------------ *)

(** [enqueueRender(component)] *)
Definition enqueueRender (component : nat) : M unit :=
  modify (fun s =>
    if negb (bool_decide (component ∈ renderQueue s)) then
      let s1 := set_renderQueue (renderQueue s ++ [component]) s in
      if negb (scheduled s1)
      then set_microtasks (S (microtasks s1)) (set_scheduled true s1)
      else s1
    else s).

Fixpoint remove_first (x : nat) (l : list nat) : list nat :=
  match l with
  | [] => []
  | y :: r => if Nat.eqb y x then r else y :: remove_first x r
  end.

(** [dequeueRender(component)] *)
Definition dequeueRender (component : nat) : M unit :=
  modify (fun s => set_renderQueue (remove_first component (renderQueue s)) s).

(* ------------------------------------------------------------------ *)
(** ** context.js *)
(* ------------------------------------------------------------------ *)

(** [type && type._isContextProvider === CONTEXT_PROVIDER &&
     type._contextId === context._id] *)
Definition is_provider_of (ctx : context) (t : vtype) : bool :=
  match t with
  | TFun (Provider id) => Nat.eqb id (ctx_id ctx)
  | _ => false
  end.

(** [findProvider(context, startVNode)] *)
Fixpoint findProvider (fuel : nat) (ctx : context) (startVNode : option nat)
  : M (option nat) :=
  match startVNode with
  | None => ret None
  | Some current =>
      match fuel with
      | 0 => out_of_fuel
      | S fuel' =>
          v <~ gets (fun s => vn s current);
          if is_provider_of ctx (v_type v) then ret (Some current)
          else findProvider fuel' ctx (v_parent v)
      end
  end.

(** [subscribeToProvider(providerVNode, component)] *)
Definition subscribeToProvider (providerVNode component : nat) : M unit :=
  modify (upd_vnode providerVNode (fun v =>
            set_v_subs (Some (set_add component
                                (default [] (v_contextSubscriptions v)))) v)) ;;;
  modify (upd_comp component (fun c =>
            set_c_subs (Some (set_add providerVNode
                                (default [] (c_contextSubscriptions c)))) c)).

(** [notifyContextSubscribers(providerVNode)] *)
Definition notifyContextSubscribers (providerVNode : nat) : M unit :=
  subs <~ gets (fun s => v_contextSubscriptions (vn s providerVNode));
  match subs with
  | None => ret tt
  | Some l =>
      for_each l (fun component =>
        alive <~ gets (fun s => c_vnode (cp s component));
        match alive with
        | Some _ => enqueueRender component
        | None =>
            modify (upd_vnode providerVNode (fun v =>
              set_v_subs (option_map (remove_nat component)
                            (v_contextSubscriptions v)) v))
        end)
  end.

(** [cleanupContextSubscriptions(component)] *)
Definition cleanupContextSubscriptions (component : nat) : M unit :=
  subs <~ gets (fun s => c_contextSubscriptions (cp s component));
  match subs with
  | None => ret tt
  | Some l =>
      for_each l (fun providerVNode =>
        modify (upd_vnode providerVNode (fun v =>
          set_v_subs (option_map (remove_nat component)
                        (v_contextSubscriptions v)) v))) ;;;
      modify (upd_comp component (set_c_subs (Some [])))
  end.

(* ------------------------------------------------------------------ *)
(** ** hooks.js *)
(* ------------------------------------------------------------------ *)

(** [setCurrentComponent(component)] *)
Definition setCurrentComponent (component : option nat) : M unit :=
  modify (set_current component 0).

(** [currentIndex++]: yields the old index. *)
Definition next_index : M nat :=
  fun s => Ok (currentIndex s)
              (set_current (currentComponent s) (S (currentIndex s)) s).

(** [getHookState(index)]: dereferencing [currentComponent.__hooks] outside
    a render is a [TypeError].  The slot is named by its owner and index. *)
Definition getHookState (index : nat) : M (nat * nat) :=
  cur <~ gets currentComponent;
  match cur with
  | None => throw (TypeError "Cannot read properties of null (reading '__hooks')")
  | Some c =>
      modify (upd_comp c (fun comp =>
                if (length (c_list comp) <=? index)%nat
                then set_c_list (c_list comp ++ [empty_hook]) comp else comp)) ;;;
      ret (c, index)
  end.

(** The closure stored in [hookState._setState]. *)
Definition invoke_setState (c i : nat) (update : jsval) : M unit :=
  cur <~ gets (fun s => hs_value (slot s c i));
  nextValue <~ (if is_function update then call_user update [cur] else ret update);
  hs <~ gets (fun s => slot s c i);
  if negb (Object_is (hs_value hs) nextValue) then
    modify (upd_slot c i (set_hs_value nextValue)) ;;;
    match hs_component hs with
    | Some owner => enqueueRender owner
    | None => ret tt
    end
  else ret tt.

(** The closure stored in [hookState._dispatch]. *)
Definition invoke_dispatch (c i : nat) (action : jsval) : M unit :=
  hs0 <~ gets (fun s => slot s c i);
  nextValue <~ call_user (hs_reducer hs0) [hs_value hs0; action];
  hs <~ gets (fun s => slot s c i);
  if negb (Object_is (hs_value hs) nextValue) then
    modify (upd_slot c i (set_hs_value nextValue)) ;;;
    match hs_component hs with
    | Some owner => enqueueRender owner
    | None => ret tt
    end
  else ret tt.

(** Calling any function value, including the engine's own closures. *)
Definition call (f : jsval) (args : list jsval) : M jsval :=
  match f with
  | VSetter c i => invoke_setState c i (hd VUndef args) ;;; ret VUndef
  | VDispatch c i => invoke_dispatch c i (hd VUndef args) ;;; ret VUndef
  | _ => call_user f args
  end.

(** [useState(initialState)] *)
Definition useState (initialState : jsval) : M (jsval * jsval) :=
  index <~ next_index;
  '(c, i) <~ getHookState index;
  hs <~ gets (fun s => slot s c i);
  (if negb (hs_initialized hs) then
     modify (upd_slot c i (set_hs_initialized true)) ;;;
     v <~ (if is_function initialState then call initialState []
           else ret initialState);
     modify (upd_slot c i (set_hs_value v)) ;;;
     cur <~ gets currentComponent;
     modify (upd_slot c i (set_hs_component cur))
   else ret tt) ;;;
  hs1 <~ gets (fun s => slot s c i);
  when (negb (hs_setState hs1)) (modify (upd_slot c i (set_hs_setState true))) ;;;
  hs2 <~ gets (fun s => slot s c i);
  ret (hs_value hs2, VSetter c i).

(** [useReducer(reducer, initialArg, init)] *)
Definition useReducer (reducer initialArg init : jsval) : M (jsval * jsval) :=
  index <~ next_index;
  '(c, i) <~ getHookState index;
  hs <~ gets (fun s => slot s c i);
  (if negb (hs_initialized hs) then
     modify (upd_slot c i (set_hs_initialized true)) ;;;
     v <~ (if truthy init then call init [initialArg] else ret initialArg);
     modify (upd_slot c i (set_hs_value v)) ;;;
     cur <~ gets currentComponent;
     modify (upd_slot c i (set_hs_component cur)) ;;;
     modify (upd_slot c i (set_hs_reducer reducer))
   else ret tt) ;;;
  modify (upd_slot c i (set_hs_reducer reducer)) ;;;
  hs1 <~ gets (fun s => slot s c i);
  when (negb (hs_dispatch hs1)) (modify (upd_slot c i (set_hs_dispatch true))) ;;;
  hs2 <~ gets (fun s => slot s c i);
  ret (hs_value hs2, VDispatch c i).

(** [argsChanged(oldArgs, newArgs)]; [None] is [undefined]. *)
Fixpoint args_differ (oldArgs newArgs : list jsval) : bool :=
  match newArgs with
  | [] => false
  | y :: ys =>
      match oldArgs with
      | [] => negb (Object_is VUndef y) || args_differ [] ys
      | x :: xs => negb (Object_is x y) || args_differ xs ys
      end
  end.

Definition argsChanged (oldArgs newArgs : option (list jsval)) : bool :=
  match oldArgs with
  | None => true
  | Some old =>
      match newArgs with
      | None => true
      | Some new =>
          if negb (Nat.eqb (length old) (length new)) then true
          else args_differ old new
      end
  end.

(** [useEffect(callback, deps)] *)
Definition useEffect (callback : jsval) (deps : option (list jsval)) : M unit :=
  index <~ next_index;
  '(c, i) <~ getHookState index;
  hs <~ gets (fun s => slot s c i);
  if argsChanged (hs_args hs) deps then
    modify (upd_slot c i (set_hs_value callback)) ;;;
    modify (upd_slot c i (set_hs_pendingArgs deps)) ;;;
    modify (upd_comp c (fun comp =>
              set_c_pendingEffects (c_pendingEffects comp ++ [i]) comp))
  else ret tt.

(** [useLayoutEffect(callback, deps)] *)
Definition useLayoutEffect (callback : jsval) (deps : option (list jsval))
  : M unit :=
  index <~ next_index;
  '(c, i) <~ getHookState index;
  hs <~ gets (fun s => slot s c i);
  if argsChanged (hs_args hs) deps then
    modify (upd_slot c i (set_hs_value callback)) ;;;
    modify (upd_slot c i (set_hs_pendingArgs deps)) ;;;
    modify (upd_comp c (fun comp =>
              set_c_pendingLayoutEffects
                (Some (default [] (c_pendingLayoutEffects comp) ++ [i])) comp))
  else ret tt.

(** [useMemo(factory, deps)], with the factory given as the computation
    that calling it performs. *)
Definition useMemo_with (factory : M jsval) (deps : option (list jsval))
  : M jsval :=
  index <~ next_index;
  '(c, i) <~ getHookState index;
  hs <~ gets (fun s => slot s c i);
  (if argsChanged (hs_args hs) deps then
     v <~ factory;
     modify (upd_slot c i (set_hs_value v)) ;;;
     modify (upd_slot c i (set_hs_args deps))
   else ret tt) ;;;
  gets (fun s => hs_value (slot s c i)).

Definition useMemo (factory : jsval) (deps : option (list jsval)) : M jsval :=
  useMemo_with (call factory []) deps.

(** [{ current: initialValue }] *)
Definition new_ref_cell (initialValue : jsval) : M jsval :=
  fun s => Ok (VObj (length (objs s))) (set_objs (objs s ++ [initialValue]) s).

(** [useRef(initialValue)] *)
Definition useRef (initialValue : jsval) : M jsval :=
  useMemo_with (new_ref_cell initialValue) (Some []).

(** [useCallback(callback, deps)] *)
Definition useCallback (callback : jsval) (deps : option (list jsval))
  : M jsval :=
  useMemo_with (ret callback) deps.

(** [useDebugValue(value, formatter)] *)
Definition useDebugValue (_value _formatter : jsval) : M unit := ret tt.

(** [useContext(context)] *)
Definition useContext (fuel : nat) (ctx : context) : M jsval :=
  cur <~ gets currentComponent;
  match cur with
  | None => throw (Error "useContext must be called during render")
  | Some component =>
      vnode <~ gets (fun s => c_vnode (cp s component));
      match vnode with
      | None => ret (ctx_defaultValue ctx)
      | Some v =>
          parent <~ gets (fun s => v_parent (vn s v));
          providerVNode <~ findProvider fuel ctx parent;
          match providerVNode with
          | Some p =>
              subscribeToProvider p component ;;;
              gets (fun s => v_contextValue (vn s p))
          | None => ret (ctx_defaultValue ctx)
          end
      end
  end.

(** One pending slot of [runPendingEffects] / [runPendingLayoutEffects]. *)
Definition run_effect (component i : nat) : M unit :=
  hs <~ gets (fun s => slot s component i);
  when (truthy (hs_cleanup hs)) (call (hs_cleanup hs) [] ;;; ret tt) ;;;
  callback <~ gets (fun s => hs_value (slot s component i));
  cleanup <~ call callback [];
  modify (upd_slot component i
            (set_hs_cleanup (if is_function cleanup then cleanup else VUndef))) ;;;
  modify (upd_slot component i (fun h => set_hs_args (hs_pendingArgs h) h)).

(** [runPendingEffects(component)] *)
Definition runPendingEffects (component : nat) : M unit :=
  pending <~ gets (fun s => c_pendingEffects (cp s component));
  match pending with
  | [] => ret tt
  | _ =>
      for_each pending (run_effect component) ;;;
      modify (upd_comp component (set_c_pendingEffects []))
  end.

(** [runPendingLayoutEffects(component)] *)
Definition runPendingLayoutEffects (component : nat) : M unit :=
  pending <~ gets (fun s => c_pendingLayoutEffects (cp s component));
  match pending with
  | None => ret tt
  | Some l =>
      for_each l (run_effect component) ;;;
      modify (upd_comp component (set_c_pendingLayoutEffects (Some [])))
  end.

(** The body of the [forEach] of [runCleanups]. *)
Definition run_cleanup (component i : nat) : M unit :=
  hs <~ gets (fun s => slot s component i);
  if truthy (hs_cleanup hs) then
    call (hs_cleanup hs) [] ;;;
    modify (upd_slot component i (set_hs_cleanup VUndef))
  else ret tt.

(** [runCleanups(component)] *)
Definition runCleanups (component : nat) : M unit :=
  n <~ gets (fun s => length (c_list (cp s component)));
  for_each (seq 0 n) (run_cleanup component) ;;;
  cleanupContextSubscriptions component.

(** [afterPaint(callback)]: the callback runs once, after the next frame.
    The callbacks registered by [commitRoot] are known by the commit queue
    they close over. *)
Definition afterPaint (commitQueue : list nat) : M unit :=
  modify (fun s => set_paintQueue (paintQueue s ++ [commitQueue]) s).

(** [createContext(defaultValue)]: the fresh symbol [contextId] is a newly
    allocated cell, which no other context shares. *)
Definition createContext (defaultValue : jsval) : M context :=
  fun s => Ok (mkContext (length (objs s)) defaultValue)
              (set_objs (objs s ++ [VUndef]) s).

(* ------------------------------------------------------------------ *)
(** ** children.js *)
(* ------------------------------------------------------------------ *)

(** [getFirstDom(vnode)] *)
Fixpoint getFirstDom (fuel : nat) (vnode : option nat) : M (option nat) :=
  match vnode with
  | None => ret None
  | Some v =>
      match fuel with
      | 0 => out_of_fuel
      | S fuel' =>
          x <~ gets (fun s => vn s v);
          match v_dom x with
          | Some d => ret (Some d)
          | None =>
              (fix loop (l : list nat) : M (option nat) :=
                 match l with
                 | [] => ret None
                 | c :: r =>
                     childDom <~ getFirstDom fuel' (Some c);
                     match childDom with
                     | Some d => ret (Some d)
                     | None => loop r
                     end
                 end) (default [] (v_children x))
          end
      end
  end.

(** [getLastDom(vnode)] *)
Fixpoint getLastDom (fuel : nat) (vnode : option nat) : M (option nat) :=
  match vnode with
  | None => ret None
  | Some v =>
      match fuel with
      | 0 => out_of_fuel
      | S fuel' =>
          x <~ gets (fun s => vn s v);
          match v_dom x with
          | Some d => ret (Some d)
          | None =>
              (fix loop (l : list nat) : M (option nat) :=
                 match l with
                 | [] => ret None
                 | c :: r =>
                     childDom <~ getLastDom fuel' (Some c);
                     match childDom with
                     | Some d => ret (Some d)
                     | None => loop r
                     end
                 end) (rev (default [] (v_children x)))
          end
      end
  end.

(** [placeChild(parentDom, vnode, refDom)] *)
Fixpoint placeChild (fuel : nat) (parentDom vnode : nat) (refDom : option nat)
  : M unit :=
  match fuel with
  | 0 => out_of_fuel
  | S fuel' =>
      x <~ gets (fun s => vn s vnode);
      match v_dom x with
      | Some d =>
          p <~ gets (fun s => d_parentNode (nd s d));
          if bool_decide (p = Some parentDom)
          then insertBefore parentDom d refDom else ret tt
      | None =>
          match v_children x with
          | None => ret tt
          | Some l =>
              (fix loop (l : list nat) (refDom : option nat) : M unit :=
                 match l with
                 | [] => ret tt
                 | child :: r =>
                     placeChild fuel' parentDom child refDom ;;;
                     childLastDom <~ getLastDom fuel' (Some child);
                     match childLastDom with
                     | Some d =>
                         next <~ gets (fun s => nextSibling s d);
                         loop r next
                     | None => loop r refDom
                     end
                 end) l refDom
          end
      end
  end.

(** [normalizeChildren(children, normalized, parentVNode)]: the array
    [normalized] is threaded through; the value returned is its final
    content.  A child that is an object but no vnode is skipped with a
    warning. *)
Fixpoint normalizeChildren (children : jsval) (normalized : list nat)
  : M (list nat) :=
  match children with
  | VUndef | VNull | VBool _ => ret normalized
  | VArr l =>
      (fix go (l : list jsval) (normalized : list nat) : M (list nat) :=
         match l with
         | [] => ret normalized
         | x :: r =>
             normalized' <~ normalizeChildren x normalized;
             go r normalized'
         end) l normalized
  | VStr _ | VNum _ | VNaN | VNegZero =>
      t <~ createVNode TText (VStr (js_String children)) VNull VNull;
      ret (normalized ++ [t])
  | VNode c =>
      x <~ gets (fun s => vn s c);
      match v_type x with
      | TUndefined =>
          console_warn "Unknown child type:" children ;;; ret normalized
      | _ =>
          clone <~ createVNode (v_type x) (v_props x) (v_key x) (v_ref x);
          ret (normalized ++ [clone])
      end
  | _ => console_warn "Unknown child type:" children ;;; ret normalized
  end.

(** *** Phase 1: matching new children with old children *)

(** The index of keyed old children: later duplicates of a key win. *)
Fixpoint index_keys (oldChildren : list vnode) (i : nat)
    (m : list (jsval * nat)) : list (jsval * nat) :=
  match oldChildren with
  | [] => m
  | oldChild :: r =>
      index_keys r (S i)
        (if negb (is_nullish (v_key oldChild)) then map_set (v_key oldChild) i m
         else m)
  end.

(** The forward scan for an unmatched, unkeyed old child of a type. *)
Fixpoint scan_unkeyed (oldChildren : list vnode) (matched : list bool)
    (type : vtype) (j : nat) : option nat :=
  match oldChildren with
  | [] => None
  | candidate :: r =>
      if negb (default false (matched !! j))
         && is_nullish (v_key candidate)
         && vtype_eqb (v_type candidate) type
      then Some j
      else scan_unkeyed r matched type (S j)
  end.

(** The body of the matching loop: the [matchedIndex] found for the new
    child at position [i], [None] standing for [-1]. *)
Definition match_child (oldChildren : list vnode) (byKey : list (jsval * nat))
    (matched : list bool) (i : nat) (newChild : vnode) : option nat :=
  if negb (is_nullish (v_key newChild)) then
    match map_get (v_key newChild) byKey with
    | Some keyIndex =>
        if negb (default false (matched !! keyIndex)) then
          match oldChildren !! keyIndex with
          | Some candidate =>
              if vtype_eqb (v_type candidate) (v_type newChild)
              then Some keyIndex else None
          | None => None
          end
        else None
    | None => None
    end
  else
    let positional :=
      if (i <? length oldChildren)%nat && negb (default false (matched !! i))
      then match oldChildren !! i with
           | Some candidate =>
               if is_nullish (v_key candidate)
                  && vtype_eqb (v_type candidate) (v_type newChild)
               then Some i else None
           | None => None
           end
      else None in
    match positional with
    | Some j => Some j
    | None => scan_unkeyed oldChildren matched (v_type newChild) 0
    end.

(** The matching loop: for each new child the index of the old child it
    reuses, and the final [matched] flags. *)
Fixpoint match_children (oldChildren : list vnode) (byKey : list (jsval * nat))
    (newChildren : list vnode) (i : nat) (matched : list bool)
  : list (option nat) * list bool :=
  match newChildren with
  | [] => ([], matched)
  | newChild :: r =>
      let matchedIndex := match_child oldChildren byKey matched i newChild in
      let matched' := match matchedIndex with
                      | Some j => <[j := true]> matched
                      | None => matched
                      end in
      let '(rest, final) := match_children oldChildren byKey r (S i) matched' in
      (matchedIndex :: rest, final)
  end.

(** An entry of the ref queue. *)
Record ref_action : Type := mkRef {
  ra_ref : jsval;
  ra_value : jsval;
  ra_oldRef : jsval;
}.

(** The two arrays that a diff pass fills. *)
Record queues : Type := mkQueues {
  commitQueue : list nat;
  refQueue : list ref_action;
}.

Definition diff_fn : Type :=
  nat -> option nat -> option nat -> option string -> queues -> option nat
  -> M queues.
Definition unmount_fn : Type := option nat -> option nat -> bool -> M unit.

(** [diffChildren(parentDom, renderResult, newParentVNode, oldParentVNode,
    namespace, commitQueue, oldDom, refQueue, diff, unmount)].
    [oldParentVNode] is [None] for an old parent without fields. *)
Definition diffChildren (fuel : nat) (diff : diff_fn) (unmount : unmount_fn)
    (parentDom : nat) (renderResult : jsval) (newParentVNode : nat)
    (oldParentVNode : option nat) (namespace : option string) (q : queues)
    (oldDom : option nat) : M queues :=
  oldChildren <~ gets (fun s => default [] (v_children (vn_opt s oldParentVNode)));
  newChildren <~ normalizeChildren renderResult [];
  modify (upd_vnode newParentVNode (set_v_children (Some newChildren))) ;;;
  match newChildren with
  | [] =>
      for_each oldChildren (fun c => unmount (Some c) (Some c) false) ;;;
      ret q
  | _ =>
      olds <~ gets (fun s => map (vn s) oldChildren);
      news <~ gets (fun s => map (vn s) newChildren);
      let byKey := index_keys olds 0 [] in
      let '(matchedIndex, matched) :=
        match_children olds byKey news 0 (replicate (length oldChildren) false) in
      let matchedOldChildren :=
        map (fun m => m ≫= fun j => oldChildren !! j) matchedIndex in
      let toUnmount :=
        map snd (filter (fun p => p.1 = false) (zip matched oldChildren)) in
      '(_, q') <~
        (fix loop (l : list (nat * (nat * option nat)))
                  (previousNewDom : option nat) (q : queues)
           : M (option nat * queues) :=
           match l with
           | [] => ret (previousNewDom, q)
           | (i, (newChild, oldChild)) :: r =>
               depth <~ gets (fun s => v_depth (vn s newParentVNode));
               modify (upd_vnode newChild
                         (set_v_place (Some newParentVNode) (depth + 1) i)) ;;;
               refDom <~
                 match previousNewDom with
                 | Some p => gets (fun s => nextSibling s p)
                 | None =>
                     (fix check (us : list nat) : M (option nat) :=
                        match us with
                        | [] => ret oldDom
                        | u :: us' =>
                            first <~ getFirstDom fuel (Some u);
                            if bool_decide (first = oldDom) then ret None
                            else check us'
                        end) toUnmount
                 end;
               q1 <~ diff parentDom (Some newChild) oldChild namespace q refDom;
               firstDom <~ getFirstDom fuel (Some newChild);
               lastDom <~ getLastDom fuel (Some newChild);
               match firstDom with
               | Some fd =>
                   prev <~ gets (fun s => previousSibling s fd);
                   let needsMove :=
                     bool_decide (oldChild ≠ None)
                     && bool_decide (previousNewDom ≠ None)
                     && negb (bool_decide (prev = previousNewDom)) in
                   when needsMove (placeChild fuel parentDom newChild refDom) ;;;
                   loop r (match lastDom with Some ld => Some ld | None => Some fd end) q1
               | None => loop r previousNewDom q1
               end
           end)
          (zip (seq 0 (length newChildren)) (zip newChildren matchedOldChildren))
          None q;
      for_each toUnmount (fun u => unmount (Some u) (Some u) false) ;;;
      ret q'
  end.

(* ------------------------------------------------------------------ *)
(** ** diff.js *)
(* ------------------------------------------------------------------ *)

(** [applyRef(ref, value)].  The assignment [ref.current = value] stores
    into a ref object; on a primitive it is a [TypeError] (the module is
    strict code); on the other objects (a vnode, a component, a DOM node, an
    array or object literal) it adds a property [current] that nothing in
    the engine reads and that the heaps do not hold. *)
Definition applyRef (ref value : jsval) : M unit :=
  if negb (truthy ref) then ret tt
  else if is_function ref then call ref [value] ;;; ret tt
  else match ref with
       | VObj o => modify (fun s => set_objs (upd o (fun _ => value) (objs s)) s)
       | VBool _ | VNum _ | VNaN | VNegZero | VStr _ =>
           throw (TypeError "Cannot create property 'current'")
       | _ => ret tt
       end.

(** [unmount(vnode, ancestorVNode, skipRemove)] *)
Fixpoint unmount (fuel : nat) (vnode ancestorVNode : option nat)
    (skipRemove : bool) : M unit :=
  match vnode with
  | None => ret tt
  | Some v =>
      match fuel with
      | 0 => out_of_fuel
      | S fuel' =>
          call_option "unmount" [VNode v] ;;;
          x <~ gets (fun s => vn s v);
          match v_component x with
          | Some c => runCleanups c
          | None => ret tt
          end ;;;
          when (truthy (v_ref x)) (applyRef (v_ref x) VNull) ;;;
          dom <~ gets (fun s => v_dom (vn s v));
          match dom with
          | Some d => when (negb skipRemove) (modify (dom_remove d))
          | None => ret tt
          end ;;;
          isPortal <~ gets (fun s => vtype_eqb (v_type (vn s v)) TPortal);
          let skipChildRemove :=
            if isPortal then false
            else skipRemove || bool_decide (dom ≠ None) in
          children <~ gets (fun s => v_children (vn s v));
          match children with
          | Some l =>
              for_each l (fun child =>
                unmount fuel' (Some child) ancestorVNode skipChildRemove)
          | None => ret tt
          end ;;;
          modify (upd_vnode v (set_v_dom None)) ;;;
          modify (upd_vnode v (set_v_component None)) ;;;
          modify (upd_vnode v (set_v_children None))
      end
  end.

(** [diffTextNode(parentDom, newVNode, oldVNode, oldDom)] *)
Definition diffTextNode (fuel : nat) (parentDom newVNode : nat)
    (oldVNode oldDom : option nat) : M unit :=
  newText <~ gets (fun s => v_props (vn s newVNode));
  old <~ gets (fun s => vn_opt s oldVNode);
  match oldVNode, v_type old, v_dom old with
  | Some _, TText, Some d =>
      when (negb (strict_eq (v_props old) newText))
        (modify (upd_node d (set_d_nodeValue newText))) ;;;
      modify (upd_vnode newVNode (set_v_dom (Some d)))
  | _, _, _ =>
      d <~ createTextNode newText;
      modify (upd_vnode newVNode (set_v_dom (Some d))) ;;;
      insertBefore parentDom d oldDom ;;;
      match oldVNode, v_dom old with
      | Some _, Some _ => unmount fuel oldVNode oldVNode true
      | _, _ => ret tt
      end
  end.

(** [rendered == null ? [] : Array.isArray(rendered) ? rendered : [rendered]] *)
Definition to_child_array (rendered : jsval) : jsval :=
  match rendered with
  | VUndef | VNull => VArr []
  | VArr l => VArr l
  | _ => VArr [rendered]
  end.

(** [newType(props)] for the function [f], with instance [c] current. *)
Definition call_component (c : nat) (f : fn_id) (props : jsval) : M jsval :=
  modify (add_log (EvRender c f)) ;;;
  match f with
  | Fragment | Provider _ => ret (get_prop props "children")
  | UserFn n => components n props
  end.

(** [{ props: null, __hooks: { _list: [], _pendingEffects: [] }, _vnode }] *)
Definition new_component (newVNode : nat) : M nat :=
  fun s => Ok (length (comps s))
              (set_comps (comps s ++ [mkComponent VNull [] [] None (Some newVNode) None]) s).

(** [component.__hooks._pendingEffects.length > 0 ||
     component.__hooks._pendingLayoutEffects] *)
Definition has_pending (c : component) : bool :=
  negb (Nat.eqb (length (c_pendingEffects c)) 0)
  || bool_decide (c_pendingLayoutEffects c ≠ None).

Definition push_commit (c : nat) (q : queues) : queues :=
  mkQueues (commitQueue q ++ [c]) (refQueue q).
Definition push_ref (r : ref_action) (q : queues) : queues :=
  mkQueues (commitQueue q) (refQueue q ++ [r]).

(** [if (newVNode.ref) refQueue.push({ ref, value, oldRef })] *)
Definition queue_ref (newVNode : nat) (oldVNode : option nat) (value : jsval)
    (q : queues) : M queues :=
  ref <~ gets (fun s => v_ref (vn s newVNode));
  if truthy ref then
    oldRef <~ gets (fun s => match oldVNode with
                             | Some o => v_ref (vn s o)
                             | None => VNull
                             end);
    ret (push_ref (mkRef ref value oldRef) q)
  else ret q.

(** [diffComponent(parentDom, newVNode, oldVNode, namespace, commitQueue,
    oldDom, refQueue)] *)
Definition diffComponent (fuel : nat) (diff : diff_fn) (unmount : unmount_fn)
    (newType : fn_id) (parentDom newVNode : nat) (oldVNode : option nat)
    (namespace : option string) (q : queues) (oldDom : option nat)
  : M queues :=
  old <~ gets (fun s => vn_opt s oldVNode);
  component <~
    match v_component old with
    | Some c =>
        if vtype_eqb (v_type old) (TFun newType) then ret c
        else c' <~ new_component newVNode; runCleanups c ;;; ret c'
    | None => new_component newVNode
    end;
  props <~ gets (fun s => v_props (vn s newVNode));
  modify (upd_comp component (set_c_props props)) ;;;
  modify (upd_comp component (set_c_vnode (Some newVNode))) ;;;
  modify (upd_vnode newVNode (set_v_component (Some component))) ;;;
  setCurrentComponent (Some component) ;;;
  call_option "_render" [VNode newVNode] ;;;
  rendered <~ try_finally (call_component component newType props)
                          (set_current None 0);
  let childArray := to_child_array rendered in
  q1 <~ diffChildren fuel diff unmount parentDom childArray newVNode oldVNode
          namespace q oldDom;
  c <~ gets (fun s => cp s component);
  let q2 := if has_pending c then push_commit component q1 else q1 in
  q3 <~ queue_ref newVNode oldVNode (VComp component) q2;
  call_option "diffed" [VNode newVNode] ;;;
  ret q3.

(** [newProps.children == null ? [] : Array.isArray(..) ? .. : [..]] *)
Definition children_array (props : jsval) : jsval :=
  to_child_array (get_prop props "children").

(** The second half of [diffElementNode], from [newVNode._dom = dom] on:
    the DOM node has been chosen, its properties and children are diffed and
    the ref queued. *)
Definition diffElementNode_into (fuel : nat) (diff : diff_fn)
    (unmount : unmount_fn) (dom newVNode : nat) (oldVNode : option nat)
    (namespace : option string) (q : queues) : M queues :=
  modify (upd_vnode newVNode (set_v_dom (Some dom))) ;;;
  newProps <~ gets (fun s => or_empty (v_props (vn s newVNode)));
  oldProps <~ gets (fun s => or_empty (v_props (vn_opt s oldVNode)));
  modify (upd_node dom (diffProps newProps oldProps namespace)) ;;;
  first <~ gets (fun s => firstChild s dom);
  q1 <~ diffChildren fuel diff unmount dom (children_array newProps) newVNode
          oldVNode namespace q first;
  q2 <~ queue_ref newVNode oldVNode (VDom dom) q1;
  call_option "diffed" [VNode newVNode] ;;;
  ret q2.

(** [diffElementNode(parentDom, newVNode, oldVNode, namespace, commitQueue,
    oldDom, refQueue)]: the first half reuses the DOM node of an old vnode
    of the same type, or creates and inserts a new one. *)
Definition diffElementNode (fuel : nat) (diff : diff_fn) (unmount : unmount_fn)
    (newType : string) (parentDom newVNode : nat) (oldVNode : option nat)
    (namespace : option string) (q : queues) (oldDom : option nat)
  : M queues :=
  let namespace := if String.eqb newType "svg" then Some SVG_NAMESPACE
                   else namespace in
  old <~ gets (fun s => vn_opt s oldVNode);
  dom <~
    match (if vtype_eqb (v_type old) (TTag newType) then v_dom old else None) with
    | Some d => ret d
    | None =>
        d <~ match namespace with
             | Some ns => createElementNS ns newType
             | None => createElement newType
             end;
        insertBefore parentDom d oldDom ;;;
        match v_dom old with
        | Some _ => unmount oldVNode oldVNode false
        | None => ret tt
        end ;;;
        ret d
    end;
  diffElementNode_into fuel diff unmount dom newVNode oldVNode namespace q.

(** [newContainer && newContainer instanceof Element] *)
Definition element_of (s : state) (container : jsval) : option nat :=
  match container with
  | VDom d => if d_isElement (nd s d) then Some d else None
  | _ => None
  end.

(** [diffPortal(parentDom, newVNode, oldVNode, namespace, commitQueue,
    oldDom, refQueue)] *)
Definition diffPortal (fuel : nat) (diff : diff_fn) (unmount : unmount_fn)
    (parentDom newVNode : nat) (oldVNode : option nat)
    (namespace : option string) (q : queues) (oldDom : option nat)
  : M queues :=
  newProps <~ gets (fun s => or_empty (v_props (vn s newVNode)));
  oldProps <~ gets (fun s => or_empty (v_props (vn_opt s oldVNode)));
  let newContainer := get_prop newProps "_container" in
  let oldContainer := get_prop oldProps "_container" in
  valid <~ gets (fun s => element_of s newContainer);
  match valid with
  | None =>
      console_error "createPortal: container must be a DOM element" ;;; ret q
  | Some container =>
      old <~ gets (fun s => vn_opt s oldVNode);
      let containerChanged :=
        bool_decide (oldVNode ≠ None)
        && vtype_eqb (v_type old) TPortal
        && negb (strict_eq oldContainer newContainer) in
      (if containerChanged then
         match v_children old with
         | Some l => for_each l (fun c => unmount (Some c) (Some c) false)
         | None => ret tt
         end
       else ret tt) ;;;
      svg <~ gets (fun s => is_svg s container);
      let portalNamespace := if svg then Some SVG_NAMESPACE else None in
      first <~ gets (fun s => firstChild s container);
      q1 <~ diffChildren fuel diff unmount container (children_array newProps)
              newVNode (if containerChanged then None else oldVNode)
              portalNamespace q
              (if containerChanged then first
               else match oldVNode with Some _ => None | None => first end);
      modify (upd_vnode newVNode (set_v_dom None)) ;;;
      q2 <~ queue_ref newVNode oldVNode newContainer q1;
      call_option "diffed" [VNode newVNode] ;;;
      ret q2
  end.

(** [diff(parentDom, newVNode, oldVNode, namespace, commitQueue, oldDom,
    refQueue)] *)
Fixpoint diff (fuel : nat) (parentDom : nat) (newVNode oldVNode : option nat)
    (namespace : option string) (q : queues) (oldDom : option nat)
  : M queues :=
  match fuel with
  | 0 => out_of_fuel
  | S fuel' =>
      match newVNode with
      | None =>
          match oldVNode with
          | Some _ => unmount fuel oldVNode oldVNode false
          | None => ret tt
          end ;;;
          ret q
      | Some v =>
          call_option "_diff" [VNode v] ;;;
          newType <~ gets (fun s => v_type (vn s v));
          match newType with
          | TText => diffTextNode fuel parentDom v oldVNode oldDom ;;; ret q
          | TFun f =>
              diffComponent fuel (diff fuel') (unmount fuel) f parentDom v
                oldVNode namespace q oldDom
          | TPortal =>
              diffPortal fuel (diff fuel') (unmount fuel) parentDom v oldVNode
                namespace q oldDom
          | TTag tag =>
              diffElementNode fuel (diff fuel') (unmount fuel) tag parentDom v
                oldVNode namespace q oldDom
          | TUndefined =>
              console_warn "Unknown vnode type:" VUndef ;;; ret q
          end
      end
  end.

(** [commitRoot(commitQueue, rootVNode, refQueue)] *)
Definition commitRoot (q : queues) (rootVNode : nat) : M unit :=
  for_each (refQueue q) (fun r =>
    when (truthy (ra_oldRef r) && negb (strict_eq (ra_oldRef r) (ra_ref r)))
      (applyRef (ra_oldRef r) VNull) ;;;
    applyRef (ra_ref r) (ra_value r)) ;;;
  for_each (commitQueue q) runPendingLayoutEffects ;;;
  match commitQueue q with
  | [] => ret tt
  | _ => afterPaint (commitQueue q)
  end.

(** The callback that [commitRoot] hands to [afterPaint]. *)
Definition run_paint_callback (commitQueue : list nat) : M unit :=
  for_each commitQueue runPendingEffects.

(* ------------------------------------------------------------------ *)
(** ** scheduler.js: draining the queue *)
(* ------------------------------------------------------------------ *)

(** [getParentDom(vnode)] *)
Fixpoint getParentDom_from (fuel : nat) (parent : option nat) : M (option nat) :=
  match parent with
  | None => ret None
  | Some p =>
      match fuel with
      | 0 => out_of_fuel
      | S fuel' =>
          x <~ gets (fun s => vn s p);
          match v_dom x with
          | Some d => ret (Some d)
          | None => getParentDom_from fuel' (v_parent x)
          end
      end
  end.

Definition getParentDom (fuel : nat) (vnode : nat) : M (option nat) :=
  parent <~ gets (fun s => v_parent (vn s vnode));
  getParentDom_from fuel parent.

(** [renderComponent(component)] *)
Definition renderComponent (fuel : nat) (component : nat) : M unit :=
  alive <~ gets (fun s => c_vnode (cp s component));
  match alive with
  | None => ret tt
  | Some vnode =>
      pd <~ getParentDom fuel vnode;
      match pd with
      | None => ret tt
      | Some parentDom =>
          svg <~ gets (fun s => is_svg s parentDom);
          let namespace := if svg then Some SVG_NAMESPACE else None in
          setCurrentComponent (Some component) ;;;
          x <~ gets (fun s => vn s vnode);
          props <~ gets (fun s => c_props (cp s component));
          rendered <~
            match v_type x with
            | TFun f => try_finally (call_component component f props)
                                    (set_current None 0)
            | _ => try_finally (throw (TypeError "vnode.type is not a function"))
                               (set_current None 0)
            end;
          let childArray := to_child_array rendered in
          oldDom <~ getFirstDom fuel (Some vnode);
          q <~ diffChildren fuel (diff fuel) (unmount fuel) parentDom childArray
                 vnode (Some vnode) namespace (mkQueues [] []) oldDom;
          c <~ gets (fun s => cp s component);
          let q' := if has_pending c then push_commit component q else q in
          commitRoot q' vnode
      end
  end.

(** The stable sort of the queue by [_vnode._depth], shallowest first. *)
Definition queue_depth (s : state) (c : nat) : nat :=
  match c_vnode (cp s c) with
  | Some v => v_depth (vn s v)
  | None => 0
  end.

Fixpoint insert_by (key : nat -> nat) (x : nat) (l : list nat) : list nat :=
  match l with
  | [] => [x]
  | y :: r => if (key x <=? key y)%nat then x :: y :: r
              else y :: insert_by key x r
  end.

Definition sort_by (key : nat -> nat) (l : list nat) : list nat :=
  foldr (insert_by key) [] l.

(** The [while ((component = renderQueue.shift()))] loop. *)
Fixpoint drain (fuel : nat) : M unit :=
  match fuel with
  | 0 => out_of_fuel
  | S fuel' =>
      queue <~ gets renderQueue;
      match queue with
      | [] => ret tt
      | component :: rest =>
          modify (set_renderQueue rest) ;;;
          alive <~ gets (fun s => c_vnode (cp s component));
          match alive with
          | None => drain fuel'
          | Some _ => renderComponent fuel' component ;;; drain fuel'
          end
      end
  end.

(** [processRenderQueue()] *)
Definition processRenderQueue (fuel : nat) : M unit :=
  modify (set_scheduled false) ;;;
  modify (fun s => set_renderQueue (sort_by (queue_depth s) (renderQueue s)) s) ;;;
  drain fuel.

(* ------------------------------------------------------------------ *)
(** ** render.js *)
(* ------------------------------------------------------------------ *)

(** [render(vnode, container)] *)
Definition render (fuel : nat) (vnode : jsval) (container : nat) : M unit :=
  oldVNode <~ gets (fun s => d_children (nd s container));
  newVNode <~ createVNode (TFun Fragment) (VRec [("children", vnode)]) VNull VNull;
  modify (upd_vnode newVNode (set_v_dom (Some container))) ;;;
  modify (upd_node container (set_d_children (Some newVNode))) ;;;
  svg <~ gets (fun s => is_svg s container);
  let namespace := if svg then Some SVG_NAMESPACE else None in
  call_option "_root" [VNode newVNode; VDom container] ;;;
  first <~ gets (fun s => firstChild s container);
  q <~ diff fuel container (Some newVNode) oldVNode namespace (mkQueues [] []) first;
  commitRoot q newVNode ;;;
  call_option "_commit" [VNode newVNode; VArr (map VComp (commitQueue q))].

(** [hydrate(vnode, container)] *)
Definition hydrate (fuel : nat) (vnode : jsval) (container : nat) : M unit :=
  render fuel vnode container.

(* ------------------------------------------------------------------ *)
(** ** The host's turns *)
(* ------------------------------------------------------------------ *)

(** The host runs a queued microtask ([queueMicrotask(processRenderQueue)]). *)
Definition run_microtask (fuel : nat) : M unit :=
  n <~ gets microtasks;
  match n with
  | 0 => ret tt
  | S n' => modify (set_microtasks n') ;;; processRenderQueue fuel
  end.

(** The host paints and runs the oldest [afterPaint] callback. *)
Definition run_paint : M unit :=
  pq <~ gets paintQueue;
  match pq with
  | [] => ret tt
  | cq :: rest => modify (set_paintQueue rest) ;;; run_paint_callback cq
  end.

(* ------------------------------------------------------------------ *)
(** ** props.js: event delegation, and vnode.js: [createRef] *)
(* ------------------------------------------------------------------ *)

(** [eventProxy(e)], with [this] the node [dom] and [e.type] the event
    name: the handler is looked up in [this._listeners] when the event
    fires. *)
Definition eventProxy (dom : nat) (type : string) (e : jsval) : M unit :=
  listeners <~ gets (fun s => d_listeners (nd s dom));
  match listeners with
  | None =>
      throw (TypeError "Cannot read properties of undefined")
  | Some m =>
      let handler := default VUndef (m !! type) in
      if truthy handler then call handler [e] ;;; ret tt else ret tt
  end.

(** The host delivers an event of type [type] to the node [dom] itself: the
    one listener that the engine ever registers, [eventProxy], runs if it
    was added for that type. *)
Definition dispatchEvent (dom : nat) (type : string) (e : jsval) : M unit :=
  registered <~ gets (fun s => str_in type (d_events (nd s dom)));
  if registered then eventProxy dom type e else ret tt.

(** [createRef()] *)
Definition createRef : M jsval := new_ref_cell VNull.

End Engine.

(* ================================================================== *)
(** * Properties: definitions and scenarios *)
(* ================================================================== *)

(* ------------------------------------------------------------------ *)
(** ** Relations kept by every step of a computation *)
(* ------------------------------------------------------------------ *)

(** [keeps R m]: the state in which [m] ends, by returning or by throwing,
    is related by [R] to the state in which it started. *)
Definition keeps (R : state -> state -> Prop) {A} (m : M A) : Prop :=
  forall s, match m s with
            | Ok _ s' | Throw _ s' => R s s'
            | OutOfFuel => True
            end.

(* ------------------------------------------------------------------ *)
(** ** Scenarios shared by the examples *)
(* ------------------------------------------------------------------ *)

(** User callbacks that return [undefined]. *)
Definition no_result : nat -> list jsval -> jsval := fun _ _ => VUndef.

(** No user component. *)
Definition no_components (n : nat) (props : jsval) : M jsval := ret VNull.

(** A document with one empty [div], the container. *)
Definition one_container : state :=
  set_nodes [new_element HTML_NAMESPACE "div"] empty_state.

(** The state in which a run ended. *)
Definition state_of {A} (r : res A) : state :=
  match r with
  | Ok _ s => s
  | Throw _ s => s
  | OutOfFuel => empty_state
  end.

(* ------------------------------------------------------------------ *)
(** ** C1, C2: context *)
(* ------------------------------------------------------------------ *)

(** A Provider above a consumer.

    [const Theme = createContext('light')], and

    - [App = () => h(Theme.Provider, { value: props.value }, h(Consumer))],
    - [Consumer = () => { const v = useContext(Theme); seen(v); return h('span', null, v) }],
    - [Bare = () => h(Consumer)] (no Provider above the consumer).

    [seen] is the user function 7; its argument shows up in the log. *)
Definition Theme : context := mkContext 0 (VStr "light").

(** The components [App] (0), [Consumer] (1) and [Bare] (2). *)
Definition theme_components (n : nat) (props : jsval) : M jsval :=
  match n with
  | 0 =>
      c <~ h no_result (TFun (UserFn 1)) VNull [];
      p <~ h no_result (TFun (Provider 0))
             (VRec [("value", get_prop props "value")]) [VNode c];
      ret (VNode p)
  | 1 =>
      v <~ useContext 10 Theme;
      call_user no_result (VFun 7) [v] ;;;
      sp <~ h no_result (TTag "span") VNull [v];
      ret (VNode sp)
  | 2 =>
      c <~ h no_result (TFun (UserFn 1)) VNull [];
      ret (VNode c)
  | _ => ret VNull
  end.

(** [render(h(App, { value }), container)]. *)
Definition render_app (value : jsval) : M unit :=
  app <~ h no_result (TFun (UserFn 0)) (VRec [("value", value)]) [];
  render no_result theme_components 20 (VNode app) 0.

(** [render(h(Bare), container)]. *)
Definition render_bare : M unit :=
  app <~ h no_result (TFun (UserFn 2)) VNull [];
  render no_result theme_components 20 (VNode app) 0.

(** The values that [seen] received. *)
Definition seen_values (l : list event) : list (list jsval) :=
  flat_map (fun e => match e with EvCall 7 args => [args] | _ => [] end) l.

(** The vnodes of a state that are Providers, with the value passed to
    them, the value stored on them and their subscribers. *)
Definition providers_of (s : state)
  : list (nat * jsval * jsval * option (list nat)) :=
  flat_map (fun i => match v_type (vn s i) with
                     | TFun (Provider _) =>
                         if bool_decide (v_component (vn s i) <> None)
                         then [(i, get_prop (v_props (vn s i)) "value",
                                v_contextValue (vn s i),
                                v_contextSubscriptions (vn s i))]
                         else []
                     | _ => []
                     end)
           (seq 0 (length (vnodes s))).

(* ------------------------------------------------------------------ *)
(** ** C3: cleanups on unmount *)
(* ------------------------------------------------------------------ *)

(** A stored cleanup that is a user function (or absent): its call
    returns.  The other functions that a slot can hold as a cleanup are the
    engine's setters and dispatchers, and the call of a dispatcher throws
    when its reducer is not a function. *)
Definition user_cleanup (h : hookState) : Prop :=
  hs_cleanup h = VUndef \/ exists g, hs_cleanup h = VFun g.

(** The call that the cleanup stored in a slot gives rise to. *)
Definition cleanup_call (h : hookState) : list event :=
  match hs_cleanup h with VFun g => [EvCall g []] | _ => [] end.

(** The cleanup calls of a hook list, in the order of the slots. *)
Definition cleanup_calls (l : list hookState) : list event :=
  flat_map cleanup_call l.

(** Two states that differ at most in the component heap and the log. *)
Definition same_outside_comps (s s' : state) : Prop :=
  vnodes s' = vnodes s /\ objs s' = objs s /\ nodes s' = nodes s
  /\ renderQueue s' = renderQueue s /\ scheduled s' = scheduled s
  /\ microtasks s' = microtasks s /\ paintQueue s' = paintQueue s
  /\ currentComponent s' = currentComponent s
  /\ currentIndex s' = currentIndex s /\ options s' = options s.

(** The subscribers recorded on a vnode. *)
Definition subscribers (s : state) (p : nat) : list nat :=
  default [] (v_contextSubscriptions (vn s p)).

(** Removing the component [c] from the subscribers of a vnode. *)
Definition unsubscribe (c : nat) (v : vnode) : vnode :=
  set_v_subs (option_map (remove_nat c) (v_contextSubscriptions v)) v.

(** User functions 1 and 3 are effects; they return the cleanups 2 and 4. *)
Definition effects_with_cleanups (f : nat) (args : list jsval) : jsval :=
  match f with
  | 1 => VFun 2
  | 3 => VFun 4
  | _ => VUndef
  end.

(** A component with two effects, [useEffect(f1, []); useEffect(f3, [])]. *)
Definition two_effects_component (n : nat) (props : jsval) : M jsval :=
  match n with
  | 0 => useEffect (VFun 1) (Some []) ;;;
         useEffect (VFun 3) (Some []) ;;;
         ret VNull
  | _ => ret VNull
  end.

(** Mount the component and let its effects run after paint. *)
Definition mount_two_effects : M unit :=
  app <~ h effects_with_cleanups (TFun (UserFn 0)) VNull [];
  render effects_with_cleanups two_effects_component 10 (VNode app) 0 ;;;
  run_paint effects_with_cleanups.

(** The state after the mount and the flush: component 1 holds the cleanups
    2 and 4 in the slots 0 and 1. *)
Definition two_effects_mounted : state := state_of (mount_two_effects one_container).

(** A passive effect in slot 0 and a layout effect in slot 1:
    [useEffect(f1, []); useLayoutEffect(f3, [])]. *)
Definition mixed_effects_component (n : nat) (props : jsval) : M jsval :=
  match n with
  | 0 => useEffect (VFun 1) (Some []) ;;;
         useLayoutEffect (VFun 3) (Some []) ;;;
         ret VNull
  | _ => ret VNull
  end.

Definition mount_mixed_effects : M unit :=
  app <~ h effects_with_cleanups (TFun (UserFn 0)) VNull [];
  render effects_with_cleanups mixed_effects_component 10 (VNode app) 0 ;;;
  run_paint effects_with_cleanups.

Definition mixed_effects_mounted : state :=
  state_of (mount_mixed_effects one_container).

(** User function 1 is an effect that returns the dispatcher of slot 0 of
    component 1 as its cleanup; user function 3 is an effect that returns
    the cleanup 4. *)
Definition failing_cleanup (f : nat) (args : list jsval) : jsval :=
  match f with
  | 1 => VDispatch 1 0
  | 3 => VFun 4
  | _ => VUndef
  end.

(** [const [, dispatch] = useReducer(undefined, 0);
     useEffect(() => dispatch, []); useEffect(f3, [])]: calling the first
    cleanup calls a reducer that is not a function, a [TypeError]. *)
Definition failing_cleanup_component (n : nat) (props : jsval) : M jsval :=
  match n with
  | 0 => useReducer failing_cleanup VUndef (VNum 0) VUndef ;;;
         useEffect (VFun 1) (Some []) ;;;
         useEffect (VFun 3) (Some []) ;;;
         ret VNull
  | _ => ret VNull
  end.

Definition mount_failing_cleanup : M unit :=
  app <~ h failing_cleanup (TFun (UserFn 0)) VNull [];
  render failing_cleanup failing_cleanup_component 10 (VNode app) 0 ;;;
  run_paint failing_cleanup.

Definition failing_cleanup_mounted : state :=
  state_of (mount_failing_cleanup one_container).

(* ------------------------------------------------------------------ *)
(** ** C4: event listener props *)
(* ------------------------------------------------------------------ *)

(** The shape the specification gives to listener names. *)
Definition on_upper (name : string) : bool :=
  match name with
  | String a (String b (String c _)) =>
      Ascii.eqb a "o" && Ascii.eqb b "n" && is_upper c
  | _ => false
  end.

(** The prop takes the last branch of [setProperty]: it is written as an
    attribute or property. *)
Definition writes_attribute (name : string) (value oldValue : jsval)
    (namespace : option string) (n : domnode) : Prop :=
  setProperty name value oldValue namespace n =
  match namespace with
  | Some _ => setAttributeSVG name value n
  | None => setPropertyOrAttribute name value n
  end.

(** The name is written in ASCII. *)
Definition ascii_name (name : string) : bool :=
  forallb (fun c => (nat_of_ascii c <? 128)%nat) (list_ascii_of_string name).

(** [document.createElement('div')] *)
Definition plain_element : domnode := new_element HTML_NAMESPACE "div".

(* ------------------------------------------------------------------ *)
(** ** C5: render(null, container) *)
(* ------------------------------------------------------------------ *)

(** What tearing a tree down leaves alone: the fields of vnodes that are
    fixed at creation, the pending effects of every component, the root
    cached on every container, the option hooks and the paint queue. *)
Definition settled (s s' : state) : Prop :=
  length (vnodes s') = length (vnodes s)
  /\ (forall v, v_type (vn s' v) = v_type (vn s v)
                /\ v_ref (vn s' v) = v_ref (vn s v))
  /\ (forall c, c_pendingEffects (cp s' c) = c_pendingEffects (cp s c)
                /\ c_pendingLayoutEffects (cp s' c) = c_pendingLayoutEffects (cp s c))
  /\ (forall d, d_children (nd s' d) = d_children (nd s d))
  /\ options s' = options s
  /\ paintQueue s' = paintQueue s.

(** The props of the root that [render(null, container)] builds. *)
Definition null_root_props : jsval := VRec [("children", VNull)].

(** The state in which [render(null, container)] starts unmounting the old
    children: the new root has been created, cached on the container and
    given the old root's component instance [c]; its body, [Fragment], has
    run, and its normalized children are the empty list. *)
Definition render_null_prepared (container c : nat) (s : state) : state :=
  let r := length (vnodes s) in
  upd_vnode r (set_v_children (Some []))
    (set_current None 0
       (add_log (EvRender c Fragment)
          (set_current (Some c) 0
             (upd_vnode r (set_v_component (Some c))
                (upd_comp c (set_c_vnode (Some r))
                   (upd_comp c (set_c_props null_root_props)
                      (upd_node container (set_d_children (Some r))
                         (upd_vnode r (set_v_dom (Some container))
                            (set_vnodes
                               (vnodes s ++
                                  [mkVNode (TFun Fragment) null_root_props VNull
                                     VNull None None None None 0 0 None VUndef
                                     None]) s))))))))).

(** [render(h('div'), container)] on an empty container. *)
Definition mount_div : M unit :=
  d <~ h no_result (TTag "div") VNull [];
  render no_result no_components 10 (VNode d) 0.

(** The state after that render: vnode 0 is the caller's [h('div')], vnode
    1 the root cached on the container, vnode 2 the mounted clone. *)
Definition div_mounted : state := state_of (mount_div one_container).

(* ------------------------------------------------------------------ *)
(** ** C6: contract violations *)
(* ------------------------------------------------------------------ *)

(** What the specification says of a contract violation: the operation
    returns normally and leaves one diagnostic in the log. *)
Definition reported_by_log {A} (r : res A) (s : state) : Prop :=
  exists a s' msg, r = Ok a s' /\ log s' = (log s ++ [EvError msg])%list.

(** [createContext('light')] *)
Definition some_context : context := mkContext 0 (VStr "light").

(** The run ends with a [TypeError] and an unchanged log. *)
Definition throws_TypeError {A} (r : res A) (s : state) : Prop :=
  exists msg s', r = Throw (TypeError msg) s' /\ log s' = log s.

(** A state outside any render, with a portal vnode whose container is the
    string ['#modal']. *)
Definition text_container_state : state :=
  set_vnodes [mkVNode TPortal (VRec [("children", VStr "x"); ("_container", VStr "#modal")])
                VNull VNull None None None None 0 0 None VUndef None]
    (set_nodes [new_element HTML_NAMESPACE "div"] empty_state).

(* ------------------------------------------------------------------ *)
(** ** C7: effect dependencies *)
(* ------------------------------------------------------------------ *)

(** A component with one effect, [useEffect(effect, [])]. *)
Definition mount_effect_component (n : nat) (props : jsval) : M jsval :=
  match n with
  | 0 => useEffect (VFun 1) (Some []) ;;; ret VNull
  | _ => ret VNull
  end.

(** [render(h(App), c); render(h(App), c)] in one turn, then the two
    frames that the two commits asked for. *)
Definition render_twice_then_paint : M unit :=
  app <~ h no_result (TFun (UserFn 0)) VNull [];
  render no_result mount_effect_component 10 (VNode app) 0 ;;;
  render no_result mount_effect_component 10 (VNode app) 0 ;;;
  run_paint no_result ;;;
  run_paint no_result.

(** The number of times the user function [f] was called without
    arguments. *)
Definition is_call (f : nat) (e : event) : bool :=
  match e with
  | EvCall g [] => Nat.eqb g f
  | _ => false
  end.

Definition calls_of (f : nat) (l : list event) : nat :=
  length (List.filter (is_call f) l).

(* ------------------------------------------------------------------ *)
(** ** C8: unkeyed children *)
(* ------------------------------------------------------------------ *)

(** An old child that an unkeyed new child of type [t] may reuse: not yet
    matched, unkeyed, of the same type. *)
Definition reusable (matched : list bool) (t : vtype) (j : nat)
    (candidate : vnode) : Prop :=
  default false (matched !! j) = false
  /\ is_nullish (v_key candidate) = true
  /\ vtype_eqb (v_type candidate) t = true.

(** The same as a test. *)
Definition reusableb (matched : list bool) (t : vtype) (j : nat)
    (candidate : vnode) : bool :=
  negb (default false (matched !! j))
  && is_nullish (v_key candidate)
  && vtype_eqb (v_type candidate) t.

(** The [matched] flags when the matching loop reaches the new child at
    position [k]. *)
Definition flags_at (oldChildren : list vnode) (byKey : list (jsval * nat))
    (newChildren : list vnode) (k : nat) : list bool :=
  (match_children oldChildren byKey (take k newChildren) 0
     (replicate (length oldChildren) false)).2.

(** What [diffChildren] has when it starts to match: the new children,
    normalized from the render result and stored on the new parent, and the
    state reached. *)
Definition children_normalized (renderResult : jsval) (newParentVNode : nat)
    (s : state) : list nat * state :=
  match normalizeChildren renderResult [] s with
  | Ok newChildren s1 =>
      (newChildren,
       upd_vnode newParentVNode (set_v_children (Some newChildren)) s1)
  | _ => ([], s)
  end.

(** The new children of a call of [diffChildren], each with the old child
    that the matching loop found for it ([None] when it found none). *)
Definition reconciled_pairs (renderResult : jsval) (newParentVNode : nat)
    (oldParentVNode : option nat) (s : state) : list (nat * option nat) :=
  let oldChildren := default [] (v_children (vn_opt s oldParentVNode)) in
  let '(newChildren, s2) :=
    children_normalized renderResult newParentVNode s in
  let olds := map (vn s2) oldChildren in
  let news := map (vn s2) newChildren in
  let matchedIndex :=
    (match_children olds (index_keys olds 0 []) news 0
       (replicate (length oldChildren) false)).1 in
  zip newChildren (map (fun m => m ≫= fun j => oldChildren !! j) matchedIndex).

(** An [li] vnode with a key, as [createVNode] builds it. *)
Definition li_vnode (key : jsval) : vnode :=
  mkVNode (TTag "li") (VRec []) key VNull None None None None 0 0 None VUndef None.

(** [render(h('ul', null, h('li', {key: 'a'})), c)] and then
    [render(h('ul', null, h('li')), c)]. *)
Definition keyed_then_unkeyed : M unit :=
  li1 <~ h no_result (TTag "li") (VRec [("key", VStr "a")]) [];
  ul1 <~ h no_result (TTag "ul") VNull [VNode li1];
  render no_result no_components 10 (VNode ul1) 0 ;;;
  li2 <~ h no_result (TTag "li") VNull [];
  ul2 <~ h no_result (TTag "ul") VNull [VNode li2];
  render no_result no_components 10 (VNode ul2) 0.

(** [render(h('ul', null, h('li')), c)] twice. *)
Definition unkeyed_twice : M unit :=
  li1 <~ h no_result (TTag "li") VNull [];
  ul1 <~ h no_result (TTag "ul") VNull [VNode li1];
  render no_result no_components 10 (VNode ul1) 0 ;;;
  li2 <~ h no_result (TTag "li") VNull [];
  ul2 <~ h no_result (TTag "ul") VNull [VNode li2];
  render no_result no_components 10 (VNode ul2) 0.

(* ------------------------------------------------------------------ *)
(** ** C9: state updates of one turn *)
(* ------------------------------------------------------------------ *)

(** An update handed to a state setter: a value, or a user updater
    function. *)
Definition plain_update (u : jsval) : Prop :=
  match u with VSetter _ _ | VDispatch _ _ => False | _ => True end.

(** A counter: [const [n] = useState(0); return h('div', null, n)]. *)
Definition counter_component (n : nat) (props : jsval) : M jsval :=
  match n with
  | 0 => p <~ useState no_result (VNum 0);
         d <~ h no_result (TTag "div") VNull [fst p];
         ret (VNode d)
  | _ => ret VNull
  end.

(** [render(h(Counter), container)] *)
Definition mount_counter : M unit :=
  app <~ h no_result (TFun (UserFn 0)) VNull [];
  render no_result counter_component 10 (VNode app) 0.

(** The state after the mount: component 1 is the counter, its slot 0
    holds the value 0. *)
Definition counter_mounted : state := state_of (mount_counter one_container).

(** The number of times the component instance [c] was rendered. *)
Definition renders_of (c : nat) (l : list event) : nat :=
  length (List.filter (fun e => match e with
                                | EvRender c' _ => Nat.eqb c' c
                                | _ => false
                                end) l).

(** A parent and a child that each hold a state:
    [Parent = () => { const [p, setP] = useState(0); return h('div', null, h(Child)) }],
    [Child = () => { const [c, setC] = useState(0); return h('span', null, c) }]. *)
Definition nested_components (n : nat) (props : jsval) : M jsval :=
  match n with
  | 0 => p <~ useState no_result (VNum 0);
         child <~ h no_result (TFun (UserFn 1)) VNull [];
         d <~ h no_result (TTag "div") VNull [VNode child];
         ret (VNode d)
  | 1 => p <~ useState no_result (VNum 0);
         d <~ h no_result (TTag "span") VNull [fst p];
         ret (VNode d)
  | _ => ret VNull
  end.

(** [render(h(Parent), container)] *)
Definition mount_nested : M unit :=
  app <~ h no_result (TFun (UserFn 0)) VNull [];
  render no_result nested_components 10 (VNode app) 0.

(** The state after the mount: component 1 is the parent, component 2 the
    child; each holds [0] in its slot 0. *)
Definition nested_mounted : state := state_of (mount_nested one_container).

(** In one turn: [setC(1); setC(2); setP(1)]. *)
Definition same_turn_updates : M unit :=
  invoke_setState no_result 2 0 (VNum 1) ;;;
  invoke_setState no_result 2 0 (VNum 2) ;;;
  invoke_setState no_result 1 0 (VNum 1).

(* ------------------------------------------------------------------ *)
(** ** C10: the vnodes of the caller *)
(* ------------------------------------------------------------------ *)

(** The frame of the reconciliation.

    [U] is a set of vnodes that the caller built.  The engine holds a vnode
    through the [_children] and [_parent] fields of vnodes, the [_vnode] and
    [_contextSubscriptions] fields of component instances and the
    [_children] field of containers. *)
Definition vnode_avoids (U : nat -> Prop) (x : vnode) : Prop :=
  (forall l y, v_children x = Some l -> y ∈ l -> ~ U y)
  /\ (forall p, v_parent x = Some p -> ~ U p).

(** The references held by a component instance. *)
Definition component_avoids (U : nat -> Prop) (c : component) : Prop :=
  (forall v, c_vnode c = Some v -> ~ U v)
  /\ (forall l p, c_contextSubscriptions c = Some l -> p ∈ l -> ~ U p).

(** The root cached on a container. *)
Definition node_avoids (U : nat -> Prop) (n : domnode) : Prop :=
  forall r, d_children n = Some r -> ~ U r.

(** No reference that the engine holds points to a vnode of [U]. *)
Definition unreferenced (U : nat -> Prop) (s : state) : Prop :=
  (forall u, U u -> u < length (vnodes s))
  /\ (forall w, vnode_avoids U (vn s w))
  /\ (forall c, component_avoids U (cp s c))
  /\ (forall d, node_avoids U (nd s d)).

(** Every vnode of [U] has all its fields as before. *)
Definition untouched (U : nat -> Prop) (s s' : state) : Prop :=
  forall u, U u -> vn s' u = vn s u.

(** A computation that, started without engine references into [U], ends
    without such references and with the vnodes of [U] untouched, whether it
    returns or throws; [Q] holds of the value returned. *)
Definition safe (U : nat -> Prop) {A} (m : M A) (Q : A -> Prop) : Prop :=
  forall s, unreferenced U s ->
    match m s with
    | Ok a s' => unreferenced U s' /\ untouched U s s' /\ Q a
    | Throw _ s' => unreferenced U s' /\ untouched U s s'
    | OutOfFuel => True
    end.

(** A step that allocates or rewires no vnode. *)
Definition quiet (s s' : state) : Prop :=
  vnodes s' = vnodes s
  /\ (forall c, c_vnode (cp s' c) = c_vnode (cp s c)
                /\ c_contextSubscriptions (cp s' c) = c_contextSubscriptions (cp s c))
  /\ (forall d, d_children (nd s' d) = d_children (nd s d)).

(** No condition on the value returned. *)
Definition any {A} : A -> Prop := fun _ => True.

(** A list of vnodes none of which is in [U]. *)
Definition all_avoid (U : nat -> Prop) (l : list nat) : Prop :=
  forall y, y ∈ l -> ~ U y.

(** A [diff] and an [unmount] that are safe on vnodes outside [U]. *)
Definition safe_diff (U : nat -> Prop) (diff : diff_fn) : Prop :=
  forall parentDom newVNode oldVNode namespace q oldDom,
    (forall v, newVNode = Some v -> ~ U v) ->
    (forall o, oldVNode = Some o -> ~ U o) ->
    safe U (diff parentDom newVNode oldVNode namespace q oldDom) any.

Definition safe_unmount_fn (U : nat -> Prop) (unmount : unmount_fn) : Prop :=
  forall v anc skip,
    (forall x, v = Some x -> ~ U x) -> safe U (unmount v anc skip) any.

(** The fields of a vnode that [createVNode] leaves empty. *)
Definition unattached (x : vnode) : Prop :=
  v_children x = None /\ v_dom x = None /\ v_component x = None
  /\ v_parent x = None /\ v_depth x = 0.

(** The clone that normalization makes of the vnode [x]. *)
Definition clone_of (x : vnode) : vnode :=
  mkVNode (v_type x) (v_props x) (v_key x) (v_ref x) None None None None 0 0
    None VUndef None.

(** The vnodes that user code built while the counter was mounted: the
    [h(App)] handed to [render] and the [h('div', null, n)] that [App]
    returned. *)
Definition counter_caller_vnodes (u : nat) : Prop := u = 0 \/ u = 3.

(** [render([v, v], container)] with [v] the vnode rendered before. *)
Definition render_same_vnode_twice : M unit :=
  render no_result counter_component 10 (VArr [VNode 0; VNode 0]) 0.

(* ------------------------------------------------------------------ *)
(** ** Dependencies, flattening and the order of the queue *)
(* ------------------------------------------------------------------ *)


(** A dependency list whose elements are all [identified], so that
    [argsChanged] compares them as [Object.is] does; [None] is a missing
    list. *)
Definition deps_identified (deps : option (list jsval)) : Prop :=
  match deps with Some l => Forall identified l | None => True end.

(* ------------------------------------------------------------------ *)
(** ** Matching new children with old children *)
(* ------------------------------------------------------------------ *)

(** [-0] read as [+0]: two [Map] keys are the same key exactly when they are
    equal after this. *)
Definition zero_norm (v : jsval) : jsval :=
  match v with VNegZero => VNum 0 | _ => v end.

(** The old child that the key index holds for the key [k]: the last keyed
    old child whose key is [k]. *)
Definition keyed_at (olds : list vnode) (k : jsval) (j : nat) : Prop :=
  exists cand, olds !! j = Some cand
    /\ is_nullish (v_key cand) = false
    /\ same_value_zero (v_key cand) k = true
    /\ forall j' cand', j < j' -> olds !! j' = Some cand' ->
         is_nullish (v_key cand') = false ->
         same_value_zero (v_key cand') k = false.

(* ------------------------------------------------------------------ *)
(** ** Props: listeners, values and styles *)
(* ------------------------------------------------------------------ *)

(** The handler that [eventProxy] finds on a node for an event name. *)
Definition handler_of (n : domnode) (ev : string) : jsval :=
  default VUndef (default ∅ (d_listeners n) !! ev).

(** The event name that a listener prop stands for. *)
Definition event_name (name : string) : string := toLowerCase (slice2 name).

(** Old children [a], [b], [a]: the key [a] occurs twice. *)
Definition duplicate_keys : list vnode :=
  [li_vnode (VStr "a"); li_vnode (VStr "b"); li_vnode (VStr "a")].

(** A document whose only node is a [div] that was given
    [onClick = f1]. *)
Definition clickable : state :=
  set_nodes [setProperty "onClick" (VFun 1) VUndef None plain_element]
    empty_state.

(* ------------------------------------------------------------------ *)
(** ** Hooks: state, memoization and effects *)
(* ------------------------------------------------------------------ *)

(** The component [c] is being rendered and its next hook call is the one
    with index [i]. *)
Definition rendering (s : state) (c i : nat) : Prop :=
  currentComponent s = Some c /\ currentIndex s = i.

(** The state after a hook call that only advanced the hook index. *)
Definition next_hook (c i : nat) (s : state) : state :=
  set_current (Some c) (S i) s.

(** The slot [i] of [c] exists already: the render is a re-render. *)
Definition has_slot (s : state) (c i : nat) : Prop :=
  i < length (c_list (cp s c)).

(** The slot [i] of [c] is the one that this hook call will create. *)
Definition fresh_slot (s : state) (c i : nat) : Prop :=
  c < length (comps s) /\ i = length (c_list (cp s c)).

(** The state in which the hook body runs on a first render: the index is
    advanced and an empty slot is appended. *)
Definition with_new_slot (c i : nat) (s : state) : state :=
  upd_comp c (fun comp => set_c_list (c_list comp ++ [empty_hook]) comp)
    (next_hook c i s).

(** The value that [useState(initialState)] starts from: the result of the
    initializer when a function is given. *)
Definition initial_value (callbacks : nat -> list jsval -> jsval)
    (initialState : jsval) : jsval :=
  match initialState with VFun f => callbacks f [] | _ => initialState end.

(** The call of a lazy initializer, as it shows in the log. *)
Definition initializer_call (initialState : jsval) : list event :=
  match initialState with VFun f => [EvCall f []] | _ => [] end.

(** The render queue after [enqueueRender(c)]. *)
Definition enqueued (c : nat) (q : list nat) : list nat :=
  if bool_decide (c ∈ q) then q else q ++ [c].

(** The slot [i] of [c] exists or is the next one to create. *)
Definition at_hook (s : state) (c i : nat) : Prop :=
  rendering s c i /\ c < length (comps s) /\ i <= length (c_list (cp s c)).

(** [s0] is [s] after the hook at index [i] of [c] was entered: the slot
    exists, with the contents it had (those of an empty slot when it is
    new), and nothing else is different but the hook index. *)
Definition entered (c i : nat) (s s0 : state) : Prop :=
  s0 = (if decide (i < length (c_list (cp s c))) then next_hook c i s
        else with_new_slot c i s)
  /\ slot s0 c i = slot s c i /\ has_slot s0 c i
  /\ (forall j, j <> i -> slot s0 c j = slot s c j)
  /\ c_pendingEffects (cp s0 c) = c_pendingEffects (cp s c)
  /\ c_pendingLayoutEffects (cp s0 c) = c_pendingLayoutEffects (cp s c)
  /\ rendering s0 c (S i)
  /\ log s0 = log s /\ renderQueue s0 = renderQueue s
  /\ vnodes s0 = vnodes s /\ nodes s0 = nodes s /\ objs s0 = objs s.

(** An effect slot whose callback and stored cleanup are user functions
    (or, for the cleanup, absent). *)
Definition effect_ready (h : hookState) : Prop :=
  user_cleanup h /\ exists f, hs_value h = VFun f.

(** What running the effect of a slot calls: the cleanup of its previous
    run, then the callback. *)
Definition effect_events (h : hookState) : list event :=
  cleanup_call h ++ match hs_value h with VFun f => [EvCall f []] | _ => [] end.

(** The slot after its effect ran: the cleanup returned is stored when it
    is a function, and the pending dependencies become the current ones. *)
Definition effect_done (callbacks : nat -> list jsval -> jsval)
    (h : hookState) : hookState :=
  match hs_value h with
  | VFun f =>
      set_hs_args (hs_pendingArgs h)
        (set_hs_cleanup (if is_function (callbacks f []) then callbacks f []
                         else VUndef) h)
  | _ => h
  end.

(** The state that [useReducer(reducer, initialArg, init)] starts from. *)
Definition initial_reducer_state (callbacks : nat -> list jsval -> jsval)
    (initialArg init : jsval) : jsval :=
  match init with VFun g => callbacks g [initialArg] | _ => initialArg end.

(** An [init] argument that is a user function or is left out. *)
Definition plain_init (init : jsval) : Prop :=
  match init with VFun _ => True | _ => truthy init = false end.

(** What a render-time call of [useEffect] or [useLayoutEffect] with
    changed dependencies leaves in the slot [i] of [c]: the callback and
    the pending dependencies, beside everything the slot held. *)
Definition effect_stored (c i : nat) (callback : jsval)
    (deps : option (list jsval)) (s s' : state) : Prop :=
  slot s' c i = set_hs_pendingArgs deps (set_hs_value callback (slot s c i))
  /\ (forall j, j <> i -> slot s' c j = slot s c j)
  /\ log s' = log s /\ renderQueue s' = renderQueue s.

(** A queue of effect slots that can be run: no slot is queued twice, and
    every slot exists and holds user functions. *)
Definition runnable (s : state) (c : nat) (l : list nat) : Prop :=
  NoDup l /\ forall i, i ∈ l -> has_slot s c i /\ effect_ready (slot s c i).

(** What running the queue [l] of effect slots of [c] commits: the calls,
    in the order of the queue, and the new content of the queued slots. *)
Definition effects_committed (callbacks : nat -> list jsval -> jsval) (c : nat)
    (l : list nat) (s s' : state) : Prop :=
  log s' = log s ++ flat_map (fun i => effect_events (slot s c i)) l
  /\ (forall j, j ∈ l -> slot s' c j = effect_done callbacks (slot s c j)).

(** What running the queue [l] of effect slots of [c] does to the log and
    to the slots, for callbacks that only compute their result. *)
Definition effects_ran (callbacks : nat -> list jsval -> jsval) (c : nat)
    (l : list nat) (s s' : state) : Prop :=
  log s' = log s ++ flat_map (fun i => effect_events (slot s c i)) l
  /\ (forall j, slot s' c j
                = if bool_decide (j ∈ l) then effect_done callbacks (slot s c j)
                  else slot s c j)
  /\ renderQueue s' = renderQueue s.

(** User callbacks that answer with their own number. *)
Definition answer : nat -> list jsval -> jsval := fun f _ => VNum (Z.of_nat f).

(** The mounted counter while it is rendered again, about to make its hook
    call number [i]. *)
Definition counter_rendering (i : nat) : state :=
  set_current (Some 1) i counter_mounted.

(** The counter after a second hook, [useMemo(f7, [1])], and rendering
    again up to that hook. *)
Definition memo_rendering : state :=
  set_current (Some 1) 1
    (state_of (useMemo answer (VFun 7) (Some [VNum 1]) (counter_rendering 1))).

(** The counter after a second hook, [useReducer(f3, 0)]. *)
Definition reducer_rendered : state :=
  state_of (useReducer answer (VFun 3) (VNum 0) VUndef (counter_rendering 1)).

(** The counter after a second hook, [useEffect(f4, [])]. *)
Definition effect_rendered : state :=
  state_of (useEffect (VFun 4) (Some []) (counter_rendering 1)).

(* ------------------------------------------------------------------ *)
(** ** Context: providers and subscriptions *)
(* ------------------------------------------------------------------ *)

(** [r] is the nearest provider of [ctx] on the parent chain that begins at
    [start], [start] included; [None] when the chain ends without one. *)
Inductive nearest_provider (s : state) (ctx : context)
  : option nat -> option nat -> Prop :=
| np_end : nearest_provider s ctx None None
| np_here v :
    is_provider_of ctx (v_type (vn s v)) = true ->
    nearest_provider s ctx (Some v) (Some v)
| np_up v r :
    is_provider_of ctx (v_type (vn s v)) = false ->
    nearest_provider s ctx (v_parent (vn s v)) r ->
    nearest_provider s ctx (Some v) r.

(** The component instance still has a vnode: it is mounted. *)
Definition alive (s : state) (c : nat) : bool :=
  bool_decide (is_Some (c_vnode (cp s c))).

(** The providers a component instance is subscribed to. *)
Definition subscriptions (s : state) (c : nat) : list nat :=
  default [] (c_contextSubscriptions (cp s c)).

(* ------------------------------------------------------------------ *)
(** ** Creating and normalizing vnodes *)
(* ------------------------------------------------------------------ *)

(** [x !== undefined ? x : null] *)
Definition or_null (x : jsval) : jsval :=
  match x with VUndef => VNull | _ => x end.

(** The [children] prop that [h] leaves for the flattened children [flat],
    [old] being the [children] prop that was passed in [props]. *)
Definition children_prop (flat : list jsval) (old : jsval) : jsval :=
  match flat with [] => old | [one] => one | _ => VArr flat end.

(** A [props] argument of [h]: an object, [null] or nothing. *)
Definition props_object (props : jsval) : Prop :=
  match props with VRec _ | VNull | VUndef => True | _ => False end.

(* ------------------------------------------------------------------ *)
(** ** The scheduler *)
(* ------------------------------------------------------------------ *)

(** [r] is the DOM node of the nearest vnode that has one on the parent
    chain that begins at [start], [start] included. *)
Inductive nearest_dom (s : state) : option nat -> option nat -> Prop :=
| nd_end : nearest_dom s None None
| nd_here p d : v_dom (vn s p) = Some d -> nearest_dom s (Some p) (Some d)
| nd_up p r :
    v_dom (vn s p) = None -> nearest_dom s (v_parent (vn s p)) r ->
    nearest_dom s (Some p) r.

(** The mounted counter after [setState(1)]: one render is queued. *)
Definition counter_updated : state :=
  state_of (invoke_setState no_result 1 0 (VNum 1) counter_mounted).

(* ------------------------------------------------------------------ *)
(** ** Commit and paint *)
(* ------------------------------------------------------------------ *)



(** The consumer of the themed application (component 3, vnode 6, below
    the Provider vnode 5) while it is rendered again. *)
Definition consumer_rendering : state :=
  set_current (Some 3) 0 (state_of (render_app (VStr "dark") one_container)).

(* ================================================================== *)
(** * Properties: proofs *)
(* ================================================================== *)

(* ------------------------------------------------------------------ *)
(** ** Heap cells and the engine monad *)
(* ------------------------------------------------------------------ *)

Section upd.
Context {A : Type}.
Implicit Types (l : list A) (f : A -> A).

Lemma upd_length i f l : length (upd i f l) = length l.
Proof. unfold upd. destruct (l !! i); [apply length_insert|done]. Qed.

Lemma upd_lookup_eq i f l : upd i f l !! i = f <$> (l !! i).
Proof.
  unfold upd. destruct (l !! i) eqn:E; simpl.
  - apply list_lookup_insert_eq. by eapply lookup_lt_Some.
  - done.
Qed.

Lemma upd_lookup_ne i j f l : i <> j -> upd i f l !! j = l !! j.
Proof.
  intros. unfold upd. destruct (l !! i); [by apply list_lookup_insert_ne|done].
Qed.

Lemma upd_app_l i f l l' : i < length l -> upd i f (l ++ l') = upd i f l ++ l'.
Proof.
  intros H. unfold upd. rewrite lookup_app_l by done.
  destruct (l !! i) eqn:E; [|done]. by rewrite insert_app_l.
Qed.

End upd.

Lemma vn_upd_eq s v f : v < length (vnodes s) -> vn (upd_vnode v f s) v = f (vn s v).
Proof.
  intros H. unfold vn, upd_vnode. simpl. rewrite upd_lookup_eq.
  destruct (lookup_lt_is_Some_2 _ _ H) as [x ->]. done.
Qed.

Lemma vn_upd_ne s v v' f : v <> v' -> vn (upd_vnode v f s) v' = vn s v'.
Proof. intros H. unfold vn, upd_vnode. simpl. by rewrite upd_lookup_ne. Qed.

Lemma cp_upd_eq s c f : c < length (comps s) -> cp (upd_comp c f s) c = f (cp s c).
Proof.
  intros H. unfold cp, upd_comp. simpl. rewrite upd_lookup_eq.
  destruct (lookup_lt_is_Some_2 _ _ H) as [x ->]. done.
Qed.

Lemma cp_upd_ne s c c' f : c <> c' -> cp (upd_comp c f s) c' = cp s c'.
Proof. intros H. unfold cp, upd_comp. simpl. by rewrite upd_lookup_ne. Qed.

Lemma nd_upd_eq s d f : d < length (nodes s) -> nd (upd_node d f s) d = f (nd s d).
Proof.
  intros H. unfold nd, upd_node. simpl. rewrite upd_lookup_eq.
  destruct (lookup_lt_is_Some_2 _ _ H) as [x ->]. done.
Qed.

Lemma nd_upd_ne s d d' f : d <> d' -> nd (upd_node d f s) d' = nd s d'.
Proof. intros H. unfold nd, upd_node. simpl. by rewrite upd_lookup_ne. Qed.

Lemma slot_upd_eq s c i f :
  c < length (comps s) -> i < length (c_list (cp s c)) ->
  slot (upd_slot c i f s) c i = f (slot s c i).
Proof.
  intros Hc Hi. unfold slot, upd_slot. rewrite cp_upd_eq by done. simpl.
  rewrite upd_lookup_eq. destruct (lookup_lt_is_Some_2 _ _ Hi) as [x ->]. done.
Qed.

Lemma comps_upd_slot_length s c i f : length (comps (upd_slot c i f s)) = length (comps s).
Proof. unfold upd_slot, upd_comp. simpl. apply upd_length. Qed.

Lemma c_list_upd_slot s c i f :
  c < length (comps s) ->
  c_list (cp (upd_slot c i f s) c) = upd i f (c_list (cp s c)).
Proof. intros. unfold upd_slot. by rewrite cp_upd_eq. Qed.

Lemma vn_upd_cases s p f v :
  vn (upd_vnode p f s) v = if decide (p = v /\ p < length (vnodes s))
                           then f (vn s v) else vn s v.
Proof.
  case_decide as H.
  - destruct H as [-> H]. by apply vn_upd_eq.
  - destruct (decide (p = v)) as [->|Hne]; [|by apply vn_upd_ne].
    unfold vn, upd_vnode. cbn [vnodes set_vnodes]. unfold upd.
    destruct (vnodes s !! v) eqn:E; [|by rewrite E].
    exfalso. apply H. split; [done|]. by eapply lookup_lt_Some.
Qed.

Lemma cp_upd_cases s p f c :
  cp (upd_comp p f s) c = if decide (p = c /\ p < length (comps s))
                          then f (cp s c) else cp s c.
Proof.
  case_decide as H.
  - destruct H as [-> H]. by apply cp_upd_eq.
  - destruct (decide (p = c)) as [->|Hne]; [|by apply cp_upd_ne].
    unfold cp, upd_comp. cbn [comps set_comps]. unfold upd.
    destruct (comps s !! c) eqn:E; [|by rewrite E].
    exfalso. apply H. split; [done|]. by eapply lookup_lt_Some.
Qed.

Lemma nd_upd_cases s p f d :
  nd (upd_node p f s) d = if decide (p = d /\ p < length (nodes s))
                          then f (nd s d) else nd s d.
Proof.
  case_decide as H.
  - destruct H as [-> H]. by apply nd_upd_eq.
  - destruct (decide (p = d)) as [->|Hne]; [|by apply nd_upd_ne].
    unfold nd, upd_node. cbn [nodes set_nodes]. unfold upd.
    destruct (nodes s !! d) eqn:E; [|by rewrite E].
    exfalso. apply H. split; [done|]. by eapply lookup_lt_Some.
Qed.

Lemma length_comps_upd_comp s c f : length (comps (upd_comp c f s)) = length (comps s).
Proof. apply upd_length. Qed.

Lemma length_vnodes_upd_vnode s v f : length (vnodes (upd_vnode v f s)) = length (vnodes s).
Proof. apply upd_length. Qed.

Lemma length_nodes_upd_node s d f : length (nodes (upd_node d f s)) = length (nodes s).
Proof. apply upd_length. Qed.

(** Looking through state updates that do not touch what is read. *)

Ltac under_setter S k :=
  lazymatch S with
  | set_vnodes _ ?s => k s
  | set_comps _ ?s => k s
  | set_objs _ ?s => k s
  | set_nodes _ ?s => k s
  | set_renderQueue _ ?s => k s
  | set_scheduled _ ?s => k s
  | set_microtasks _ ?s => k s
  | set_paintQueue _ ?s => k s
  | set_options _ ?s => k s
  | set_current _ _ ?s => k s
  | add_log _ ?s => k s
  | upd_vnode _ _ ?s => k s
  | upd_comp _ _ ?s => k s
  | upd_node _ _ ?s => k s
  | upd_slot _ _ _ ?s => k s
  | dom_remove _ ?s => k s
  end.

Ltac st_step :=
  match goal with
  | |- context [vn ?S ?i] =>
      under_setter S ltac:(fun s => progress change (vn S i) with (vn s i))
  | |- context [cp ?S ?i] =>
      under_setter S ltac:(fun s => progress change (cp S i) with (cp s i))
  | |- context [nd ?S ?i] =>
      under_setter S ltac:(fun s => progress change (nd S i) with (nd s i))
  | |- context [slot ?S ?c ?i] =>
      under_setter S ltac:(fun s => progress change (slot S c i) with (slot s c i))
  | |- context [vnodes ?S] =>
      under_setter S ltac:(fun s => progress change (vnodes S) with (vnodes s))
  | |- context [comps ?S] =>
      under_setter S ltac:(fun s => progress change (comps S) with (comps s))
  | |- context [objs ?S] =>
      under_setter S ltac:(fun s => progress change (objs S) with (objs s))
  | |- context [nodes ?S] =>
      under_setter S ltac:(fun s => progress change (nodes S) with (nodes s))
  | |- context [renderQueue ?S] =>
      under_setter S ltac:(fun s => progress change (renderQueue S) with (renderQueue s))
  | |- context [scheduled ?S] =>
      under_setter S ltac:(fun s => progress change (scheduled S) with (scheduled s))
  | |- context [microtasks ?S] =>
      under_setter S ltac:(fun s => progress change (microtasks S) with (microtasks s))
  | |- context [paintQueue ?S] =>
      under_setter S ltac:(fun s => progress change (paintQueue S) with (paintQueue s))
  | |- context [currentComponent ?S] =>
      under_setter S ltac:(fun s => progress change (currentComponent S) with (currentComponent s))
  | |- context [currentIndex ?S] =>
      under_setter S ltac:(fun s => progress change (currentIndex S) with (currentIndex s))
  | |- context [options ?S] =>
      under_setter S ltac:(fun s => progress change (options S) with (options s))
  | |- context [log ?S] =>
      under_setter S ltac:(fun s => progress change (log S) with (log s))
  | |- context [length (upd _ _ _)] => rewrite upd_length
  | |- context [length (comps (upd_slot ?c ?i ?f ?s))] =>
      rewrite (comps_upd_slot_length s c i f)
  | |- context [length (comps (upd_comp ?c ?f ?s))] =>
      rewrite (length_comps_upd_comp s c f)
  | |- context [length (vnodes (upd_vnode ?v ?f ?s))] =>
      rewrite (length_vnodes_upd_vnode s v f)
  | |- context [length (nodes (upd_node ?d ?f ?s))] =>
      rewrite (length_nodes_upd_node s d f)
  end.

Ltac st := repeat st_step.

(** Stepping through the monad. *)
Ltac mstep :=
  cbv beta iota delta [bind ret gets modify throw out_of_fuel when
                         try_finally console_warn console_error].

(** Reducing a computation applied to a state. *)

Lemma bind_gets {A B} (f : state -> A) (k : A -> M B) s :
  bind (gets f) k s = k (f s) s.
Proof. reflexivity. Qed.

Lemma bind_modify {B} f (k : unit -> M B) s : bind (modify f) k s = k tt (f s).
Proof. reflexivity. Qed.

Lemma bind_ret {A B} (a : A) (k : A -> M B) s : bind (ret a) k s = k a s.
Proof. reflexivity. Qed.

Lemma bind_bind {A B C} (m : M A) (k : A -> M B) (k' : B -> M C) s :
  bind (bind m k) k' s = bind m (fun a => bind (k a) k') s.
Proof. unfold bind. by destruct (m s). Qed.

Lemma bind_Ok {A B} (m : M A) (k : A -> M B) s a s' :
  m s = Ok a s' -> bind m k s = k a s'.
Proof. intros H. unfold bind. by rewrite H. Qed.

Lemma bind_cong {A B} (m m' : M A) (k : A -> M B) s s' :
  m s = m' s' -> bind m k s = bind m' k s'.
Proof. unfold bind. by intros ->. Qed.

Lemma bind_ext {A B} (m : M A) (k k' : A -> M B) s :
  (forall a s', k a s' = k' a s') -> bind m k s = bind m k' s.
Proof. intros H. unfold bind. destruct (m s); done. Qed.

Ltac mred :=
  repeat (first [ rewrite bind_gets | rewrite bind_modify | rewrite bind_ret
                | rewrite bind_bind ]; cbv beta).

(** Running the first computation of a [bind] whose outcome [tac] can
    establish. *)
Ltac bind_step tac :=
  match goal with
  | |- context [bind ?m ?k ?s] =>
      let H := fresh in
      eassert (H : m s = Ok _ _) by tac;
      rewrite (bind_Ok m k s _ _ H); clear H; mred
  end.

(* ------------------------------------------------------------------ *)
(** ** Values *)
(* ------------------------------------------------------------------ *)

(** [Object.is] decides equality of the values of the embedding. *)

Section jsval_induction.
Variable P : jsval -> Prop.
Hypothesis Hleaf :
  forall v, match v with VArr _ | VRec _ => False | _ => True end -> P v.
Hypothesis HArr : forall l, Forall P l -> P (VArr l).
Hypothesis HRec : forall l, Forall (fun p => P p.2) l -> P (VRec l).


Fixpoint jsval_nested_ind (v : jsval) : P v :=
  match v with
  | VArr l =>
      HArr l ((fix go (l : list jsval) : Forall P l :=
                 match l with
                 | [] => @List.Forall_nil _ P
                 | x :: r => @List.Forall_cons _ P x r (jsval_nested_ind x) (go r)
                 end) l)
  | VRec l =>
      HRec l ((fix go (l : list (string * jsval)) : Forall (fun p => P p.2) l :=
                 match l with
                 | [] => @List.Forall_nil _ _
                 | p :: r =>
                     @List.Forall_cons _ (fun p => P p.2) p r (jsval_nested_ind p.2) (go r)
                 end) l)
  | v' => Hleaf v' I
  end.

End jsval_induction.

Lemma jsval_eqb_eq a b : jsval_eqb a b = true <-> a = b.
Proof.
  revert b. induction a as [v Hv|l IH|l IH] using jsval_nested_ind; intros b.
  - destruct v, b; simpl; try done; try (split; [discriminate|discriminate]);
      rewrite ?andb_true_iff, ?Bool.eqb_true_iff, ?Z.eqb_eq, ?String.eqb_eq,
        ?Nat.eqb_eq; split; try (intros [-> ->]; done); try (intros ->; done);
      try (intros [= -> ->]; done); try (intros [= ->]; done);
      try (intros [= ]; done).
  - destruct b; simpl; try (split; [discriminate|discriminate]).
    revert l0. induction IH as [|x r Hx _ IHr]; intros [|y ys]; simpl;
      try (split; [discriminate|discriminate]); [done|].
    rewrite andb_true_iff, Hx. specialize (IHr ys). simpl in IHr. rewrite IHr.
    split; [intros [-> [= ->]]; done|intros [= -> ->]; done].
  - destruct b; simpl; try (split; [discriminate|discriminate]).
    revert l0. induction IH as [|[k x] r Hx _ IHr]; intros [|[k' y] ys]; simpl;
      try (split; [discriminate|discriminate]); [done|].
    simpl in Hx.
    rewrite !andb_true_iff, String.eqb_eq, Hx. specialize (IHr ys). simpl in IHr.
    rewrite IHr.
    split; [intros [[-> ->] [= ->]]; done|intros [= -> -> ->]; done].
Qed.

Lemma Object_is_eq a b : Object_is a b = true <-> a = b.
Proof. apply jsval_eqb_eq. Qed.

Lemma Object_is_refl a : Object_is a a = true.
Proof. by apply Object_is_eq. Qed.

Lemma Object_is_neq a b : Object_is a b = false <-> a <> b.
Proof.
  rewrite <- Object_is_eq. destruct (Object_is a b); split; congruence.
Qed.

(* ------------------------------------------------------------------ *)
(** ** Relations kept by every step of a computation *)
(* ------------------------------------------------------------------ *)

Section keeps.
Variable R : state -> state -> Prop.
Hypothesis R_refl : forall s, R s s.
Hypothesis R_trans : forall s1 s2 s3, R s1 s2 -> R s2 s3 -> R s1 s3.

Lemma keeps_ret {A} (a : A) : keeps R (ret a).
Proof. intros s. apply R_refl. Qed.

Lemma keeps_throw {A} e : keeps R (@throw A e).
Proof. intros s. apply R_refl. Qed.

Lemma keeps_out_of_fuel {A} : keeps R (@out_of_fuel A).
Proof. intros s. exact I. Qed.

Lemma keeps_gets {A} (f : state -> A) : keeps R (gets f).
Proof. intros s. apply R_refl. Qed.

Lemma keeps_modify f : (forall s, R s (f s)) -> keeps R (modify f).
Proof. intros H s. apply H. Qed.

Lemma keeps_bind {A B} (m : M A) (k : A -> M B) :
  keeps R m -> (forall a, keeps R (k a)) -> keeps R (bind m k).
Proof.
  intros Hm Hk s. unfold bind. specialize (Hm s).
  destruct (m s) as [a s'| |]; try done.
  specialize (Hk a s'). destruct (k a s'); try done; eauto.
Qed.

Lemma keeps_when b m : keeps R m -> keeps R (when b m).
Proof. destruct b; [done|]. intros _. apply keeps_ret. Qed.

Lemma keeps_for_each {A} (l : list A) body :
  (forall x, keeps R (body x)) -> keeps R (for_each l body).
Proof.
  intros H. induction l; simpl; [apply keeps_ret|].
  apply keeps_bind; [apply H|done].
Qed.

Lemma keeps_try_finally {A} (m : M A) f :
  keeps R m -> (forall s, R s (f s)) -> keeps R (try_finally m f).
Proof.
  intros Hm Hf s. unfold try_finally. specialize (Hm s).
  destruct (m s); try done; eauto.
Qed.

Lemma keeps_console_warn msg arg :
  (forall e s, R s (add_log e s)) -> keeps R (console_warn msg arg).
Proof. intros H. apply keeps_modify. intros s. apply H. Qed.

Lemma keeps_console_error msg :
  (forall e s, R s (add_log e s)) -> keeps R (console_error msg).
Proof. intros H. apply keeps_modify. intros s. apply H. Qed.

End keeps.

(** Structural steps of a [keeps] goal; the side conditions on the relation
    are looked up in the hint database [keeps]. *)
Create HintDb keeps.

Ltac keeps_step :=
  match goal with
  | |- keeps _ (bind _ _) => apply keeps_bind; [solve [eauto with keeps]| |intros ?]
  | |- keeps _ (ret _) => apply keeps_ret; solve [eauto with keeps]
  | |- keeps _ (throw _) => apply keeps_throw; solve [eauto with keeps]
  | |- keeps _ (gets _) => apply keeps_gets; solve [eauto with keeps]
  | |- keeps _ out_of_fuel => apply keeps_out_of_fuel
  | |- keeps _ (when _ _) => apply keeps_when; [solve [eauto with keeps]|]
  | |- keeps _ (for_each _ _) =>
      apply keeps_for_each; [solve [eauto with keeps]|solve [eauto with keeps]|intros ?]
  | |- keeps _ (try_finally _ _) =>
      apply keeps_try_finally; [solve [eauto with keeps]| |]
  | |- keeps _ (modify _) => apply keeps_modify
  | |- keeps _ (console_warn _ _) => apply keeps_modify
  | |- keeps _ (console_error _) => apply keeps_modify
  | |- keeps _ (match ?x with _ => _ end) => destruct x
  | |- keeps _ (if ?x then _ else _) => destruct x
  end.

(* ------------------------------------------------------------------ *)
(** ** C1, C2: context *)
(* ------------------------------------------------------------------ *)

(** C1: with a Provider diffed with [value = 'dark'] directly above it, the
    consumer is subscribed to that Provider, but [useContext] hands it
    [undefined]: the Provider vnode's [_contextValue] is never written.
    Without a Provider the consumer gets the default value. *)
Theorem useContext_under_provider_reads_undefined :
  (exists s,
      render_app (VStr "dark") one_container = Ok tt s
      /\ providers_of s = [(5, VStr "dark", VUndef, Some [3])]
      /\ c_vnode (cp s 3) = Some 6
      /\ v_parent (vn s 6) = Some 5
      /\ c_contextSubscriptions (cp s 3) = Some [5]
      /\ seen_values (log s) = [[VUndef]])
  /\ (exists s,
        render_bare one_container = Ok tt s
        /\ providers_of s = []
        /\ seen_values (log s) = [[VStr "light"]]).
Proof.
  split; eexists; (split; [vm_compute; reflexivity|]); repeat split; reflexivity.
Qed.

(** C2: re-rendering the tree with a Provider value that changed from ['a']
    to ['b'] leaves the render queue empty and requests no microtask,
    although the re-diffed Provider has a live subscriber. *)
Theorem provider_value_change_enqueues_nothing :
  exists s,
    (render_app (VStr "a") ;;; render_app (VStr "b")) one_container = Ok tt s
    /\ providers_of s = [(5, VStr "a", VUndef, Some [3]);
                         (14, VStr "b", VUndef, Some [3])]
    /\ Object_is (VStr "a") (VStr "b") = false
    /\ c_vnode (cp s 3) = Some 15
    /\ renderQueue s = [] /\ scheduled s = false /\ microtasks s = 0.
Proof.
  eexists. split; [vm_compute; reflexivity|]. repeat split; reflexivity.
Qed.

(* ------------------------------------------------------------------ *)
(** ** C3: cleanups on unmount *)
(* ------------------------------------------------------------------ *)

Section C3.
Variable callbacks : nat -> list jsval -> jsval.

Lemma same_outside_comps_refl s : same_outside_comps s s.
Proof. repeat split. Qed.

Lemma same_outside_comps_trans s1 s2 s3 :
  same_outside_comps s1 s2 -> same_outside_comps s2 s3 -> same_outside_comps s1 s3.
Proof.
  unfold same_outside_comps. intros H1 H2.
  destruct H1 as (?&?&?&?&?&?&?&?&?&?), H2 as (?&?&?&?&?&?&?&?&?&?).
  repeat split; congruence.
Qed.

Lemma run_cleanup_step c i s :
  c < length (comps s) -> i < length (c_list (cp s c)) ->
  user_cleanup (slot s c i) ->
  exists s',
    run_cleanup callbacks c i s = Ok tt s'
    /\ log s' = log s ++ cleanup_call (slot s c i)
    /\ same_outside_comps s s'
    /\ length (comps s') = length (comps s)
    /\ (forall c', c' <> c -> cp s' c' = cp s c')
    /\ cp s' c = set_c_list (<[i := set_hs_cleanup VUndef (slot s c i)]> (c_list (cp s c)))
                   (cp s c).
Proof.
  intros Hc Hi Hu. unfold run_cleanup, bind at 1, gets at 1.
  assert (Hsl : c_list (cp s c) !! i = Some (slot s c i)).
  { unfold slot. destruct (lookup_lt_is_Some_2 _ _ Hi) as [x ->]. done. }
  destruct Hu as [Hu|[g Hg]].
  - rewrite Hu. simpl. exists s. unfold ret, cleanup_call. rewrite Hu, app_nil_r.
    repeat split; try done.
    rewrite list_insert_id.
    + by destruct (cp s c).
    + rewrite Hsl. f_equal. destruct (slot s c i); simpl in *. by subst.
  - rewrite Hg. simpl. mstep. unfold call_user; mstep. eexists. split; [reflexivity|].
    st. unfold cleanup_call. rewrite Hg.
    repeat split; try done.
    + intros c' Hne. unfold upd_slot. st. by rewrite cp_upd_ne.
    + unfold upd_slot. st. rewrite cp_upd_eq by done.
      f_equal. unfold upd. st. by rewrite Hsl.
Qed.

Lemma set_c_list_twice l l' c : set_c_list l (set_c_list l' c) = set_c_list l c.
Proof. reflexivity. Qed.

Lemma cleanups_loop c m : forall k s,
  k + m = length (c_list (cp s c)) ->
  Forall user_cleanup (c_list (cp s c)) ->
  exists s',
    for_each (seq k m) (run_cleanup callbacks c) s = Ok tt s'
    /\ log s' = log s ++ cleanup_calls (drop k (c_list (cp s c)))
    /\ same_outside_comps s s'
    /\ length (comps s') = length (comps s)
    /\ (forall c', c' <> c -> cp s' c' = cp s c')
    /\ cp s' c = set_c_list (take k (c_list (cp s c))
                            ++ map (set_hs_cleanup VUndef) (drop k (c_list (cp s c))))
                   (cp s c).
Proof.
  induction m as [|m IH]; intros k s Hk Hall.
  - exists s. simpl. rewrite drop_ge by lia. rewrite take_ge by lia.
    simpl. rewrite !app_nil_r. repeat split; try done. by destruct (cp s c).
  - assert (Hi : k < length (c_list (cp s c))) by lia.
    assert (Hc : c < length (comps s)).
    { destruct (decide (c < length (comps s))) as [|Hge]; [done|].
      unfold cp in Hi. rewrite lookup_ge_None_2 in Hi by lia. simpl in Hi. lia. }
    assert (Hsl : c_list (cp s c) !! k = Some (slot s c k)).
    { unfold slot. destruct (lookup_lt_is_Some_2 _ _ Hi) as [x ->]. done. }
    assert (Hu : user_cleanup (slot s c k)).
    { eapply Forall_lookup_1; eauto. }
    destruct (run_cleanup_step c k s Hc Hi Hu)
      as (s1 & Hstep & Hlog1 & Hsame1 & Hlen1 & Hoth1 & Hcp1).
    destruct (IH (S k) s1) as (s' & Hrest & Hlog & Hsame & Hlen & Hoth & Hcp).
    + rewrite Hcp1. simpl. rewrite length_insert. lia.
    + rewrite Hcp1. simpl. apply Forall_insert; [done|]. by left.
    + exists s'. cbn [seq for_each]. unfold bind. rewrite Hstep.
      split; [done|]. rewrite Hlog, Hlog1, Hlen, Hlen1, Hcp, Hcp1. simpl.
      rewrite set_c_list_twice.
      rewrite (drop_S _ _ _ Hsl). rewrite drop_insert_lt by lia.
      rewrite take_insert_lt by lia. rewrite (take_S_r _ _ _ Hsl).
      rewrite insert_app_r_alt by (rewrite length_take; lia).
      rewrite length_take, Nat.min_l, Nat.sub_diag by lia. simpl.
      unfold cleanup_calls. simpl. rewrite <- !app_assoc. simpl.
      split; [done|]. split; [eapply same_outside_comps_trans; eauto|].
      split; [done|]. split; [|done].
      intros c' Hne. by rewrite Hoth, Hoth1.
Qed.

Lemma not_in_remove_nat c l : c ∉ remove_nat c l.
Proof. unfold remove_nat. rewrite list_elem_of_filter. tauto. Qed.

Lemma remove_nat_subseteq c x l : x ∈ remove_nat c l -> x ∈ l.
Proof. unfold remove_nat. rewrite list_elem_of_filter. tauto. Qed.

Lemma unsubscribe_step c p s v :
  (c ∉ subscribers s v -> c ∉ subscribers (upd_vnode p (unsubscribe c) s) v)
  /\ (v = p -> c ∉ subscribers (upd_vnode p (unsubscribe c) s) v).
Proof.
  unfold subscribers. rewrite vn_upd_cases. case_decide as H.
  - destruct H as [-> H]. unfold unsubscribe. simpl.
    destruct (v_contextSubscriptions (vn s v)); simpl.
    + split; intros; apply not_in_remove_nat.
    + split; intros; apply not_elem_of_nil.
  - split; [done|]. intros ->.
    unfold vn. destruct (vnodes s !! p) eqn:E.
    + exfalso. apply H. split; [done|]. by eapply lookup_lt_Some.
    + simpl. apply not_elem_of_nil.
Qed.

Lemma unsubscribe_loop c l : forall s,
  exists s',
    for_each l (fun p => modify (upd_vnode p (unsubscribe c))) s = Ok tt s'
    /\ comps s' = comps s /\ log s' = log s /\ options s' = options s
    /\ (forall v, v_component (vn s' v) = v_component (vn s v)
                  /\ v_ref (vn s' v) = v_ref (vn s v))
    /\ (forall v, c ∉ subscribers s v -> c ∉ subscribers s' v)
    /\ (forall p, p ∈ l -> c ∉ subscribers s' p).
Proof.
  induction l as [|p l IH]; intros s.
  - exists s. repeat split; try done. intros p Hp. inversion Hp.
  - destruct (IH (upd_vnode p (unsubscribe c) s))
      as (s' & Hrun & Hc & Hl & Ho & Hsame & Hmono & Hdone).
    exists s'. cbn [for_each]. unfold bind, modify at 1. rewrite Hrun.
    split; [done|]. split; [done|]. split; [done|]. split; [done|]. split.
    { intros v. destruct (Hsame v) as [-> ->]. rewrite vn_upd_cases.
      by case_decide. }
    split.
    + intros v Hv. apply Hmono.
      destruct (unsubscribe_step c p s v) as [H1 _]. by apply H1.
    + intros q Hq. apply elem_of_cons in Hq as [->|Hq]; [|by apply Hdone].
      apply Hmono. destruct (unsubscribe_step c p s p) as [_ H2]. by apply H2.
Qed.

Lemma cleanupContextSubscriptions_spec c s :
  exists s',
    cleanupContextSubscriptions c s = Ok tt s'
    /\ log s' = log s /\ options s' = options s
    /\ (forall v, v_component (vn s' v) = v_component (vn s v)
                  /\ v_ref (vn s' v) = v_ref (vn s v))
    /\ length (comps s') = length (comps s)
    /\ c_list (cp s' c) = c_list (cp s c)
    /\ (forall p, p ∈ default [] (c_contextSubscriptions (cp s c)) ->
                  c ∉ subscribers s' p)
    /\ c_contextSubscriptions (cp s' c)
       = (if decide (c < length (comps s))
          then option_map (fun _ => []) (c_contextSubscriptions (cp s c))
          else c_contextSubscriptions (cp s c)).
Proof.
  unfold cleanupContextSubscriptions, bind at 1, gets at 1.
  destruct (c_contextSubscriptions (cp s c)) as [l|] eqn:E.
  - destruct (unsubscribe_loop c l s) as (s1 & Hrun & Hc & Hl & Ho & Hsame & _ & Hdone).
    unfold bind. fold (unsubscribe c). rewrite Hrun. unfold modify.
    eexists. split; [reflexivity|]. st.
    assert (Hcp : cp s1 c = cp s c) by (unfold cp; by rewrite Hc).
    split; [done|]. split; [done|]. split; [done|]. split; [by rewrite Hc|].
    rewrite cp_upd_cases, Hcp, Hc.
    split; [case_decide; done|]. split.
    + intros p Hp. unfold subscribers. st. by apply Hdone.
    + repeat case_decide; try done; try tauto.
  - exists s. rewrite E. case_decide; repeat split; try done;
      intros p Hp; inversion Hp.
Qed.

Lemma upd_comp_id c f s :
  f (cp s c) = cp s c -> upd_comp c f s = s.
Proof.
  intros H. unfold upd_comp, upd. unfold cp in H.
  destruct (comps s !! c) as [x|] eqn:E; simpl in H.
  - rewrite H, list_insert_id by done. by destruct s.
  - by destruct s.
Qed.

Lemma cleared_loop c l s :
  Forall (fun h => hs_cleanup h = VUndef) (c_list (cp s c)) ->
  for_each l (run_cleanup callbacks c) s = Ok tt s.
Proof.
  intros Hall. induction l as [|i l IH]; [done|].
  cbn [for_each]. unfold bind at 1. unfold run_cleanup at 1, bind at 1, gets at 1.
  assert (hs_cleanup (slot s c i) = VUndef) as ->.
  { unfold slot. destruct (c_list (cp s c) !! i) eqn:E; [|done].
    simpl. by eapply (Forall_lookup_1 _ _ _ _ Hall). }
  simpl. apply IH.
Qed.

Lemma for_each_app {A} (l1 l2 : list A) (f : A -> M unit) s :
  for_each (l1 ++ l2) f s = bind (for_each l1 f) (fun _ => for_each l2 f) s.
Proof.
  revert s. induction l1 as [|x l1 IH]; intros s; [done|].
  cbn [app for_each]. rewrite bind_bind. apply bind_ext.
  intros [] s1. apply IH.
Qed.

Lemma cleanup_throw_ends_loop c n i s s1 e s' :
  i < n ->
  for_each (seq 0 i) (run_cleanup callbacks c) s = Ok tt s1 ->
  run_cleanup callbacks c i s1 = Throw e s' ->
  for_each (seq 0 n) (run_cleanup callbacks c) s = Throw e s'.
Proof.
  intros Hi Hpre Hthrow.
  replace n with (i + S (n - S i)) by lia.
  rewrite seq_app, for_each_app. unfold bind at 1. rewrite Hpre.
  cbn [seq for_each plus]. unfold bind at 1. by rewrite Hthrow.
Qed.

Lemma unmount_runs_cleanups fuel v anc skip s c :
  v_component (vn s v) = Some c ->
  truthy (assoc_get "unmount" (options s)) = false ->
  exists REST, forall s',
    options s' = options s -> v_component (vn s' v) = Some c ->
    v_ref (vn s' v) = v_ref (vn s v) ->
    unmount callbacks (S fuel) (Some v) anc skip s'
    = bind (runCleanups callbacks c) REST s'.
Proof.
  intros Hcomp Hopt. eexists. intros s' Ho Hc Hr. cbn [unmount].
  unfold bind at 1. unfold call_option at 1. unfold bind at 1, gets at 1.
  rewrite Ho, Hopt. unfold ret at 1.
  unfold bind at 1, gets at 1. rewrite Hc, Hr.
  unfold bind at 1. unfold bind at 2. reflexivity.
Qed.

(** C3 (as amended): unmounting a component vnode whose stored cleanups are
    user functions, none of which throws, calls every one of them once, in
    the order of the hook list (slot 0 first, the order of the hook calls),
    while the context subscriptions are still in place, and clears the
    cleanup of each slot; only then is the component removed from the
    subscriber sets of the providers it pointed at; the rest of [unmount]
    runs from the state reached.  Nothing catches what a cleanup throws:
    when the cleanups of the slots before [i] have returned and that of
    slot [i] throws, [runCleanups] and [unmount] end with that error in the
    state of the throw, the later cleanups uncalled and the subscriptions
    in place. *)
Theorem unmount_runs_cleanups_in_slot_order fuel v anc skip s c :
  v_component (vn s v) = Some c ->
  truthy (assoc_get "unmount" (options s)) = false ->
  (Forall user_cleanup (c_list (cp s c)) ->
   exists s1 s2,
     for_each (seq 0 (length (c_list (cp s c)))) (run_cleanup callbacks c) s
     = Ok tt s1
     /\ log s1 = log s ++ cleanup_calls (c_list (cp s c))
     /\ vnodes s1 = vnodes s
     /\ c_contextSubscriptions (cp s1 c) = c_contextSubscriptions (cp s c)
     /\ Forall (fun h => hs_cleanup h = VUndef) (c_list (cp s1 c))
     /\ cleanupContextSubscriptions c s1 = Ok tt s2
     /\ log s2 = log s1
     /\ (forall p, p ∈ default [] (c_contextSubscriptions (cp s c)) ->
                   c ∉ subscribers s2 p)
     /\ runCleanups callbacks c s = Ok tt s2
     /\ unmount callbacks (S fuel) (Some v) anc skip s
        = unmount callbacks (S fuel) (Some v) anc skip s2)
  /\ (forall i s1 e s',
        i < length (c_list (cp s c)) ->
        for_each (seq 0 i) (run_cleanup callbacks c) s = Ok tt s1 ->
        run_cleanup callbacks c i s1 = Throw e s' ->
        runCleanups callbacks c s = Throw e s'
        /\ unmount callbacks (S fuel) (Some v) anc skip s = Throw e s').
Proof.
  intros Hcomp Hopt.
  destruct (unmount_runs_cleanups fuel v anc skip s c Hcomp Hopt)
    as [REST Hgen].
  split.
  - intros Hall.
    destruct (cleanups_loop c (length (c_list (cp s c))) 0 s eq_refl Hall)
      as (s1 & Hloop & Hlog1 & Hsame1 & Hlen1 & Hoth1 & Hcp1).
    rewrite drop_0, take_0 in *. simpl in Hcp1.
    destruct (cleanupContextSubscriptions_spec c s1)
      as (s2 & Hsub & Hlog2 & Hopt2 & Hv2 & Hlen2 & Hlist2 & Hdone & Hsubs2).
    destruct Hsame1 as (Hvn1 & _ & _ & _ & _ & _ & _ & _ & _ & Hopt1).
    assert (Hcleared1 : Forall (fun h => hs_cleanup h = VUndef) (c_list (cp s1 c))).
    { rewrite Hcp1. simpl. apply Forall_forall. intros h Hh.
      apply list_elem_of_fmap in Hh as (h0 & -> & _). done. }
    assert (Hrun : runCleanups callbacks c s = Ok tt s2).
    { unfold runCleanups, bind at 1, gets at 1. unfold bind. by rewrite Hloop. }
    assert (Hidem : runCleanups callbacks c s2 = Ok tt s2).
    { unfold runCleanups, bind at 1, gets at 1. unfold bind.
      rewrite cleared_loop by (by rewrite Hlist2).
      unfold cleanupContextSubscriptions, bind at 1, gets at 1. rewrite Hsubs2.
      case_decide as Hlt.
      - destruct (c_contextSubscriptions (cp s1 c)) eqn:E; simpl; [|done].
        unfold bind, modify, ret. rewrite upd_comp_id; [done|].
        destruct (cp s2 c) eqn:E2. simpl in *. by subst.
      - unfold cp. rewrite lookup_ge_None_2 by lia. done. }
    exists s1, s2. split; [done|]. split; [done|]. split; [done|].
    split; [by rewrite Hcp1|]. split; [done|]. split; [done|]. split; [done|].
    split; [by rewrite Hcp1 in Hdone|]. split; [done|].
    destruct (Hv2 v) as [Hc2 Hr2].
    assert (Hvn : vn s1 v = vn s v) by (unfold vn; by rewrite Hvn1).
    rewrite Hvn in Hc2, Hr2.
    rewrite (Hgen s), (Hgen s2); try done; try congruence.
    unfold bind. by rewrite Hrun, Hidem.
  - intros i s1 e s' Hi Hpre Hthrow.
    assert (Hrun : runCleanups callbacks c s = Throw e s').
    { unfold runCleanups, bind at 1, gets at 1. unfold bind at 1.
      by rewrite (cleanup_throw_ends_loop c _ i s s1 e s' Hi Hpre Hthrow). }
    split; [done|]. rewrite (Hgen s) by done. unfold bind. by rewrite Hrun.
Qed.

End C3.

(** C3, counterexample.  The effects 1 and 3 were committed in that order;
    on unmount their cleanups 2 and 4 run in the same order, not in the
    reverse one.  The order is that of the slots and not that of the commit:
    with a passive effect in slot 0 and a layout effect in slot 1 the layout
    effect 3 is committed first, and the cleanups still run 2 then 4.  And
    not every stored cleanup is invoked: when the cleanup of slot 1 throws,
    the unmount ends with that error and the cleanup 4 stored in slot 2 is
    neither called nor cleared. *)
Lemma C3_counterexample :
  (exists s,
    (mount_two_effects ;;;
     render effects_with_cleanups two_effects_component 10 VNull 0) one_container
    = Ok tt s
    /\ log two_effects_mounted
       = [EvRender 0 Fragment; EvRender 1 (UserFn 0); EvCall 1 []; EvCall 3 []]
    /\ log s = log two_effects_mounted
               ++ [EvRender 0 Fragment; EvCall 2 []; EvCall 4 []]
    /\ log s <> log two_effects_mounted
               ++ [EvRender 0 Fragment; EvCall 4 []; EvCall 2 []])
  /\ (exists s,
        render effects_with_cleanups mixed_effects_component 10 VNull 0
          mixed_effects_mounted = Ok tt s
        /\ log mixed_effects_mounted
           = [EvRender 0 Fragment; EvRender 1 (UserFn 0); EvCall 3 []; EvCall 1 []]
        /\ log s = log mixed_effects_mounted
                   ++ [EvRender 0 Fragment; EvCall 2 []; EvCall 4 []])
  /\ (exists e s,
        map hs_cleanup (c_list (cp failing_cleanup_mounted 1))
        = [VUndef; VDispatch 1 0; VFun 4]
        /\ render failing_cleanup failing_cleanup_component 10 VNull 0
             failing_cleanup_mounted = Throw e s
        /\ e = TypeError "not a function"
        /\ log s = log failing_cleanup_mounted ++ [EvRender 0 Fragment]
        /\ map hs_cleanup (c_list (cp s 1)) = [VUndef; VDispatch 1 0; VFun 4]).
Proof.
  split; [|split].
  - eexists. split; [vm_compute; reflexivity|].
    split; [vm_compute; reflexivity|]. split; [vm_compute; reflexivity|].
    vm_compute. discriminate.
  - eexists. split; [vm_compute; reflexivity|].
    split; vm_compute; reflexivity.
  - eexists. eexists. split; [vm_compute; reflexivity|].
    split; [vm_compute; reflexivity|]. split; [reflexivity|].
    split; vm_compute; reflexivity.
Qed.

(** C3, witness: unmounting the vnode of the component with two effects
    calls the cleanups 2 and 4; unmounting the vnode of the component whose
    first cleanup throws ends with that error. *)
Lemma unmount_runs_cleanups_in_slot_order_witness :
  v_component (vn two_effects_mounted 2) = Some 1
  /\ (exists s2,
        runCleanups effects_with_cleanups 1 two_effects_mounted = Ok tt s2
        /\ log s2 = log two_effects_mounted ++ [EvCall 2 []; EvCall 4 []])
  /\ v_component (vn failing_cleanup_mounted 2) = Some 1
  /\ (exists e s',
        runCleanups failing_cleanup 1 failing_cleanup_mounted = Throw e s'
        /\ unmount failing_cleanup 3 (Some 2) (Some 2) false
             failing_cleanup_mounted = Throw e s').
Proof.
  split; [vm_compute; reflexivity|]. split.
  - destruct (unmount_runs_cleanups_in_slot_order effects_with_cleanups
                2 2 (Some 2) false two_effects_mounted 1) as [Hall _].
    + vm_compute; reflexivity.
    + vm_compute; reflexivity.
    + destruct Hall
        as (s1 & s2 & _ & Hlog1 & _ & _ & _ & _ & Hlog2 & _ & Hrun & _).
      * vm_compute.
        constructor; [right; eexists; reflexivity|].
        constructor; [right; eexists; reflexivity|]. constructor.
      * exists s2. split; [exact Hrun|]. rewrite Hlog2, Hlog1. reflexivity.
  - split; [vm_compute; reflexivity|].
    destruct (unmount_runs_cleanups_in_slot_order failing_cleanup
                2 2 (Some 2) false failing_cleanup_mounted 1) as [_ Hthrow].
    + vm_compute; reflexivity.
    + vm_compute; reflexivity.
    + eexists. eexists. eapply (Hthrow 1).
      * vm_compute; lia.
      * vm_compute; reflexivity.
      * vm_compute; reflexivity.
Defined.

(* ------------------------------------------------------------------ *)
(** ** C4: event listener props *)
(* ------------------------------------------------------------------ *)

Lemma starts_with_on_spec name :
  starts_with_on name = true <-> exists rest, name = ("on" ++ rest)%string.
Proof.
  split.
  - destruct name as [|a [|b r]]; simpl; try discriminate.
    intros H. apply andb_true_iff in H as [Ha Hb].
    apply Ascii.eqb_eq in Ha, Hb. subst. by exists r.
  - intros [rest ->]. reflexivity.
Qed.

(** C4, counterexample: [online] is not [on] followed by an uppercase
    letter, yet it is handled as the listener of the event [line], and no
    attribute is written. *)
Lemma C4_counterexample :
  on_upper "online" = false
  /\ setProperty "online" (VFun 1) VUndef None plain_element
     = setEventHandler "online" (VFun 1) VUndef plain_element
  /\ d_events (setProperty "online" (VFun 1) VUndef None plain_element) = ["line"]
  /\ d_attrs (setProperty "online" (VFun 1) VUndef None plain_element) = ∅
  /\ ~ writes_attribute "online" (VFun 1) VUndef None plain_element.
Proof.
  repeat split; try reflexivity.
  unfold writes_attribute. vm_compute. intros H. discriminate H.
Qed.

(** C4 (as amended): a prop name other than [children] and [style] is
    handled as an event listener exactly when it begins with the two
    characters [on]; the handler is then stored under the rest of the name
    in lower case (for a name written in ASCII).  Of the names that do not
    begin with [on], [ref] and [key] are skipped without any write,
    [dangerouslySetInnerHTML] sets [innerHTML] when the value has a
    non-null [__html] and writes nothing else, and every other name is
    written as an attribute or property and leaves the listeners alone. *)
Theorem setProperty_listener_names name value oldValue namespace n :
  name <> "children" -> name <> "style" ->
  (starts_with_on name = true <-> exists rest, name = ("on" ++ rest)%string)
  /\ (starts_with_on name = true ->
      setProperty name value oldValue namespace n
      = setEventHandler name value oldValue n
      /\ (ascii_name name = true ->
          d_listeners (setProperty name value oldValue namespace n)
          = Some (<[toLowerCase (slice2 name) := value]>
                    (default ∅ (d_listeners n)))))
  /\ (name = "ref" \/ name = "key" ->
      setProperty name value oldValue namespace n = n)
  /\ (name = "dangerouslySetInnerHTML" ->
      setProperty name value oldValue namespace n
      = (if truthy value && negb (is_nullish (get_prop value "__html"))
         then set_d_innerHTML (get_prop value "__html") n else n)
      /\ d_attrs (setProperty name value oldValue namespace n) = d_attrs n
      /\ d_fields (setProperty name value oldValue namespace n) = d_fields n
      /\ d_listeners (setProperty name value oldValue namespace n)
         = d_listeners n)
  /\ (starts_with_on name = false ->
      name <> "dangerouslySetInnerHTML" -> name <> "ref" -> name <> "key" ->
      writes_attribute name value oldValue namespace n
      /\ d_listeners (setProperty name value oldValue namespace n) = d_listeners n
      /\ d_events (setProperty name value oldValue namespace n) = d_events n).
Proof.
  intros Hc Hs. split; [apply starts_with_on_spec|].
  apply String.eqb_neq in Hc, Hs.
  split.
  { intros Hon. unfold setProperty. rewrite Hc, Hs, Hon. split; [done|].
    intros _. unfold setEventHandler.
    repeat match goal with |- context [if ?b then _ else _] => destruct b end;
      reflexivity. }
  split.
  { intros [-> | ->]; reflexivity. }
  split.
  { intros ->. split; [reflexivity|].
    change (setProperty "dangerouslySetInnerHTML" value oldValue namespace n)
      with (if truthy value && negb (is_nullish (get_prop value "__html"))
            then set_d_innerHTML (get_prop value "__html") n else n).
    by destruct (truthy value && negb (is_nullish (get_prop value "__html"))). }
  intros Hon Hd Hr Hk. apply String.eqb_neq in Hd, Hr, Hk.
  unfold writes_attribute, setProperty. rewrite Hc, Hs, Hon, Hd, Hr, Hk.
  split; [done|].
  destruct namespace; unfold setAttributeSVG, setPropertyOrAttribute;
    repeat match goal with |- context [if ?b then _ else _] => destruct b end;
    split; reflexivity.
Qed.

(** C4, witness: [onClick] on a [div]. *)
Lemma setProperty_listener_names_witness :
  d_listeners (setProperty "onClick" (VFun 1) VUndef None plain_element)
  = Some {[ "click" := VFun 1 ]}.
Proof.
  pose proof (setProperty_listener_names "onClick" (VFun 1) VUndef None plain_element) as H.
  destruct H as (_ & H & _); [discriminate|discriminate|].
  destruct (H eq_refl) as [_ H']. rewrite (H' eq_refl). reflexivity.
Defined.

(* ------------------------------------------------------------------ *)
(** ** C5: render(null, container) *)
(* ------------------------------------------------------------------ *)

Lemma settled_refl s : settled s s.
Proof. repeat split. Qed.

Lemma settled_trans s1 s2 s3 : settled s1 s2 -> settled s2 s3 -> settled s1 s3.
Proof.
  intros (H1 & H2 & H3 & H4 & H5 & H6) (G1 & G2 & G3 & G4 & G5 & G6).
  split; [congruence|]. split.
  { intros v. destruct (H2 v), (G2 v). split; congruence. }
  split.
  { intros c. destruct (H3 c), (G3 c). split; congruence. }
  split; [intros d; by rewrite G4|]. split; congruence.
Qed.

(** Discharging [settled s (f s)] for one state update. *)
Ltac settled_update :=
  intros; unfold settled, upd_slot, dom_remove; st;
  repeat match goal with
         | |- _ /\ _ => split
         | |- forall _, _ => intro
         | |- context [match ?x with Some _ => _ | None => _ end] => destruct x
         end; st;
  rewrite ?vn_upd_cases, ?cp_upd_cases, ?nd_upd_cases;
  repeat case_decide; try done; st;
  rewrite ?vn_upd_cases, ?cp_upd_cases, ?nd_upd_cases;
  repeat case_decide; try done.

#[global] Hint Resolve settled_refl settled_trans : keeps.

Section C5.
Variable callbacks : nat -> list jsval -> jsval.
Variable components : nat -> jsval -> M jsval.

Lemma settled_add_log e s : settled s (add_log e s).
Proof. settled_update. Qed.

Lemma K_call_user f args : keeps settled (call_user callbacks f args).
Proof.
  unfold call_user. destruct f; repeat keeps_step. apply settled_add_log.
Qed.

Lemma K_call_option name args : keeps settled (call_option callbacks name args).
Proof. unfold call_option. repeat keeps_step. apply K_call_user. Qed.

Lemma K_enqueueRender c : keeps settled (enqueueRender c).
Proof.
  apply keeps_modify. intros s.
  destruct (negb (bool_decide (c ∈ renderQueue s))); [|apply settled_refl].
  cbn zeta. destruct (negb _); settled_update.
Qed.

Lemma K_invoke_setState c i u : keeps settled (invoke_setState callbacks c i u).
Proof.
  unfold invoke_setState. repeat keeps_step;
    try apply K_call_user; try apply K_enqueueRender.
  all: settled_update.
Qed.

Lemma K_invoke_dispatch c i u : keeps settled (invoke_dispatch callbacks c i u).
Proof.
  unfold invoke_dispatch. repeat keeps_step;
    try apply K_call_user; try apply K_enqueueRender.
  all: settled_update.
Qed.

Lemma K_call f args : keeps settled (call callbacks f args).
Proof.
  unfold call. destruct f; try apply K_call_user; repeat keeps_step.
  - apply K_invoke_setState.
  - apply K_invoke_dispatch.
Qed.

Lemma K_applyRef ref value : keeps settled (applyRef callbacks ref value).
Proof.
  unfold applyRef. repeat keeps_step; try apply K_call.
  settled_update.
Qed.

Lemma K_cleanupContextSubscriptions c : keeps settled (cleanupContextSubscriptions c).
Proof.
  unfold cleanupContextSubscriptions. repeat keeps_step.
  all: settled_update.
Qed.

Lemma K_runCleanups c : keeps settled (runCleanups callbacks c).
Proof.
  unfold runCleanups. repeat keeps_step;
    try apply K_cleanupContextSubscriptions.
  unfold run_cleanup. repeat keeps_step; try apply K_call.
  settled_update.
Qed.

Lemma K_unmount fuel : forall v anc skip, keeps settled (unmount callbacks fuel v anc skip).
Proof.
  induction fuel as [|fuel IH]; intros v anc skip.
  - destruct v; simpl; repeat keeps_step.
  - destruct v as [v|]; simpl; repeat keeps_step;
      try apply K_call_option; try apply K_runCleanups; try apply K_applyRef;
      try apply IH.
    all: settled_update.
Qed.

Lemma vn_alloc_old s x v :
  v < length (vnodes s) -> vn (set_vnodes (vnodes s ++ [x]) s) v = vn s v.
Proof. intros H. unfold vn. simpl. by rewrite lookup_app_l. Qed.

Lemma vn_alloc_new s x :
  vn (set_vnodes (vnodes s ++ [x]) s) (length (vnodes s)) = x.
Proof.
  unfold vn. simpl. rewrite lookup_app_r by lia. by rewrite Nat.sub_diag.
Qed.

Lemma vn_in_range s v : v_type (vn s v) <> TUndefined -> v < length (vnodes s).
Proof.
  intros H. destruct (decide (v < length (vnodes s))); [done|].
  exfalso. apply H. unfold vn. by rewrite lookup_ge_None_2 by lia.
Qed.

Lemma nd_in_range s d : d_children (nd s d) <> None -> d < length (nodes s).
Proof.
  intros H. destruct (decide (d < length (nodes s))); [done|].
  exfalso. apply H. unfold nd. by rewrite lookup_ge_None_2 by lia.
Qed.

Lemma K_for_each_unmount fuel l :
  keeps settled (for_each l (fun ch => unmount callbacks fuel (Some ch) (Some ch) false)).
Proof. repeat keeps_step. apply K_unmount. Qed.

Lemma diff_S fuel parentDom v oldVNode namespace q oldDom :
  diff callbacks components (S fuel) parentDom (Some v) oldVNode namespace q oldDom
  = (call_option callbacks "_diff" [VNode v] ;;;
     newType <~ gets (fun s => v_type (vn s v));
     match newType with
     | TText =>
         diffTextNode callbacks (S fuel) parentDom v oldVNode oldDom ;;; ret q
     | TFun f =>
         diffComponent callbacks components (S fuel)
           (diff callbacks components fuel) (unmount callbacks (S fuel)) f
           parentDom v oldVNode namespace q oldDom
     | TPortal =>
         diffPortal callbacks (S fuel) (diff callbacks components fuel)
           (unmount callbacks (S fuel)) parentDom v oldVNode namespace q oldDom
     | TTag tag =>
         diffElementNode callbacks (S fuel) (diff callbacks components fuel)
           (unmount callbacks (S fuel)) tag parentDom v oldVNode namespace q oldDom
     | TUndefined => console_warn "Unknown vnode type:" VUndef ;;; ret q
     end).
Proof. reflexivity. Qed.

Lemma call_option_none name args s :
  options s = [] -> call_option callbacks name args s = Ok tt s.
Proof. intros H. unfold call_option. mred. by rewrite H. Qed.

Lemma diffChildren_none fuel diff unmount parentDom newParentVNode oldParentVNode
    namespace q oldDom s :
  diffChildren fuel diff unmount parentDom (VArr []) newParentVNode
    oldParentVNode namespace q oldDom s
  = bind (for_each (default [] (v_children (vn_opt s oldParentVNode)))
            (fun c => unmount (Some c) (Some c) false))
         (fun _ => ret q)
         (upd_vnode newParentVNode (set_v_children (Some [])) s).
Proof. reflexivity. Qed.

(** C5 (as amended): [render(null, container)] on a container that caches a
    mounted root normalizes the new children to the empty list, unmounts
    every child of the old root, and leaves the container caching the new,
    childless root. *)
Theorem render_null_unmounts fuel container s old c :
  d_children (nd s container) = Some old ->
  v_type (vn s old) = TFun Fragment ->
  v_component (vn s old) = Some c ->
  options s = [] ->
  has_pending (cp s c) = false ->
  render callbacks components (S fuel) VNull container s
  = for_each (default [] (v_children (vn s old)))
      (fun ch => unmount callbacks (S fuel) (Some ch) (Some ch) false)
      (render_null_prepared container c s)
  /\ v_type (vn (render_null_prepared container c s) (length (vnodes s)))
     = TFun Fragment
  /\ v_children (vn (render_null_prepared container c s) (length (vnodes s)))
     = Some []
  /\ d_children (nd (render_null_prepared container c s) container)
     = Some (length (vnodes s))
  /\ forall s',
       render callbacks components (S fuel) VNull container s = Ok tt s' ->
       d_children (nd s' container) = Some (length (vnodes s))
       /\ v_type (vn s' (length (vnodes s))) = TFun Fragment.
Proof.
  intros Hcache Htype Hcomp Hopt Hpend.
  assert (Hold : old < length (vnodes s)) by (apply vn_in_range; by rewrite Htype).
  assert (Hcont : container < length (nodes s)) by (apply nd_in_range; by rewrite Hcache).
  unfold render_null_prepared, null_root_props. cbv zeta.
  remember (length (vnodes s)) as r eqn:Er.
  assert (Hr : r <> old) by lia.
  remember (mkVNode (TFun Fragment) (VRec [("children", VNull)]) VNull VNull
              None None None None 0 0 None VUndef None) as rec eqn:Erec.
  remember (set_vnodes (vnodes s ++ [rec]) s) as sa eqn:Esa.
  assert (Hra : r < length (vnodes sa)).
  { subst sa r; simpl; rewrite length_app; simpl; lia. }
  assert (Hvra : vn sa r = rec) by (subst sa r; apply vn_alloc_new).
  assert (Hvolda : vn sa old = vn s old) by (subst sa r; by apply vn_alloc_old).
  assert (Hopta : options sa = []) by (subst sa; exact Hopt).
  assert (Hnda : forall d, nd sa d = nd s d) by (subst sa; intros; reflexivity).
  assert (Hcpa : forall d, cp sa d = cp s d) by (subst sa; intros; reflexivity).
  assert (Hnla : length (nodes sa) = length (nodes s)) by (subst sa; intros; reflexivity).
  remember (upd_node container (set_d_children (Some r))
               (upd_vnode r (set_v_dom (Some container)) sa)) as sb eqn:Esb.
  assert (Hvrb : vn sb r = set_v_dom (Some container) rec).
  { subst sb. st. rewrite vn_upd_eq by done. by rewrite Hvra. }
  assert (Hvoldb : vn sb old = vn s old).
  { subst sb. st. rewrite vn_upd_ne by done. done. }
  assert (Hrb : r < length (vnodes sb)) by (subst sb; st; done).
  assert (Hoptb : options sb = []) by (subst sb; exact Hopta).
  assert (Hndb : d_children (nd sb container) = Some r).
  { subst sb. rewrite nd_upd_eq by (st; lia). done. }
  assert (Hcpb : forall d, cp sb d = cp s d) by (subst sb; intros; st; apply Hcpa).
  remember (upd_vnode r (set_v_component (Some c))
               (upd_comp c (set_c_vnode (Some r))
                  (upd_comp c (set_c_props (VRec [("children", VNull)])) sb)))
    as sc eqn:Esc.
  assert (Hrc : r < length (vnodes sc)) by (subst sc; st; done).
  assert (Hvrc : vn sc r = set_v_component (Some c) (set_v_dom (Some container) rec)).
  { subst sc. rewrite vn_upd_eq by (st; done). st. by rewrite Hvrb. }
  assert (Hvoldc : vn sc old = vn s old).
  { subst sc. rewrite vn_upd_ne by done. st. done. }
  assert (Hoptc : options sc = []) by (subst sc; exact Hoptb).
  assert (Hndc : d_children (nd sc container) = Some r) by (subst sc; exact Hndb).
  assert (Hpendc : has_pending (cp sc c) = false).
  { subst sc. st. rewrite !cp_upd_cases. rewrite Hcpb. repeat case_decide; done. }
  remember (upd_vnode r (set_v_children (Some []))
              (set_current None 0
                 (add_log (EvRender c Fragment) (set_current (Some c) 0 sc))))
    as s0 eqn:Es0.
  assert (Hvr0 : vn s0 r = set_v_children (Some [])
                   (set_v_component (Some c) (set_v_dom (Some container) rec))).
  { subst s0. rewrite vn_upd_eq by (st; done). st. by rewrite Hvrc. }
  assert (Hvold0 : vn s0 old = vn s old).
  { subst s0. rewrite vn_upd_ne by done. st. done. }
  assert (Hnd0 : d_children (nd s0 container) = Some r) by (subst s0; exact Hndc).
  assert (Hpend0 : has_pending (cp s0 c) = false) by (subst s0; exact Hpendc).
  assert (Hopt0 : options s0 = []) by (subst s0; exact Hoptc).
  assert (Hgen : forall res0,
             for_each (default [] (v_children (vn s old)))
               (fun ch => unmount callbacks (S fuel) (Some ch) (Some ch) false) s0 = res0 ->
             render callbacks components (S fuel) VNull container s = res0
             /\ forall s', res0 = Ok tt s' ->
                  d_children (nd s' container) = Some r
                  /\ v_type (vn s' r) = TFun Fragment).
  { intros res0 Hres.
    pose proof (K_for_each_unmount (S fuel) (default [] (v_children (vn s old))) s0) as HK.
    rewrite Hres in HK.
    assert (Hrender : render callbacks components (S fuel) VNull container s = res0).
    { subst rec. unfold render. mred. rewrite Hcache.
      bind_step ltac:(reflexivity).
      rewrite <- Er, <- Esa, <- Esb.
      bind_step ltac:(by apply call_option_none).
      rewrite diff_S. mred.
      bind_step ltac:(by apply call_option_none).
      rewrite Hvrb. cbn [set_v_dom v_type].
      unfold diffComponent. mred. cbn [vn_opt]. rewrite Hvoldb, Hcomp, Htype.
      cbn [vtype_eqb fn_id_eqb]. mred. rewrite Hvrb.
      cbn [set_v_dom v_props].
      unfold setCurrentComponent. mred. rewrite <- Esc.
      bind_step ltac:(by apply call_option_none).
      bind_step ltac:(reflexivity).
      cbn [to_child_array get_prop assoc_get String.eqb Ascii.eqb Bool.eqb].
      etransitivity; [apply bind_cong, diffChildren_none|].
      cbn [vn_opt]. st. rewrite Hvoldc. rewrite <- Es0.
      rewrite bind_bind. unfold bind at 1. rewrite Hres.
      destruct res0 as [[] s'| |]; [|done|done].
      destruct HK as (Hlen & Hvn & Hcp & Hnd & Hopts & Hpq).
      mred. unfold has_pending in *.
      destruct (Hcp c) as [-> ->]. rewrite Hpend0.
      unfold queue_ref. mred. destruct (Hvn r) as [_ ->]. rewrite Hvr0.
      cbn [v_ref set_v_children set_v_component set_v_dom truthy]. mred.
      bind_step ltac:(apply call_option_none; congruence).
      unfold commitRoot. cbn [refQueue commitQueue for_each]. mred.
      apply call_option_none. congruence. }
    split; [done|].
    intros s' ->. destruct HK as (Hlen & Hvn & Hcp & Hnd & Hopts & Hpq).
    rewrite Hnd, Hnd0. destruct (Hvn r) as [-> _]. rewrite Hvr0. by subst rec. }
  destruct (Hgen _ eq_refl) as [Heq Hpost].
  split; [done|]. split; [rewrite Hvr0; by subst rec|]. split; [by rewrite Hvr0|].
  split; [done|]. intros s' Hs'. apply Hpost. by rewrite <- Heq.
Qed.

End C5.

(** C5, counterexample: after [render(h('div'), c); render(null, c)] the
    container has no child node left, but its [_children] holds the root
    vnode that the second call created. *)
Lemma C5_counterexample :
  exists s,
    (mount_div ;;; render no_result no_components 10 VNull 0) one_container
    = Ok tt s
    /\ d_childNodes (nd div_mounted 0) = [1]
    /\ d_childNodes (nd s 0) = []
    /\ d_children (nd s 0) = Some 3
    /\ d_children (nd s 0) <> None.
Proof.
  eexists. split; [vm_compute; reflexivity|].
  repeat split; try (vm_compute; reflexivity). discriminate.
Qed.

(** C5, witness: [render(null, c)] on the container with the mounted
    [div]. *)
Lemma render_null_unmounts_witness :
  d_children (nd div_mounted 0) = Some 1
  /\ exists s',
       render no_result no_components 5 VNull 0 div_mounted = Ok tt s'
       /\ d_children (nd s' 0) = Some (length (vnodes div_mounted))
       /\ v_type (vn s' (length (vnodes div_mounted))) = TFun Fragment.
Proof.
  split; [vm_compute; reflexivity|].
  eexists. split; [vm_compute; reflexivity|].
  apply (render_null_unmounts no_result no_components 4 0 div_mounted 1 0);
    vm_compute; reflexivity.
Defined.

(* ------------------------------------------------------------------ *)
(** ** C6: contract violations *)
(* ------------------------------------------------------------------ *)

(** C6, counterexample: [useContext] outside a render throws; it does not
    return with a diagnostic in the log. *)
Lemma C6_counterexample :
  useContext 1 some_context empty_state
  = Throw (Error "useContext must be called during render") empty_state
  /\ ~ reported_by_log (useContext 1 some_context empty_state) empty_state.
Proof.
  split; [reflexivity|].
  intros (a & s' & msg & H & _). discriminate H.
Qed.

Section C6.
Variable callbacks : nat -> list jsval -> jsval.

(** C6 (as amended): outside a component render [useContext] throws an
    [Error] and the hooks that read the hook list throw a [TypeError],
    nothing being logged; a portal whose container is not a DOM element is
    reported with [console.error] by [diffPortal], which then returns
    without touching anything else. *)
Theorem contract_violations fuel ctx s :
  currentComponent s = None ->
  useContext fuel ctx s
  = Throw (Error "useContext must be called during render") s
  /\ (forall init, throws_TypeError (useState callbacks init s) s)
  /\ (forall r a i, throws_TypeError (useReducer callbacks r a i s) s)
  /\ (forall cb deps, throws_TypeError (useEffect cb deps s) s)
  /\ (forall cb deps, throws_TypeError (useLayoutEffect cb deps s) s)
  /\ (forall f deps, throws_TypeError (useMemo callbacks f deps s) s)
  /\ (forall init, throws_TypeError (useRef init s) s)
  /\ (forall cb deps, throws_TypeError (useCallback cb deps s) s)
  /\ (forall diff unmount parentDom newVNode oldVNode namespace q oldDom,
        element_of s (get_prop (or_empty (v_props (vn s newVNode))) "_container")
        = None ->
        diffPortal callbacks fuel diff unmount parentDom newVNode oldVNode
          namespace q oldDom s
        = Ok q (add_log (EvError "createPortal: container must be a DOM element") s)).
Proof.
  intros Hcur.
  assert (Hthrow : forall A (k : nat * nat -> M A),
             throws_TypeError (bind next_index (fun i => bind (getHookState i) k) s) s).
  { intros A k. eexists _, _. split.
    - unfold bind, next_index. simpl. unfold getHookState, bind, gets. simpl.
      rewrite Hcur. reflexivity.
    - reflexivity. }
  split.
  { unfold useContext, bind, gets. rewrite Hcur. reflexivity. }
  repeat split; intros; try apply Hthrow.
  unfold diffPortal, bind, gets. rewrite H. reflexivity.
Qed.

End C6.

(** C6, witness. *)
Lemma contract_violations_witness :
  useContext 1 some_context text_container_state
  = Throw (Error "useContext must be called during render") text_container_state
  /\ diffPortal (fun _ _ => VUndef) 1 (fun _ _ _ _ q _ => ret q) (fun _ _ _ => ret tt)
       0 0 None None (mkQueues [] []) None text_container_state
     = Ok (mkQueues [] [])
          (add_log (EvError "createPortal: container must be a DOM element")
                   text_container_state).
Proof.
  pose proof (contract_violations (fun _ _ => VUndef) 1 some_context
                text_container_state eq_refl) as (H1 & _ & _ & _ & _ & _ & _ & _ & H2).
  split; [exact H1|]. apply H2. reflexivity.
Defined.

(* ------------------------------------------------------------------ *)
(** ** C7: effect dependencies *)
(* ------------------------------------------------------------------ *)

(** C7: a component with [useEffect(effect, [])] rendered twice before the
    frame in which pending effects are flushed runs the effect twice,
    although the dependency lists of the two renders are element-wise
    equal: the slot is queued by both renders, because [_args] is only
    written when the effect is flushed. *)
Theorem effect_with_equal_deps_runs_twice :
  exists s, render_twice_then_paint one_container = Ok tt s
            /\ calls_of 1 (log s) = 2
            /\ log s = [EvRender 0 Fragment; EvRender 1 (UserFn 0);
                        EvRender 0 Fragment; EvRender 1 (UserFn 0);
                        EvCall 1 []; EvCall 1 []].
Proof. eexists. split; [vm_compute; reflexivity|]. split; reflexivity. Qed.

(* ------------------------------------------------------------------ *)
(** ** C8: unkeyed children *)
(* ------------------------------------------------------------------ *)

Lemma reusableb_spec matched t j cand :
  reusableb matched t j cand = true <-> reusable matched t j cand.
Proof.
  unfold reusableb, reusable. rewrite !andb_true_iff, negb_true_iff. tauto.
Qed.

Lemma scan_unkeyed_spec t matched : forall olds j0,
  match scan_unkeyed olds matched t j0 with
  | Some j =>
      j0 <= j /\ (exists cand, olds !! (j - j0) = Some cand
                               /\ reusable matched t j cand)
      /\ (forall j' cand, j0 <= j' < j -> olds !! (j' - j0) = Some cand ->
                          ~ reusable matched t j' cand)
  | None =>
      forall j' cand, j0 <= j' -> olds !! (j' - j0) = Some cand ->
                      ~ reusable matched t j' cand
  end.
Proof.
  induction olds as [|cand olds IH]; intros j0; simpl.
  - intros j' c _ H. by rewrite lookup_nil in H.
  - fold (reusableb matched t j0 cand).
    destruct (reusableb matched t j0 cand) eqn:E.
    + split; [lia|]. split.
      * exists cand. rewrite Nat.sub_diag. split; [done|]. by apply reusableb_spec.
      * intros; lia.
    + specialize (IH (S j0)). destruct (scan_unkeyed olds matched t (S j0)) as [j|].
      * destruct IH as (Hle & (c & Hc & Hr) & Hmin). split; [lia|]. split.
        -- exists c. split; [|done].
           replace (j - j0) with (S (j - S j0)) by lia. done.
        -- intros j' c' Hj' Hc'. destruct (decide (j' = j0)) as [->|Hne].
           ++ rewrite Nat.sub_diag in Hc'. simpl in Hc'. injection Hc' as <-.
              rewrite <- reusableb_spec. by rewrite E.
           ++ apply (Hmin j' c'); [lia|].
              replace (j' - j0) with (S (j' - S j0)) in Hc' by lia. done.
      * intros j' c' Hj' Hc'. destruct (decide (j' = j0)) as [->|Hne].
        -- rewrite Nat.sub_diag in Hc'. simpl in Hc'. injection Hc' as <-.
           rewrite <- reusableb_spec. by rewrite E.
        -- apply (IH j' c'); [lia|].
           replace (j' - j0) with (S (j' - S j0)) in Hc' by lia. done.
Qed.

Lemma match_children_app olds byKey : forall news1 news2 i m,
  match_children olds byKey (news1 ++ news2) i m
  = let '(r1, m1) := match_children olds byKey news1 i m in
    let '(r2, m2) := match_children olds byKey news2 (i + length news1) m1 in
    (r1 ++ r2, m2).
Proof.
  induction news1 as [|n news1 IH]; intros news2 i m; simpl.
  - rewrite Nat.add_0_r. by destruct (match_children olds byKey news2 i m).
  - rewrite IH. 
    destruct (match_children olds byKey news1 (S i) _) as [r1 m1].
    replace (S i + length news1) with (i + S (length news1)) by lia.
    by destruct (match_children olds byKey news2 _ m1).
Qed.

Lemma match_children_length olds byKey : forall news i m,
  length (match_children olds byKey news i m).1 = length news.
Proof.
  induction news as [|n news IH]; intros i m; simpl; [done|].
  specialize (IH (S i) (match match_child olds byKey m i n with
                        | Some j => <[j:=true]> m | None => m end)).
  destruct (match_children olds byKey news (S i) _). simpl in *. by rewrite IH.
Qed.

Lemma match_children_at olds byKey news k newChild :
  news !! k = Some newChild ->
  (match_children olds byKey news 0 (replicate (length olds) false)).1 !! k
  = Some (match_child olds byKey (flags_at olds byKey news k) k newChild).
Proof.
  intros Hk. unfold flags_at.
  rewrite <- (take_drop k news) at 1.
  rewrite match_children_app. simpl.
  pose proof (match_children_length olds byKey (take k news) 0
                (replicate (length olds) false)) as Hlen.
  destruct (match_children olds byKey (take k news) 0 _) as [r1 m1]. simpl in *.
  assert (Hlt : k < length news) by (by eapply lookup_lt_Some).
  rewrite length_take, Nat.min_l in * by lia.
  rewrite (drop_S _ _ _ Hk). simpl.
  destruct (match_children olds byKey (drop (S k) news) (S k) _) as [r2 m2].
  simpl. rewrite lookup_app_r by lia. rewrite Hlen, Nat.sub_diag. done.
Qed.

Lemma match_child_unkeyed olds byKey matched i newChild :
  is_nullish (v_key newChild) = true ->
  (forall cand, olds !! i = Some cand ->
                reusable matched (v_type newChild) i cand ->
                match_child olds byKey matched i newChild = Some i)
  /\ ((forall cand, olds !! i = Some cand ->
                    ~ reusable matched (v_type newChild) i cand) ->
      match_child olds byKey matched i newChild
      = scan_unkeyed olds matched (v_type newChild) 0).
Proof.
  intros Hkey. unfold match_child. rewrite Hkey. simpl. split.
  - intros cand Hc (Hm & Hk & Ht).
    assert (Hlt : i < length olds) by (by eapply lookup_lt_Some).
    apply Nat.ltb_lt in Hlt. rewrite Hlt, Hm, Hc, Hk, Ht. done.
  - intros Hno. destruct (olds !! i) as [cand|] eqn:Hc.
    + specialize (Hno cand eq_refl). rewrite <- reusableb_spec in Hno.
      unfold reusableb in Hno.
      destruct (i <? length olds)%nat; simpl; [|done].
      destruct (default false (matched !! i)); simpl in *; [done|].
      destruct (is_nullish (v_key cand)); simpl in *; [|done].
      destruct (vtype_eqb (v_type cand) (v_type newChild)); simpl in *; [|done].
      by destruct Hno.
    + destruct (i <? length olds)%nat; simpl; [|done].
      by destruct (negb (default false (matched !! i))).
Qed.

Lemma diffChildren_hands_over fuel (d d' : diff_fn) unmount parentDom
    renderResult newParentVNode oldParentVNode namespace q oldDom s :
  (forall n o,
     (n, o) ∈ reconciled_pairs renderResult newParentVNode oldParentVNode s ->
     forall q' refDom st,
       d parentDom (Some n) o namespace q' refDom st
       = d' parentDom (Some n) o namespace q' refDom st) ->
  diffChildren fuel d unmount parentDom renderResult newParentVNode
    oldParentVNode namespace q oldDom s
  = diffChildren fuel d' unmount parentDom renderResult newParentVNode
      oldParentVNode namespace q oldDom s.
Proof.
  unfold reconciled_pairs, children_normalized, diffChildren.
  rewrite !bind_gets.
  generalize (default [] (v_children (vn_opt s oldParentVNode))).
  intros oldChildren H.
  destruct (normalizeChildren renderResult [] s) as [newChildren s1| |] eqn:E;
    [|by unfold bind; rewrite E..].
  rewrite !(bind_Ok _ _ _ _ _ E).
  rewrite !bind_modify.
  destruct newChildren as [|n0 newChildren']; [done|].
  generalize dependent (n0 :: newChildren'). intros newChildren E H.
  rewrite !bind_gets. cbv zeta in *.
  destruct (match_children _ _ _ _ _) as [matchedIndex matched]. simpl in H.
  match goal with
  | |- bind (?F ?l0 None q) ?K ?S = bind (?G ?l0 None q) ?K ?S =>
      assert (Hloop : forall l1 prev q0 st,
                 (forall i nc oc, (i, (nc, oc)) ∈ l1 ->
                                  (nc, oc) ∈ zip newChildren
                                    (map (fun m => m ≫= fun j => oldChildren !! j)
                                       matchedIndex)) ->
                 F l1 prev q0 st = G l1 prev q0 st)
  end.
  { induction l1 as [|[i [nc oc]] r IHr]; intros prev q0 st Hl; [done|].
    assert (Hr : forall p q1 st1,
               (fix loop (l : list (nat * (nat * option nat)))
                  (previousNewDom : option nat) (q : queues)
                  : M (option nat * queues) := _) r p q1 st1 = _)
      by (intros p q1 st1; apply IHr; intros i' nc' oc' Hin;
          apply (Hl i' nc' oc'); by right).
    cbn iota beta.
    apply bind_ext. intros depth st1. apply bind_ext. intros [] st2.
    apply bind_ext. intros refDom st3.
    etransitivity;
      [apply bind_cong, (H nc oc (Hl i nc oc ltac:(left)))|].
    apply bind_ext. intros q1 st4. apply bind_ext. intros firstDom st5.
    apply bind_ext. intros lastDom st6.
    destruct firstDom; [|apply Hr].
    apply bind_ext. intros prev' st7. apply bind_ext. intros [] st8. apply Hr. }
  unfold bind at 1 3. rewrite Hloop; [done|].
  intros i nc oc Hin. by apply elem_of_zip_r in Hin.
Qed.

Lemma bind_fails {A B} (m : M A) (k : A -> M B) s :
  (forall a s', m s = Ok a s' -> forall b s'', k a s' <> Ok b s'') ->
  forall b s'', bind m k s <> Ok b s''.
Proof.
  intros H b s''. unfold bind. destruct (m s) as [a s'| |] eqn:E; [|done..].
  by apply H.
Qed.

Lemma diffChildren_calls_diff fuel (d : diff_fn) unmount parentDom
    renderResult newParentVNode oldParentVNode namespace q oldDom s n o :
  (n, o) ∈ reconciled_pairs renderResult newParentVNode oldParentVNode s ->
  (forall q' refDom st, exists e st',
      d parentDom (Some n) o namespace q' refDom st = Throw e st') ->
  forall q1 s1,
    diffChildren fuel d unmount parentDom renderResult newParentVNode
      oldParentVNode namespace q oldDom s <> Ok q1 s1.
Proof.
  unfold reconciled_pairs, children_normalized, diffChildren.
  rewrite !bind_gets.
  generalize (default [] (v_children (vn_opt s oldParentVNode))).
  intros oldChildren Hin Hd.
  destruct (normalizeChildren renderResult [] s) as [newChildren s1| |] eqn:E;
    [|by apply elem_of_nil in Hin..].
  rewrite !(bind_Ok _ _ _ _ _ E). rewrite !bind_modify.
  destruct newChildren as [|n0 newChildren']; [by apply elem_of_nil in Hin|].
  generalize dependent (n0 :: newChildren'). intros newChildren E Hin.
  rewrite !bind_gets. cbv zeta in *.
  destruct (match_children _ _ _ _ _) as [matchedIndex matched]. simpl in Hin.
  assert (Hi : exists i,
             (i, (n, o)) ∈ zip (seq 0 (length newChildren))
                             (zip newChildren
                                (map (fun m => m ≫= fun j => oldChildren !! j)
                                   matchedIndex))).
  { apply list_elem_of_lookup in Hin as [i Hi]. exists i.
    apply list_elem_of_lookup. exists i.
    rewrite lookup_zip_with, Hi.
    assert (i < length newChildren).
    { rewrite lookup_zip_with in Hi.
      destruct (newChildren !! i) eqn:En; [|done].
      by apply lookup_lt_Some in En. }
    by rewrite lookup_seq_lt. }
  match goal with
  | |- forall q1 s1, bind (?F ?l0 None q) ?K ?S <> Ok q1 s1 =>
      assert (Hloop : forall l1 prev q0 st,
                 (exists i, (i, (n, o)) ∈ l1) ->
                 forall b s'', F l1 prev q0 st <> Ok b s'')
  end.
  { induction l1 as [|[i' [nc oc]] r IHr]; intros prev q0 st [i Hi'];
      [by apply elem_of_nil in Hi'|].
    cbn iota beta.
    apply elem_of_cons in Hi' as [Heq|Hi'].
    - injection Heq as <- <- <-.
      apply bind_fails. intros depth st1 _. apply bind_fails. intros [] st2 _.
      apply bind_fails. intros refDom st3 _. intros b s''.
      destruct (Hd q0 refDom st3) as (e & st' & Hthrow).
      unfold bind at 1. by rewrite Hthrow.
    - assert (Hr : forall p q1 st1 b s'',
                 (fix loop (l : list (nat * (nat * option nat)))
                    (previousNewDom : option nat) (q : queues)
                    : M (option nat * queues) := _) r p q1 st1 <> Ok b s'')
        by (intros p q1 st1; apply IHr; by exists i).
      apply bind_fails. intros depth st1 _. apply bind_fails. intros [] st2 _.
      apply bind_fails. intros refDom st3 _.
      apply bind_fails. intros q1 st4 _. apply bind_fails. intros firstDom st5 _.
      apply bind_fails. intros lastDom st6 _.
      destruct firstDom; [|apply Hr].
      apply bind_fails. intros prev' st7 _. apply bind_fails. intros [] st8 _.
      apply Hr. }
  apply bind_fails. intros a s' HF. exfalso. by eapply Hloop.
Qed.

Section C8.
Variable callbacks : nat -> list jsval -> jsval.
Variable components : nat -> jsval -> M jsval.

Lemma diffElementNode_reuses_dom fuel diff unmount tag parentDom newVNode o
    namespace q oldDom s d :
  v_type (vn s o) = TTag tag -> v_dom (vn s o) = Some d ->
  diffElementNode callbacks fuel diff unmount tag parentDom newVNode (Some o)
    namespace q oldDom s
  = diffElementNode_into callbacks fuel diff unmount d newVNode (Some o)
      (if String.eqb tag "svg" then Some SVG_NAMESPACE else namespace) q s.
Proof.
  intros Ht Hd. unfold diffElementNode. unfold bind at 1, gets at 1.
  cbn [vn_opt]. rewrite Ht, Hd. cbn [vtype_eqb]. rewrite String.eqb_refl.
  reflexivity.
Qed.

Lemma diffTextNode_reuses_dom fuel parentDom newVNode o oldDom s d :
  v_type (vn s o) = TText -> v_dom (vn s o) = Some d ->
  diffTextNode callbacks fuel parentDom newVNode (Some o) oldDom s
  = Ok tt (upd_vnode newVNode (set_v_dom (Some d))
             (if strict_eq (v_props (vn s o)) (v_props (vn s newVNode)) then s
              else upd_node d (set_d_nodeValue (v_props (vn s newVNode))) s)).
Proof.
  intros Ht Hd. unfold diffTextNode. mstep. cbn [vn_opt]. rewrite Ht, Hd.
  by destruct (strict_eq _ _).
Qed.

Lemma diff_dispatch fuel parentDom v o namespace q oldDom s s1 :
  call_option callbacks "_diff" [VNode v] s = Ok tt s1 ->
  (forall tag, v_type (vn s1 v) = TTag tag ->
     diff callbacks components (S fuel) parentDom (Some v) o namespace q oldDom s
     = diffElementNode callbacks (S fuel) (diff callbacks components fuel)
         (unmount callbacks (S fuel)) tag parentDom v o namespace q oldDom s1)
  /\ (v_type (vn s1 v) = TText ->
      diff callbacks components (S fuel) parentDom (Some v) o namespace q oldDom s
      = bind (diffTextNode callbacks (S fuel) parentDom v o oldDom)
          (fun _ => ret q) s1).
Proof.
  intros Hc. split; [intros tag Ht|intros Ht].
  all: change (diff callbacks components (S fuel) parentDom (Some v) o namespace
                 q oldDom s)
         with (bind (call_option callbacks "_diff" [VNode v])
                 (fun _ => bind (gets (fun s => v_type (vn s v)))
                   (fun newType =>
                      match newType with
                      | TText =>
                          bind (diffTextNode callbacks (S fuel) parentDom v o oldDom)
                            (fun _ => ret q)
                      | TFun f =>
                          diffComponent callbacks components (S fuel)
                            (diff callbacks components fuel)
                            (unmount callbacks (S fuel)) f parentDom v o
                            namespace q oldDom
                      | TPortal =>
                          diffPortal callbacks (S fuel)
                            (diff callbacks components fuel)
                            (unmount callbacks (S fuel)) parentDom v o
                            namespace q oldDom
                      | TTag tag =>
                          diffElementNode callbacks (S fuel)
                            (diff callbacks components fuel)
                            (unmount callbacks (S fuel)) tag parentDom v o
                            namespace q oldDom
                      | TUndefined =>
                          bind (console_warn "Unknown vnode type:" VUndef)
                            (fun _ => ret q)
                      end)) s).
  all: rewrite (bind_Ok _ _ _ _ _ Hc), bind_gets, Ht; reflexivity.
Qed.

(** C8 (as amended): an unkeyed new child at position [i] reuses the old
    child at position [i] when that child is unkeyed, not yet matched and of
    the same type; otherwise it reuses the first unmatched unkeyed old child
    of the same type, if there is one.  [diffChildren] hands each new child
    to [diff] together with the old child so found, and with no other: its
    result depends on [diff] only at these pairs, and a [diff] that fails at
    one of them makes it fail.  [diff] passes that old child on to
    [diffElementNode] or [diffTextNode], which then works on the old child's
    DOM node instead of creating one. *)
Theorem unkeyed_child_reuse olds byKey matched i newChild :
  is_nullish (v_key newChild) = true ->
  (forall cand, olds !! i = Some cand ->
                reusable matched (v_type newChild) i cand ->
                match_child olds byKey matched i newChild = Some i)
  /\ ((forall cand, olds !! i = Some cand ->
                    ~ reusable matched (v_type newChild) i cand) ->
      match match_child olds byKey matched i newChild with
      | Some j =>
          (exists cand, olds !! j = Some cand
                        /\ reusable matched (v_type newChild) j cand)
          /\ (forall j' cand, j' < j -> olds !! j' = Some cand ->
                              ~ reusable matched (v_type newChild) j' cand)
      | None =>
          forall j' cand, olds !! j' = Some cand ->
                          ~ reusable matched (v_type newChild) j' cand
      end)
  /\ (forall news k,
        news !! k = Some newChild -> i = k ->
        matched = flags_at olds byKey news k ->
        (match_children olds byKey news 0 (replicate (length olds) false)).1 !! k
        = Some (match_child olds byKey matched i newChild))
  /\ (forall fuel (d d' : diff_fn) unmount parentDom renderResult newParentVNode
             oldParentVNode namespace q oldDom s,
        ((forall n o,
            (n, o) ∈ reconciled_pairs renderResult newParentVNode
                       oldParentVNode s ->
            forall q' refDom st,
              d parentDom (Some n) o namespace q' refDom st
              = d' parentDom (Some n) o namespace q' refDom st) ->
         diffChildren fuel d unmount parentDom renderResult newParentVNode
           oldParentVNode namespace q oldDom s
         = diffChildren fuel d' unmount parentDom renderResult newParentVNode
             oldParentVNode namespace q oldDom s)
        /\ (forall n o,
              (n, o) ∈ reconciled_pairs renderResult newParentVNode
                         oldParentVNode s ->
              (forall q' refDom st, exists e st',
                  d parentDom (Some n) o namespace q' refDom st = Throw e st') ->
              forall q1 s1,
                diffChildren fuel d unmount parentDom renderResult
                  newParentVNode oldParentVNode namespace q oldDom s
                <> Ok q1 s1))
  /\ (forall fuel parentDom v o namespace q oldDom s s1,
        call_option callbacks "_diff" [VNode v] s = Ok tt s1 ->
        (forall tag, v_type (vn s1 v) = TTag tag ->
           diff callbacks components (S fuel) parentDom (Some v) o namespace q
             oldDom s
           = diffElementNode callbacks (S fuel) (diff callbacks components fuel)
               (unmount callbacks (S fuel)) tag parentDom v o namespace q oldDom
               s1)
        /\ (v_type (vn s1 v) = TText ->
            diff callbacks components (S fuel) parentDom (Some v) o namespace q
              oldDom s
            = bind (diffTextNode callbacks (S fuel) parentDom v o oldDom)
                (fun _ => ret q) s1))
  /\ (forall fuel diff unmount tag parentDom newVNode o namespace q oldDom s d,
        v_type (vn s o) = TTag tag -> v_dom (vn s o) = Some d ->
        diffElementNode callbacks fuel diff unmount tag parentDom newVNode (Some o)
          namespace q oldDom s
        = diffElementNode_into callbacks fuel diff unmount d newVNode (Some o)
            (if String.eqb tag "svg" then Some SVG_NAMESPACE else namespace) q s)
  /\ (forall fuel parentDom newVNode o oldDom s d,
        v_type (vn s o) = TText -> v_dom (vn s o) = Some d ->
        diffTextNode callbacks fuel parentDom newVNode (Some o) oldDom s
        = Ok tt (upd_vnode newVNode (set_v_dom (Some d))
                   (if strict_eq (v_props (vn s o)) (v_props (vn s newVNode)) then s
                    else upd_node d (set_d_nodeValue (v_props (vn s newVNode))) s))).
Proof.
  intros Hkey. destruct (match_child_unkeyed olds byKey matched i newChild Hkey)
    as [Hpos Hscan].
  split; [done|]. split.
  - intros Hno. rewrite (Hscan Hno).
    pose proof (scan_unkeyed_spec (v_type newChild) matched olds 0) as Hs.
    destruct (scan_unkeyed olds matched (v_type newChild) 0) as [j|].
    + destruct Hs as (_ & (c & Hc & Hr) & Hmin). rewrite Nat.sub_0_r in Hc.
      split; [by exists c|].
      intros j' c' Hj' Hc'. apply (Hmin j' c'); [lia|]. by rewrite Nat.sub_0_r.
    + intros j' c' Hc'. apply (Hs j' c'); [lia|]. by rewrite Nat.sub_0_r.
  - split; [|split; [|split; [|split]]].
    + intros news k Hk -> ->. by apply match_children_at.
    + intros. split.
      * by apply diffChildren_hands_over.
      * intros n o. by apply diffChildren_calls_diff.
    + intros. by apply diff_dispatch.
    + intros. by apply diffElementNode_reuses_dom.
    + intros. by apply diffTextNode_reuses_dom.
Qed.

End C8.

(** C8, counterexample: an unkeyed new [li] at position 0 does not reuse
    the old [li] at position 0 when that one has a key (a new DOM node is
    created), and an unkeyed new child at position 1 does not reuse the old
    child at position 1 that an earlier new child already took. *)
Lemma C8_counterexample :
  vtype_eqb (v_type (li_vnode (VStr "a"))) (v_type (li_vnode VNull)) = true
  /\ is_nullish (v_key (li_vnode VNull)) = true
  /\ match_child [li_vnode (VStr "a")] (index_keys [li_vnode (VStr "a")] 0 [])
       [false] 0 (li_vnode VNull) = None
  /\ match_child [li_vnode VNull; li_vnode VNull] [] [false; true] 1 (li_vnode VNull)
     = Some 0
  /\ exists s, keyed_then_unkeyed one_container = Ok tt s
               /\ length (nodes s) = 4
               /\ d_childNodes (nd s 1) = [3].
Proof.
  repeat split; try reflexivity.
  eexists. split; [vm_compute; reflexivity|]. split; reflexivity.
Qed.

(** C8, witness: an unkeyed [li] over an unkeyed [li] is matched with it,
    and rendering [ul > li] twice keeps the three DOM nodes (container, [ul],
    [li]) of the first render. *)
Lemma unkeyed_child_reuse_witness :
  match_child [li_vnode VNull] [] [false] 0 (li_vnode VNull) = Some 0
  /\ exists s, unkeyed_twice one_container = Ok tt s
               /\ length (nodes s) = 3
               /\ d_childNodes (nd s 1) = [2].
Proof.
  split.
  - destruct (unkeyed_child_reuse no_result no_components [li_vnode VNull] []
                [false] 0 (li_vnode VNull) eq_refl) as [Hpos _].
    apply (Hpos (li_vnode VNull)); [reflexivity|].
    repeat split.
  - eexists. split; [vm_compute; reflexivity|]. split; reflexivity.
Defined.

(* ------------------------------------------------------------------ *)
(** ** C9: state updates of one turn *)
(* ------------------------------------------------------------------ *)

Lemma enqueueRender_spec c s :
  enqueueRender c s =
  Ok tt (if bool_decide (c ∈ renderQueue s) then s
         else if scheduled s then set_renderQueue (renderQueue s ++ [c]) s
         else set_microtasks (S (microtasks s))
                (set_scheduled true (set_renderQueue (renderQueue s ++ [c]) s))).
Proof.
  unfold enqueueRender, modify. f_equal.
  destruct (bool_decide (c ∈ renderQueue s)); simpl; [done|].
  destruct (scheduled s); reflexivity.
Qed.

(** C9: state updates of one turn do not always cause one re-render.  With
    a parent and its child mounted, two updates of the child and one of the
    parent in the same turn leave each of them once in the render queue,
    with a single microtask scheduled.  Draining that microtask renders the
    parent, whose diff renders the child; the child is still in the queue
    (nothing calls [dequeueRender]) and its vnode is alive, so it is rendered
    a second time: after the drain the child has been re-rendered twice. *)
Theorem queued_child_renders_twice :
  exists s s',
    mount_nested one_container = Ok tt nested_mounted
    /\ same_turn_updates nested_mounted = Ok tt s
    /\ hs_value (slot s 2 0) = VNum 2 /\ hs_value (slot s 1 0) = VNum 1
    /\ renderQueue s = [2; 1] /\ scheduled s = true /\ microtasks s = 1
    /\ log s = log nested_mounted
    /\ run_microtask no_result nested_components 10 s = Ok tt s'
    /\ renderQueue s' = [] /\ scheduled s' = false /\ microtasks s' = 0
    /\ log s' = log nested_mounted
                ++ [EvRender 1 (UserFn 0); EvRender 2 (UserFn 1);
                    EvRender 2 (UserFn 1)]
    /\ renders_of 1 (log s') = renders_of 1 (log nested_mounted) + 1
    /\ renders_of 2 (log s') = renders_of 2 (log nested_mounted) + 2.
Proof.
  eexists. eexists. split; [vm_compute; reflexivity|].
  split; [vm_compute; reflexivity|].
  do 6 (split; [vm_compute; reflexivity|]).
  split; [vm_compute; reflexivity|].
  do 5 (split; [vm_compute; reflexivity|]).
  vm_compute; reflexivity.
Qed.

(* ------------------------------------------------------------------ *)
(** ** C10: the vnodes of the caller *)
(* ------------------------------------------------------------------ *)

Lemma quiet_refl s : quiet s s.
Proof. repeat split. Qed.

Lemma quiet_trans s1 s2 s3 : quiet s1 s2 -> quiet s2 s3 -> quiet s1 s3.
Proof.
  intros (H1 & H2 & H3) (G1 & G2 & G3). split; [congruence|]. split.
  - intros c. destruct (H2 c), (G2 c). split; congruence.
  - intros d. by rewrite G3.
Qed.

#[global] Hint Resolve quiet_refl quiet_trans : keeps.

Ltac quiet_update :=
  intros; unfold quiet, upd_slot, dom_remove; st;
  repeat match goal with
         | |- _ /\ _ => split
         | |- forall _, _ => intro
         | |- context [match ?x with Some _ => _ | None => _ end] => destruct x
         end; st;
  rewrite ?vn_upd_cases, ?cp_upd_cases, ?nd_upd_cases;
  repeat case_decide; try done; st;
  rewrite ?vn_upd_cases, ?cp_upd_cases, ?nd_upd_cases;
  repeat case_decide; try done.

Section Frame.
Variable U : nat -> Prop.

Lemma quiet_unreferenced s s' :
  quiet s s' -> unreferenced U s -> unreferenced U s' /\ untouched U s s'.
Proof.
  intros (Hv & Hc & Hd) (Hb & Hvn & Hcp & Hnd).
  assert (Hvn' : forall w, vn s' w = vn s w) by (intros; unfold vn; by rewrite Hv).
  split; [|by intros u _].
  split; [by rewrite Hv|]. split; [intros w; by rewrite Hvn'|]. split.
  - intros c. destruct (Hc c) as [E1 E2], (Hcp c) as [G1 G2].
    split; [intros v; rewrite E1; apply G1|intros l p; rewrite E2; apply G2].
  - intros d r. rewrite Hd. apply Hnd.
Qed.

Lemma untouched_refl s : untouched U s s.
Proof. by intros u _. Qed.

Lemma untouched_trans s1 s2 s3 :
  untouched U s1 s2 -> untouched U s2 s3 -> untouched U s1 s3.
Proof. intros H1 H2 u Hu. by rewrite H2, H1. Qed.

Lemma safe_quiet {A} (m : M A) : keeps quiet m -> safe U m any.
Proof.
  intros H s Hs. specialize (H s).
  destruct (m s); try done; destruct (quiet_unreferenced _ _ H Hs); done.
Qed.

Lemma safe_weaken {A} (m : M A) (Q Q' : A -> Prop) :
  safe U m Q -> (forall a, Q a -> Q' a) -> safe U m Q'.
Proof.
  intros H HQ s Hs. specialize (H s Hs). destruct (m s); try done.
  destruct H as (? & ? & ?). auto.
Qed.

Lemma safe_ret {A} (a : A) (Q : A -> Prop) : Q a -> safe U (ret a) Q.
Proof. intros H s Hs. simpl. split; [done|]. split; [apply untouched_refl|done]. Qed.

Lemma safe_throw {A} e (Q : A -> Prop) : safe U (@throw A e) Q.
Proof. intros s Hs. simpl. split; [done|apply untouched_refl]. Qed.

Lemma safe_out_of_fuel {A} (Q : A -> Prop) : safe U (@out_of_fuel A) Q.
Proof. by intros s Hs. Qed.

Lemma safe_gets {A} (f : state -> A) (Q : A -> Prop) :
  (forall s, unreferenced U s -> Q (f s)) -> safe U (gets f) Q.
Proof.
  intros H s Hs. simpl. split; [done|]. split; [apply untouched_refl|auto].
Qed.

Lemma safe_modify f :
  (forall s, unreferenced U s -> unreferenced U (f s) /\ untouched U s (f s)) ->
  safe U (modify f) any.
Proof. intros H s Hs. simpl. destruct (H s Hs). done. Qed.

Lemma safe_bind {A B} (m : M A) (k : A -> M B) (Q : A -> Prop) (Q' : B -> Prop) :
  safe U m Q -> (forall a, Q a -> safe U (k a) Q') -> safe U (bind m k) Q'.
Proof.
  intros Hm Hk s Hs. unfold bind. specialize (Hm s Hs).
  destruct (m s) as [a s1|e s1|]; try done.
  destruct Hm as (H1 & H2 & H3). specialize (Hk a H3 s1 H1).
  destruct (k a s1) as [b s2|e s2|]; try done.
  - destruct Hk as (G1 & G2 & G3). split; [done|].
    split; [by eapply untouched_trans|done].
  - destruct Hk as (G1 & G2). split; [done|by eapply untouched_trans].
Qed.

Lemma safe_when b m : safe U m any -> safe U (when b m) any.
Proof. destruct b; [done|]. intros _. by apply safe_ret. Qed.

Lemma safe_for_each {A} (l : list A) body :
  (forall x, x ∈ l -> safe U (body x) any) -> safe U (for_each l body) any.
Proof.
  induction l as [|x l IH]; intros H; simpl; [by apply safe_ret|].
  eapply safe_bind; [apply H; left|]. intros _ _. apply IH.
  intros y Hy. apply H. by right.
Qed.

Lemma safe_try_finally {A} (m : M A) f (Q : A -> Prop) :
  safe U m Q -> (forall s, quiet s (f s)) -> safe U (try_finally m f) Q.
Proof.
  intros Hm Hf s Hs. unfold try_finally. specialize (Hm s Hs).
  destruct (m s) as [a s1|e s1|]; try done.
  - destruct Hm as (H1 & H2 & H3).
    destruct (quiet_unreferenced _ _ (Hf s1) H1) as [G1 G2].
    split; [done|]. split; [by eapply untouched_trans|done].
  - destruct Hm as (H1 & H2).
    destruct (quiet_unreferenced _ _ (Hf s1) H1) as [G1 G2].
    split; [done|by eapply untouched_trans].
Qed.

(** Updates of one heap cell. *)
Lemma unreferenced_upd_vnode v f s :
  ~ U v -> (forall x, vnode_avoids U x -> vnode_avoids U (f x)) ->
  unreferenced U s ->
  unreferenced U (upd_vnode v f s) /\ untouched U s (upd_vnode v f s).
Proof.
  intros Hv Hf (Hb & Hvn & Hcp & Hnd). split.
  - split; [intros u Hu; st; by apply Hb|]. split; [|split; intros; st; auto].
    intros w. rewrite vn_upd_cases. case_decide; auto.
  - intros u Hu. rewrite vn_upd_cases. case_decide as E; [|done].
    destruct E as [-> _]. done.
Qed.

Lemma unreferenced_upd_comp c f s :
  (forall x, component_avoids U x -> component_avoids U (f x)) ->
  unreferenced U s ->
  unreferenced U (upd_comp c f s) /\ untouched U s (upd_comp c f s).
Proof.
  intros Hf (Hb & Hvn & Hcp & Hnd). split; [|by intros u _].
  split; [intros u Hu; st; by apply Hb|]. split; [intros; st; auto|].
  split; [|intros; st; auto].
  intros w. rewrite cp_upd_cases. case_decide; auto.
Qed.

Lemma unreferenced_upd_node d f s :
  (forall x, node_avoids U x -> node_avoids U (f x)) ->
  unreferenced U s ->
  unreferenced U (upd_node d f s) /\ untouched U s (upd_node d f s).
Proof.
  intros Hf (Hb & Hvn & Hcp & Hnd). split; [|by intros u _].
  split; [intros u Hu; st; by apply Hb|]. split; [intros; st; auto|].
  split; [intros; st; auto|].
  intros w. rewrite nd_upd_cases. case_decide; auto.
Qed.

End Frame.

(** The property writer leaves the root cached on a container alone. *)
Lemma d_children_fold {A} (f : domnode -> A -> domnode) (l : list A) n :
  (forall n x, d_children (f n x) = d_children n) ->
  d_children (fold_left f l n) = d_children n.
Proof.
  intros H. revert n. induction l as [|x l IH]; intros n; simpl; [done|].
  by rewrite IH, H.
Qed.

Lemma d_children_setStyleProperty name value n :
  d_children (setStyleProperty name value n) = d_children n.
Proof. unfold setStyleProperty. by destruct (starts_with_dash name). Qed.

Lemma d_children_setStyle value oldValue n :
  d_children (setStyle value oldValue n) = d_children n.
Proof.
  unfold setStyle. destruct (is_string value); [done|].
  assert (E : forall m, d_children
    (if is_object oldValue
     then fold_left (fun acc styleName =>
                       if negb (truthy value && has_prop value styleName)
                       then setStyleProperty styleName (VStr "") acc else acc)
            (keys_of oldValue) m
     else if is_string oldValue then set_d_cssText (VStr "") m else m)
    = d_children m).
  { intros m. destruct (is_object oldValue).
    - apply d_children_fold. intros n0 x. destruct (negb _); [|done].
      apply d_children_setStyleProperty.
    - by destruct (is_string oldValue). }
  cbv zeta. destruct (is_object value); [|apply E].
  rewrite d_children_fold; [apply E|].
  intros n0 x. cbv zeta. destruct (_ || _); [|done].
  apply d_children_setStyleProperty.
Qed.

Lemma d_children_setProperty name value oldValue namespace n :
  d_children (setProperty name value oldValue namespace n) = d_children n.
Proof.
  unfold setProperty, setEventHandler, setAttributeSVG, setPropertyOrAttribute.
  cbv zeta.
  repeat match goal with
         | |- context [if ?b then _ else _] => destruct b; try done
         end;
    apply d_children_setStyle.
Qed.

Lemma d_children_diffProps newProps oldProps namespace n :
  d_children (diffProps newProps oldProps namespace n) = d_children n.
Proof.
  unfold diffProps. cbv zeta. rewrite d_children_fold.
  - apply d_children_fold. intros n0 x. destruct (_ && _); [|done].
    apply d_children_setProperty.
  - intros n0 x. cbv zeta. destruct (_ || _); [|done].
    apply d_children_setProperty.
Qed.

Section Quiet.
Variable callbacks : nat -> list jsval -> jsval.

Lemma quiet_add_log e s : quiet s (add_log e s).
Proof. quiet_update. Qed.

Lemma quiet_call_user f args : keeps quiet (call_user callbacks f args).
Proof. unfold call_user. destruct f; repeat keeps_step. apply quiet_add_log. Qed.

Lemma quiet_call_option name args : keeps quiet (call_option callbacks name args).
Proof. unfold call_option. repeat keeps_step. apply quiet_call_user. Qed.

Lemma quiet_enqueueRender c : keeps quiet (enqueueRender c).
Proof.
  apply keeps_modify. intros s.
  destruct (negb (bool_decide (c ∈ renderQueue s))); [|apply quiet_refl].
  cbn zeta. destruct (negb _); quiet_update.
Qed.

Lemma quiet_invoke_setState c i u : keeps quiet (invoke_setState callbacks c i u).
Proof.
  unfold invoke_setState. repeat keeps_step;
    try apply quiet_call_user; try apply quiet_enqueueRender.
  all: quiet_update.
Qed.

Lemma quiet_invoke_dispatch c i u : keeps quiet (invoke_dispatch callbacks c i u).
Proof.
  unfold invoke_dispatch. repeat keeps_step;
    try apply quiet_call_user; try apply quiet_enqueueRender.
  all: quiet_update.
Qed.

Lemma quiet_call f args : keeps quiet (call callbacks f args).
Proof.
  unfold call. destruct f; try apply quiet_call_user; repeat keeps_step.
  - apply quiet_invoke_setState.
  - apply quiet_invoke_dispatch.
Qed.

Lemma quiet_applyRef ref value : keeps quiet (applyRef callbacks ref value).
Proof.
  unfold applyRef. repeat keeps_step; try apply quiet_call.
  quiet_update.
Qed.

Lemma quiet_next_index : keeps quiet next_index.
Proof. intros s. unfold next_index. quiet_update. Qed.

Lemma quiet_getHookState index : keeps quiet (getHookState index).
Proof.
  unfold getHookState. repeat keeps_step. quiet_update.
  all: by destruct (_ <=? _)%nat.
Qed.

Lemma quiet_upd_slot c i f s : quiet s (upd_slot c i f s).
Proof. quiet_update. Qed.

Lemma quiet_useState init : keeps quiet (useState callbacks init).
Proof.
  unfold useState. repeat keeps_step;
    try apply quiet_next_index; try apply quiet_getHookState;
    try apply quiet_call; try apply quiet_upd_slot.
Qed.

Lemma quiet_useReducer reducer initialArg init :
  keeps quiet (useReducer callbacks reducer initialArg init).
Proof.
  unfold useReducer. repeat keeps_step;
    try apply quiet_next_index; try apply quiet_getHookState;
    try apply quiet_call; try apply quiet_upd_slot.
Qed.

Lemma quiet_useEffect callback deps : keeps quiet (useEffect callback deps).
Proof.
  unfold useEffect. repeat keeps_step;
    try apply quiet_next_index; try apply quiet_getHookState;
    try apply quiet_upd_slot.
  quiet_update.
Qed.

Lemma quiet_useLayoutEffect callback deps :
  keeps quiet (useLayoutEffect callback deps).
Proof.
  unfold useLayoutEffect. repeat keeps_step;
    try apply quiet_next_index; try apply quiet_getHookState;
    try apply quiet_upd_slot.
  quiet_update.
Qed.

Lemma quiet_useMemo_with factory deps :
  keeps quiet factory -> keeps quiet (useMemo_with factory deps).
Proof.
  intros H. unfold useMemo_with. repeat keeps_step;
    try apply quiet_next_index; try apply quiet_getHookState;
    try apply quiet_upd_slot; try apply H.
Qed.

Lemma quiet_useMemo factory deps : keeps quiet (useMemo callbacks factory deps).
Proof. apply quiet_useMemo_with, quiet_call. Qed.

Lemma quiet_useRef initialValue : keeps quiet (useRef initialValue).
Proof.
  apply quiet_useMemo_with. intros s. unfold new_ref_cell. quiet_update.
Qed.

Lemma quiet_useCallback callback deps : keeps quiet (useCallback callback deps).
Proof. apply quiet_useMemo_with. repeat keeps_step. Qed.

Lemma quiet_run_effect c i : keeps quiet (run_effect callbacks c i).
Proof.
  unfold run_effect. repeat keeps_step; try apply quiet_call;
    try apply quiet_upd_slot.
Qed.

Lemma quiet_runPendingEffects c : keeps quiet (runPendingEffects callbacks c).
Proof.
  unfold runPendingEffects. repeat keeps_step; try apply quiet_run_effect.
  all: quiet_update.
Qed.

Lemma quiet_runPendingLayoutEffects c :
  keeps quiet (runPendingLayoutEffects callbacks c).
Proof.
  unfold runPendingLayoutEffects. repeat keeps_step; try apply quiet_run_effect.
  all: quiet_update.
Qed.

Lemma quiet_run_cleanup c i : keeps quiet (run_cleanup callbacks c i).
Proof.
  unfold run_cleanup. repeat keeps_step; try apply quiet_call;
    try apply quiet_upd_slot.
Qed.

Lemma quiet_commitRoot q root : keeps quiet (commitRoot callbacks q root).
Proof.
  unfold commitRoot, afterPaint. repeat keeps_step;
    try apply quiet_applyRef; try apply quiet_runPendingLayoutEffects.
  all: quiet_update.
Qed.

Lemma quiet_run_paint : keeps quiet (run_paint callbacks).
Proof.
  unfold run_paint, run_paint_callback. repeat keeps_step;
    try apply quiet_runPendingEffects.
  all: quiet_update.
Qed.

Lemma quiet_queue_ref newVNode oldVNode value q :
  keeps quiet (queue_ref newVNode oldVNode value q).
Proof. unfold queue_ref. repeat keeps_step. Qed.

(** The DOM operations. *)
Lemma quiet_dom_remove d s : quiet s (dom_remove d s).
Proof. quiet_update. Qed.

Lemma quiet_alloc_node n : d_children n = None -> keeps quiet (alloc_node n).
Proof.
  intros Hn s. unfold alloc_node. split; [done|]. split; [done|].
  intros d. unfold nd. cbn [nodes set_nodes].
  destruct (decide (d < length (nodes s))) as [Hd|Hd].
  - by rewrite lookup_app_l.
  - rewrite (lookup_ge_None_2 (nodes s)) by lia.
    destruct (decide (d = length (nodes s))) as [->|Hne].
    + rewrite lookup_app_r by lia. by rewrite Nat.sub_diag.
    + rewrite lookup_ge_None_2; [done|]. rewrite length_app. simpl. lia.
Qed.

Lemma quiet_appendChild parent node : keeps quiet (appendChild parent node).
Proof. unfold appendChild. apply keeps_modify. quiet_update. Qed.

Lemma quiet_insertBefore parent node ref :
  keeps quiet (insertBefore parent node ref).
Proof.
  destruct ref as [r|]; [|apply quiet_appendChild].
  intros s. unfold insertBefore. destruct (negb _); [apply quiet_refl|].
  cbv zeta. quiet_update.
Qed.

Lemma quiet_getFirstDom fuel : forall v, keeps quiet (getFirstDom fuel v).
Proof.
  induction fuel as [|fuel IH]; intros [v|]; simpl; repeat keeps_step.
  induction (default [] (v_children a)) as [|c r IHr]; repeat keeps_step;
    try apply IH; try apply IHr.
Qed.

Lemma quiet_getLastDom fuel : forall v, keeps quiet (getLastDom fuel v).
Proof.
  induction fuel as [|fuel IH]; intros [v|]; simpl; repeat keeps_step.
  induction (rev (default [] (v_children a))) as [|c r IHr]; repeat keeps_step;
    try apply IH; try apply IHr.
Qed.

Lemma quiet_placeChild fuel : forall parentDom v refDom,
  keeps quiet (placeChild fuel parentDom v refDom).
Proof.
  induction fuel as [|fuel IH]; intros parentDom v refDom; simpl;
    repeat keeps_step; try apply quiet_insertBefore.
  revert refDom. induction l as [|c r IHr]; intros refDom; repeat keeps_step;
    try apply IH; try apply quiet_getLastDom; try apply IHr.
Qed.

End Quiet.

Section Safe.
Variable U : nat -> Prop.
Variable callbacks : nat -> list jsval -> jsval.
Variable components : nat -> jsval -> M jsval.

(** What is read through the references of a state without references into
    [U]. *)
Lemma children_avoid s w l y :
  unreferenced U s -> v_children (vn s w) = Some l -> y ∈ l -> ~ U y.
Proof. intros (_ & H & _) Hl Hy. by apply (proj1 (H w) l y). Qed.

Lemma children_opt_avoid s o y :
  unreferenced U s -> y ∈ default [] (v_children (vn_opt s o)) -> ~ U y.
Proof.
  intros Hs Hy. destruct o as [w|]; simpl in Hy; [|inversion Hy].
  destruct (v_children (vn s w)) eqn:E; simpl in Hy; [|inversion Hy].
  by eapply children_avoid.
Qed.

Lemma parent_avoids s w p :
  unreferenced U s -> v_parent (vn s w) = Some p -> ~ U p.
Proof. intros (_ & H & _) Hp. by apply (proj2 (H w) p). Qed.

Lemma c_vnode_avoids s c v :
  unreferenced U s -> c_vnode (cp s c) = Some v -> ~ U v.
Proof. intros (_ & _ & H & _) Hv. by apply (proj1 (H c) v). Qed.

Lemma subscriptions_avoid s c l p :
  unreferenced U s -> c_contextSubscriptions (cp s c) = Some l -> p ∈ l -> ~ U p.
Proof. intros (_ & _ & H & _) Hl Hp. by apply (proj2 (H c) l p). Qed.

Lemma cached_root_avoids s d r :
  unreferenced U s -> d_children (nd s d) = Some r -> ~ U r.
Proof. intros (_ & _ & _ & H) Hr. by apply (H d r). Qed.

(** [createVNode] yields a vnode that is not one of [U]. *)
Lemma unreferenced_alloc_vnode x s :
  v_children x = None -> v_parent x = None -> unreferenced U s ->
  unreferenced U (set_vnodes (vnodes s ++ [x]) s)
  /\ untouched U s (set_vnodes (vnodes s ++ [x]) s)
  /\ ~ U (length (vnodes s)).
Proof.
  intros Hc Hp (Hb & Hvn & Hcp & Hnd).
  assert (Hnew : ~ U (length (vnodes s))) by (intros Hu; apply Hb in Hu; lia).
  assert (Hlook : forall w, vn (set_vnodes (vnodes s ++ [x]) s) w = vn s w
                            \/ vn (set_vnodes (vnodes s ++ [x]) s) w = x).
  { intros w. unfold vn. cbn [vnodes set_vnodes].
    destruct (decide (w < length (vnodes s))).
    - left. by rewrite lookup_app_l.
    - rewrite lookup_app_r by lia.
      destruct (w - length (vnodes s)) as [|k] eqn:E; simpl; [by right|].
      left. by rewrite lookup_ge_None_2 by lia. }
  split; [|split; [|done]].
  - split.
    { intros u Hu. cbn [vnodes set_vnodes]. rewrite length_app.
      apply Hb in Hu. lia. }
    split; [|split; intros; st; auto].
    intros w. destruct (Hlook w) as [-> | ->]; [done|].
    split; [intros l y; by rewrite Hc|intros p; by rewrite Hp].
  - intros u Hu. unfold vn. cbn [vnodes set_vnodes].
    rewrite lookup_app_l; [done|by apply Hb].
Qed.

Lemma safe_createVNode type props key ref :
  safe U (createVNode type props key ref) (fun v => ~ U v).
Proof. intros s Hs. unfold createVNode. by apply unreferenced_alloc_vnode. Qed.

Lemma safe_call_option name args : safe U (call_option callbacks name args) any.
Proof. apply safe_quiet, quiet_call_option. Qed.

Lemma safe_h type props children : safe U (h callbacks type props children) any.
Proof.
  unfold h. cbv zeta. eapply safe_bind; [apply safe_createVNode|].
  intros v _. eapply safe_bind; [apply safe_call_option|].
  intros _ _. by apply safe_ret.
Qed.

Lemma safe_createPortal children container :
  safe U (createPortal children container) any.
Proof.
  unfold createPortal. eapply safe_weaken; [apply safe_createVNode|done].
Qed.

(** Field updates of a vnode that the engine holds. *)
Lemma safe_upd_vnode v f :
  ~ U v -> (forall x, vnode_avoids U x -> vnode_avoids U (f x)) ->
  safe U (modify (upd_vnode v f)) any.
Proof. intros Hv Hf. apply safe_modify. intros s. by apply unreferenced_upd_vnode. Qed.

Lemma safe_upd_comp c f :
  (forall x, component_avoids U x -> component_avoids U (f x)) ->
  safe U (modify (upd_comp c f)) any.
Proof. intros Hf. apply safe_modify. intros s. by apply unreferenced_upd_comp. Qed.

Lemma safe_upd_node d f :
  (forall x, node_avoids U x -> node_avoids U (f x)) ->
  safe U (modify (upd_node d f)) any.
Proof. intros Hf. apply safe_modify. intros s. by apply unreferenced_upd_node. Qed.

Lemma vnode_avoids_set_v_subs l x :
  vnode_avoids U x -> vnode_avoids U (set_v_subs l x).
Proof. done. Qed.

Lemma vnode_avoids_set_v_dom d x :
  vnode_avoids U x -> vnode_avoids U (set_v_dom d x).
Proof. done. Qed.

Lemma vnode_avoids_set_v_component c x :
  vnode_avoids U x -> vnode_avoids U (set_v_component c x).
Proof. done. Qed.

Lemma vnode_avoids_set_v_children l x :
  (forall y, y ∈ default [] l -> ~ U y) ->
  vnode_avoids U x -> vnode_avoids U (set_v_children l x).
Proof.
  intros Hl [_ Hp]. split; [|done]. simpl. intros l' y -> Hy. by apply Hl.
Qed.

Lemma vnode_avoids_set_v_place p d i x :
  ~ U p -> vnode_avoids U x -> vnode_avoids U (set_v_place (Some p) d i x).
Proof. intros Hp [Hc _]. split; [done|]. simpl. by intros ? [= <-]. Qed.

Lemma component_avoids_set_c_props p x :
  component_avoids U x -> component_avoids U (set_c_props p x).
Proof. done. Qed.

Lemma component_avoids_set_c_vnode v x :
  ~ U v -> component_avoids U x -> component_avoids U (set_c_vnode (Some v) x).
Proof. intros Hv [_ Hs]. split; [|done]. simpl. by intros ? [= <-]. Qed.

Lemma component_avoids_set_c_subs l x :
  (forall p, p ∈ l -> ~ U p) ->
  component_avoids U x -> component_avoids U (set_c_subs (Some l) x).
Proof. intros Hl [Hv _]. split; [done|]. simpl. intros ? p [= <-]. apply Hl. Qed.

Lemma node_avoids_set_d_children r x :
  ~ U r -> node_avoids U x -> node_avoids U (set_d_children (Some r) x).
Proof. intros Hr _ r'. simpl. by intros [= <-]. Qed.

(** context.js *)
Lemma safe_findProvider fuel ctx : forall start,
  (forall v, start = Some v -> ~ U v) ->
  safe U (findProvider fuel ctx start) (fun r => forall p, r = Some p -> ~ U p).
Proof.
  induction fuel as [|fuel IH]; intros [v|] Hv; simpl;
    try (apply safe_ret; by intros p [=]); try apply safe_out_of_fuel.
  eapply safe_bind;
    [apply (safe_gets U _ (fun a => exists s, unreferenced U s /\ a = vn s v));
     eauto|].
  intros ? (s0 & Hs0 & ->).
  destruct (is_provider_of ctx (v_type (vn s0 v))).
  - apply safe_ret. intros p [= <-]. by apply Hv.
  - apply IH. intros p Hp. by eapply parent_avoids.
Qed.

Lemma elem_of_set_add x y l : x ∈ set_add y l -> x = y \/ x ∈ l.
Proof.
  unfold set_add. case_bool_decide; [by right|].
  rewrite elem_of_app, list_elem_of_singleton. tauto.
Qed.

Lemma safe_subscribeToProvider p c :
  ~ U p -> safe U (subscribeToProvider p c) any.
Proof.
  intros Hp. unfold subscribeToProvider.
  eapply safe_bind; [by apply safe_upd_vnode|]. intros _ _.
  apply safe_modify. intros s Hs. apply unreferenced_upd_comp; [|done].
  intros x [Hv Hl]. split; [done|]. simpl. intros ? q [= <-] Hq.
  apply elem_of_set_add in Hq as [->|Hq]; [done|].
  destruct (c_contextSubscriptions x) eqn:E; simpl in Hq; [|inversion Hq].
  by eapply Hl.
Qed.

Lemma safe_useContext fuel ctx : safe U (useContext fuel ctx) any.
Proof.
  unfold useContext.
  eapply safe_bind; [by apply (safe_gets U _ any)|]. intros [c|] _;
    [|apply safe_throw].
  eapply safe_bind;
    [apply (safe_gets U _ (fun a => exists s, unreferenced U s
                                     /\ a = c_vnode (cp s c))); eauto|].
  intros ? (s0 & Hs0 & ->). destruct (c_vnode (cp s0 c)) as [v|] eqn:Ev;
    [|by apply safe_ret].
  eapply safe_bind;
    [apply (safe_gets U _ (fun a => exists s, unreferenced U s
                                     /\ a = v_parent (vn s v))); eauto|].
  intros ? (s1 & Hs1 & ->).
  eapply safe_bind.
  { apply safe_findProvider. intros p Hp. by eapply parent_avoids. }
  intros [p|] Hp; [|by apply safe_ret].
  eapply safe_bind; [apply safe_subscribeToProvider; by apply Hp|].
  intros _ _. by apply safe_gets.
Qed.

Lemma safe_cleanupContextSubscriptions c :
  safe U (cleanupContextSubscriptions c) any.
Proof.
  unfold cleanupContextSubscriptions.
  eapply safe_bind;
    [apply (safe_gets U _ (fun a => exists s, unreferenced U s
                        /\ a = c_contextSubscriptions (cp s c))); eauto|].
  intros ? (s0 & Hs0 & ->).
  destruct (c_contextSubscriptions (cp s0 c)) as [l|] eqn:El;
    [|by apply safe_ret].
  eapply safe_bind.
  { apply safe_for_each. intros p Hp. apply safe_upd_vnode; [|done].
    by eapply subscriptions_avoid. }
  intros _ _. apply safe_upd_comp. intros x Hx.
  apply component_avoids_set_c_subs; [|done]. intros p Hp. inversion Hp.
Qed.

Lemma safe_runCleanups c : safe U (runCleanups callbacks c) any.
Proof.
  unfold runCleanups.
  eapply safe_bind; [by apply (safe_gets U _ any)|]. intros n _.
  eapply safe_bind.
  { apply safe_for_each. intros i _. apply safe_quiet, quiet_run_cleanup. }
  intros _ _. apply safe_cleanupContextSubscriptions.
Qed.

(** Reading a field: the value comes from a state without references into
    [U]. *)
Ltac safe_read :=
  match goal with
  | |- safe _ (bind (gets ?f) _) _ =>
      eapply safe_bind;
      [apply (safe_gets U f (fun a => exists s, unreferenced U s /\ a = f s));
       eauto
      | intros ? (? & ? & ->); cbv beta]
  end.

(** A first step that is quiet. *)
Ltac safe_quietly tac :=
  match goal with
  | |- safe _ (bind _ _) _ =>
      eapply safe_bind; [apply safe_quiet; tac | intros ? _; cbv beta]
  end.

Ltac safe_then tac :=
  match goal with
  | |- safe _ (bind _ _) _ =>
      eapply safe_bind; [tac | intros ? ?; cbv beta]
  end.

(** diff.js: [unmount] *)
Lemma safe_unmount fuel : forall v anc skip,
  (forall x, v = Some x -> ~ U x) ->
  safe U (unmount callbacks fuel v anc skip) any.
Proof.
  induction fuel as [|fuel IH]; intros [v|] anc skip Hv; simpl;
    try (by apply safe_ret); try apply safe_out_of_fuel.
  assert (Hnv : ~ U v) by (by apply Hv).
  safe_quietly ltac:(apply quiet_call_option).
  safe_read.
  safe_then ltac:(instantiate (1 := any)).
  { destruct (v_component _); [apply safe_runCleanups|by apply safe_ret]. }
  safe_quietly ltac:(apply keeps_when; eauto with keeps; apply quiet_applyRef).
  safe_read.
  safe_quietly ltac:(idtac).
  { destruct (v_dom _); repeat keeps_step. apply quiet_dom_remove. }
  safe_read. safe_read.
  safe_then ltac:(instantiate (1 := any)).
  { destruct (v_children (vn _ v)) as [l|] eqn:El; [|by apply safe_ret].
    apply safe_for_each. intros child Hchild. apply IH.
    intros ? [= <-]. by eapply children_avoid. }
  safe_then ltac:(by apply safe_upd_vnode).
  safe_then ltac:(by apply safe_upd_vnode).
  apply safe_upd_vnode; [done|]. intros y Hy.
  apply vnode_avoids_set_v_children; [|done]. intros ? Hin. inversion Hin.
Qed.

(** children.js: normalization yields vnodes that are not of [U]. *)

Lemma all_avoid_snoc l x : all_avoid U l -> ~ U x -> all_avoid U (l ++ [x]).
Proof.
  intros Hl Hx y Hy. apply elem_of_app in Hy as [Hy|Hy]; [by apply Hl|].
  apply list_elem_of_singleton in Hy as ->. done.
Qed.

Lemma safe_console_warn msg arg : safe U (console_warn msg arg) any.
Proof. apply safe_quiet, keeps_modify. intros s. apply quiet_add_log. Qed.

Lemma safe_normalizeChildren children : forall normalized,
  all_avoid U normalized ->
  safe U (normalizeChildren children normalized) (all_avoid U).
Proof.
  induction children as [v Hleaf|l IH|l _] using jsval_nested_ind;
    intros normalized Hn.
  - destruct v; try done; simpl;
      try (by apply safe_ret);
      try (safe_then ltac:(apply safe_console_warn); by apply safe_ret);
      try (safe_then ltac:(apply safe_createVNode); apply safe_ret;
           by apply all_avoid_snoc).
    safe_read. destruct (v_type _);
      try (safe_then ltac:(apply safe_createVNode); apply safe_ret;
           by apply all_avoid_snoc).
    safe_then ltac:(apply safe_console_warn). by apply safe_ret.
  - simpl. revert normalized Hn.
    induction IH as [|x r Hx _ IHr]; intros normalized Hn; [by apply safe_ret|].
    safe_then ltac:(by apply Hx). by apply IHr.
  - simpl. safe_then ltac:(apply safe_console_warn). by apply safe_ret.
Qed.

(** children.js: [diffChildren], for any [diff] and [unmount] that are safe
    on vnodes outside [U]. *)
Lemma elem_of_unmatched (matched : list bool) (oldChildren : list nat) y :
  y ∈ map snd (filter (fun p : bool * nat => p.1 = false) (zip matched oldChildren)) ->
  y ∈ oldChildren.
Proof.
  intros Hy. apply list_elem_of_fmap in Hy as ([b y'] & -> & Hin).
  apply list_elem_of_filter in Hin as [_ Hin]. by apply elem_of_zip_r in Hin.
Qed.

Lemma elem_of_matched (oldChildren : list nat) (matchedIndex : list (option nat)) o :
  Some o ∈ map (fun m : option nat => m ≫= fun j => oldChildren !! j) matchedIndex ->
  o ∈ oldChildren.
Proof.
  intros Ho. apply list_elem_of_fmap in Ho as ([j|] & Hj & _); [|done].
  simpl in Hj. symmetry in Hj. by eapply list_elem_of_lookup_2.
Qed.

Lemma safe_diffChildren fuel diff unmount parentDom renderResult newParentVNode
    oldParentVNode namespace q oldDom :
  safe_diff U diff -> safe_unmount_fn U unmount -> ~ U newParentVNode ->
  safe U (diffChildren fuel diff unmount parentDom renderResult newParentVNode
            oldParentVNode namespace q oldDom) any.
Proof.
  intros Hdiff Hunmount Hparent. unfold diffChildren.
  safe_read. rename x into s0, H into Hs0.
  assert (Hold : all_avoid U (default [] (v_children (vn_opt s0 oldParentVNode)))).
  { intros y Hy. by eapply children_opt_avoid. }
  generalize dependent (default [] (v_children (vn_opt s0 oldParentVNode))).
  intros oldChildren Hold.
  safe_then ltac:(apply safe_normalizeChildren; intros y Hy; inversion Hy).
  rename a into newChildren, H into Hnew.
  safe_then ltac:(apply safe_upd_vnode; [done|]; intros y Hy;
                  by apply vnode_avoids_set_v_children).
  destruct newChildren as [|n0 newChildren'].
  { safe_then ltac:(apply safe_for_each; intros c Hc; apply Hunmount;
                    intros ? [= <-]; by apply Hold).
    by apply safe_ret. }
  generalize dependent (n0 :: newChildren'). intros newChildren Hnew.
  safe_read. safe_read. cbv zeta.
  destruct (match_children _ _ _ _ _) as [matchedIndex matched].
  match goal with
  | |- safe _ (bind (?F ?l0 None q) _) _ =>
      set (loop := F);
      assert (Hloop : forall l1 prev q0,
                 (forall i nc oc, (i, (nc, oc)) ∈ l1 ->
                                  ~ U nc /\ forall o, oc = Some o -> ~ U o) ->
                 safe U (loop l1 prev q0) any)
  end.
  { induction l1 as [|[i [nc oc]] r IHr]; intros prev q0 Hl; [by apply safe_ret|].
    destruct (Hl i nc oc) as [Hnc Hoc]; [left|].
    assert (Hr : forall p q1, safe U (loop r p q1) any).
    { intros p q1. apply IHr. intros i' nc' oc' Hin. apply (Hl i' nc' oc'). by right. }
    unfold loop at 1. cbn iota beta. fold loop.
    safe_read.
    safe_then ltac:(apply safe_upd_vnode; [done|]; intros y Hy;
                    by apply vnode_avoids_set_v_place).
    safe_quietly ltac:(idtac).
    { destruct prev; [repeat keeps_step|].
      match goal with |- keeps quiet (_ ?us0) => generalize us0 end.
      intros us. induction us as [|u us IHu]; repeat keeps_step;
        try apply quiet_getFirstDom; try apply IHu. }
    safe_then ltac:(by apply Hdiff; [intros ? [= <-]|]).
    safe_quietly ltac:(apply quiet_getFirstDom).
    safe_quietly ltac:(apply quiet_getLastDom).
    match goal with
    | |- safe _ (match ?fd with Some _ => _ | None => _ end) _ =>
        destruct fd; [|apply Hr]
    end.
    safe_read.
    safe_quietly ltac:(apply keeps_when; eauto with keeps; apply quiet_placeChild).
    apply Hr. }
  safe_then ltac:(apply Hloop).
  { intros i nc oc Hin. apply elem_of_zip_r in Hin.
    pose proof (elem_of_zip_l _ _ _ _ Hin) as Hnc.
    apply elem_of_zip_r in Hin. split; [by apply Hnew|].
    intros o ->. apply Hold. by eapply elem_of_matched. }
  match goal with |- safe _ (match ?p with (_, _) => _ end) _ => destruct p end.
  safe_then ltac:(apply safe_for_each; intros c Hc; apply Hunmount;
                  intros ? [= <-]; apply Hold; by eapply elem_of_unmatched).
  by apply safe_ret.
Qed.

(** diff.js *)
Lemma safe_unmount_is_fn fuel : safe_unmount_fn U (unmount callbacks fuel).
Proof. intros v anc skip Hv. by apply safe_unmount. Qed.

Lemma safe_diffTextNode fuel parentDom newVNode oldVNode oldDom :
  ~ U newVNode -> (forall o, oldVNode = Some o -> ~ U o) ->
  safe U (diffTextNode callbacks fuel parentDom newVNode oldVNode oldDom) any.
Proof.
  intros Hnew Hold. unfold diffTextNode. safe_read. safe_read.
  assert (Hfresh : safe U
    (bind (createTextNode (v_props (vn x newVNode)))
       (fun d =>
          bind (modify (upd_vnode newVNode (set_v_dom (Some d))))
            (fun _ =>
               bind (insertBefore parentDom d oldDom)
                 (fun _ =>
                    match oldVNode, v_dom (vn_opt x0 oldVNode) with
                    | Some _, Some _ => unmount callbacks fuel oldVNode oldVNode true
                    | _, _ => ret tt
                    end)))) any).
  { safe_quietly ltac:(by apply quiet_alloc_node).
    safe_then ltac:(by apply safe_upd_vnode).
    safe_quietly ltac:(apply quiet_insertBefore).
    destruct oldVNode; [|by apply safe_ret].
    destruct (v_dom _); [|by apply safe_ret]. by apply safe_unmount. }
  destruct oldVNode as [o|]; [|exact Hfresh].
  destruct (v_type (vn_opt x0 (Some o))); try exact Hfresh.
  destruct (v_dom (vn_opt x0 (Some o))); [|exact Hfresh].
  safe_quietly ltac:(apply keeps_when; eauto with keeps; apply keeps_modify;
                     quiet_update).
  by apply safe_upd_vnode.
Qed.

Lemma safe_new_component newVNode :
  ~ U newVNode -> safe U (new_component newVNode) any.
Proof.
  intros Hv s (Hb & Hvn & Hcp & Hnd). unfold new_component.
  split; [|split; [by intros u _|done]].
  split; [done|]. split; [done|]. split; [|done].
  intros c. unfold cp. cbn [comps set_comps].
  destruct (decide (c < length (comps s))) as [Hc|Hc].
  - rewrite lookup_app_l by done. apply (Hcp c).
  - rewrite lookup_app_r by lia.
    destruct (c - length (comps s)) as [|k]; simpl.
    + split; [by intros ? [= <-]|done].
    + split; done.
Qed.

Hypothesis components_safe : forall n props, safe U (components n props) any.

Lemma safe_call_component c f props :
  safe U (call_component components c f props) any.
Proof.
  unfold call_component.
  safe_quietly ltac:(apply keeps_modify; intros; apply quiet_add_log).
  destruct f; try (by apply safe_ret). apply components_safe.
Qed.

Lemma quiet_set_current c i s : quiet s (set_current c i s).
Proof. quiet_update. Qed.

Lemma safe_queue_then newVNode oldVNode value q1 :
  safe U (bind (queue_ref newVNode oldVNode value q1)
            (fun q3 => bind (call_option callbacks "diffed" [VNode newVNode])
                         (fun _ => ret q3))) any.
Proof.
  safe_quietly ltac:(apply quiet_queue_ref).
  safe_quietly ltac:(apply quiet_call_option). by apply safe_ret.
Qed.

Lemma safe_diffComponent fuel diff unmount newType parentDom newVNode oldVNode
    namespace q oldDom :
  safe_diff U diff -> safe_unmount_fn U unmount -> ~ U newVNode ->
  safe U (diffComponent callbacks components fuel diff unmount newType parentDom
            newVNode oldVNode namespace q oldDom) any.
Proof.
  intros Hdiff Hunmount Hnew. unfold diffComponent.
  safe_read.
  safe_then ltac:(instantiate (1 := any)).
  { destruct (v_component _) as [c|]; [|by apply safe_new_component].
    destruct (vtype_eqb _ _); [by apply safe_ret|].
    safe_then ltac:(by apply safe_new_component).
    safe_then ltac:(apply safe_runCleanups). by apply safe_ret. }
  safe_read.
  safe_then ltac:(by apply safe_upd_comp).
  safe_then ltac:(apply safe_upd_comp; intros y Hy;
                  by apply component_avoids_set_c_vnode).
  safe_then ltac:(by apply safe_upd_vnode).
  safe_quietly ltac:(apply keeps_modify; intros; apply quiet_set_current).
  safe_quietly ltac:(apply quiet_call_option).
  safe_then ltac:(apply safe_try_finally;
                  [apply safe_call_component|intros; apply quiet_set_current]).
  cbv zeta.
  safe_then ltac:(by apply safe_diffChildren).
  safe_read. apply safe_queue_then.
Qed.

Lemma safe_diffElementNode_into fuel diff unmount dom newVNode oldVNode
    namespace q :
  safe_diff U diff -> safe_unmount_fn U unmount -> ~ U newVNode ->
  safe U (diffElementNode_into callbacks fuel diff unmount dom newVNode oldVNode
            namespace q) any.
Proof.
  intros Hdiff Hunmount Hnew. unfold diffElementNode_into.
  safe_then ltac:(by apply safe_upd_vnode).
  safe_read. safe_read.
  safe_then ltac:(apply safe_upd_node; intros y Hy r;
                  rewrite d_children_diffProps; apply Hy).
  safe_read.
  safe_then ltac:(by apply safe_diffChildren).
  apply safe_queue_then.
Qed.

Lemma safe_diffElementNode fuel diff unmount newType parentDom newVNode oldVNode
    namespace q oldDom :
  safe_diff U diff -> safe_unmount_fn U unmount -> ~ U newVNode ->
  (forall o, oldVNode = Some o -> ~ U o) ->
  safe U (diffElementNode callbacks fuel diff unmount newType parentDom newVNode
            oldVNode namespace q oldDom) any.
Proof.
  intros Hdiff Hunmount Hnew Hold. unfold diffElementNode. cbv zeta.
  safe_read.
  safe_then ltac:(instantiate (1 := any)).
  { destruct (if vtype_eqb _ _ then _ else _); [by apply safe_ret|].
    safe_quietly ltac:(destruct (if String.eqb newType "svg" then _ else _);
                        by apply quiet_alloc_node).
    safe_quietly ltac:(apply quiet_insertBefore).
    safe_then ltac:(instantiate (1 := any)).
    { destruct (v_dom _); [by apply Hunmount|by apply safe_ret]. }
    by apply safe_ret. }
  by apply safe_diffElementNode_into.
Qed.

Lemma safe_diffPortal fuel diff unmount parentDom newVNode oldVNode namespace q
    oldDom :
  safe_diff U diff -> safe_unmount_fn U unmount -> ~ U newVNode ->
  safe U (diffPortal callbacks fuel diff unmount parentDom newVNode oldVNode
            namespace q oldDom) any.
Proof.
  intros Hdiff Hunmount Hnew. unfold diffPortal. cbv zeta.
  safe_read. safe_read. safe_read.
  match goal with
  | |- safe _ (match ?v with Some _ => _ | None => _ end) _ => destruct v
  end.
  2: { safe_quietly ltac:(apply keeps_modify; intros; apply quiet_add_log).
       by apply safe_ret. }
  safe_read.
  safe_then ltac:(instantiate (1 := any)).
  { destruct (_ && _); [|by apply safe_ret].
    destruct (v_children _) as [l|] eqn:El; [|by apply safe_ret].
    apply safe_for_each. intros c Hc. apply Hunmount. intros ? [= <-].
    destruct oldVNode as [o|]; simpl in El; [|done].
    by eapply children_avoid. }
  safe_read. safe_read.
  safe_then ltac:(by apply safe_diffChildren).
  safe_then ltac:(by apply safe_upd_vnode).
  apply safe_queue_then.
Qed.

Lemma safe_diff_is_fn fuel : safe_diff U (diff callbacks components fuel).
Proof.
  induction fuel as [|fuel IH];
    intros parentDom newVNode oldVNode namespace q oldDom Hnew Hold;
    [apply safe_out_of_fuel|].
  cbn [diff]. destruct newVNode as [v|].
  - assert (Hv : ~ U v) by (by apply Hnew).
    safe_quietly ltac:(apply quiet_call_option).
    safe_read. destruct (v_type _).
    + safe_then ltac:(by apply safe_diffTextNode). by apply safe_ret.
    + apply safe_diffElementNode; try done. apply safe_unmount_is_fn.
    + apply safe_diffComponent; try done. apply safe_unmount_is_fn.
    + apply safe_diffPortal; try done. apply safe_unmount_is_fn.
    + safe_then ltac:(apply safe_console_warn). by apply safe_ret.
  - safe_then ltac:(instantiate (1 := any)).
    { destruct oldVNode; [by apply safe_unmount|by apply safe_ret]. }
    by apply safe_ret.
Qed.

(** scheduler.js and render.js *)
Lemma quiet_getParentDom_from fuel : forall p,
  keeps quiet (getParentDom_from fuel p).
Proof.
  induction fuel as [|fuel IH]; intros [p|]; simpl; repeat keeps_step.
  apply IH.
Qed.

Lemma safe_renderComponent fuel c :
  safe U (renderComponent callbacks components fuel c) any.
Proof.
  unfold renderComponent. safe_read.
  destruct (c_vnode (cp x c)) as [vnode|] eqn:Ev; [|by apply safe_ret].
  assert (Hv : ~ U vnode) by (by eapply c_vnode_avoids).
  safe_quietly ltac:(unfold getParentDom; repeat keeps_step;
                     apply quiet_getParentDom_from).
  match goal with
  | |- safe _ (match ?v with Some _ => _ | None => _ end) _ =>
      destruct v; [|by apply safe_ret]
  end.
  safe_read. cbv zeta.
  safe_quietly ltac:(apply keeps_modify; intros; apply quiet_set_current).
  safe_read. safe_read.
  safe_then ltac:(instantiate (1 := any)).
  { destruct (v_type _);
      apply safe_try_finally;
      try apply safe_throw; try apply safe_call_component;
      intros; apply quiet_set_current. }
  safe_quietly ltac:(apply quiet_getFirstDom).
  safe_then ltac:(apply safe_diffChildren;
                  [apply safe_diff_is_fn|apply safe_unmount_is_fn|done]).
  safe_read. apply safe_quiet, quiet_commitRoot.
Qed.

Lemma safe_drain fuel : safe U (drain callbacks components fuel) any.
Proof.
  induction fuel as [|fuel IH]; simpl; [apply safe_out_of_fuel|].
  safe_read. destruct (renderQueue _) as [|c rest]; [by apply safe_ret|].
  safe_quietly ltac:(apply keeps_modify; quiet_update).
  safe_read. destruct (c_vnode _); [|done].
  safe_then ltac:(apply safe_renderComponent). done.
Qed.

Lemma safe_processRenderQueue fuel :
  safe U (processRenderQueue callbacks components fuel) any.
Proof.
  unfold processRenderQueue.
  safe_quietly ltac:(apply keeps_modify; quiet_update).
  safe_quietly ltac:(apply keeps_modify; quiet_update).
  apply safe_drain.
Qed.

Lemma safe_run_microtask fuel :
  safe U (run_microtask callbacks components fuel) any.
Proof.
  unfold run_microtask. safe_read.
  destruct (microtasks _); [by apply safe_ret|].
  safe_quietly ltac:(apply keeps_modify; quiet_update).
  apply safe_processRenderQueue.
Qed.

Lemma safe_render fuel vnode container :
  safe U (render callbacks components fuel vnode container) any.
Proof.
  unfold render. safe_read. rename x into s0, H into Hs0.
  safe_then ltac:(apply safe_createVNode).
  safe_then ltac:(by apply safe_upd_vnode).
  safe_then ltac:(apply safe_upd_node; intros y Hy;
                  by apply node_avoids_set_d_children).
  safe_read. cbv zeta.
  safe_quietly ltac:(apply quiet_call_option).
  safe_read.
  safe_then ltac:(apply safe_diff_is_fn;
                  [by intros ? [= <-]
                  |intros o Ho; exact (cached_root_avoids s0 container o Hs0 Ho)]).
  safe_quietly ltac:(apply quiet_commitRoot).
  apply safe_quiet, quiet_call_option.
Qed.

End Safe.

Lemma normalizeChildren_clone c normalized s :
  v_type (vn s c) <> TUndefined ->
  normalizeChildren (VNode c) normalized s
  = Ok (normalized ++ [length (vnodes s)])
       (set_vnodes (vnodes s ++ [clone_of (vn s c)]) s).
Proof.
  intros Ht. simpl. unfold bind, gets, clone_of.
  by destruct (v_type (vn s c)).
Qed.

Lemma normalizeChildren_fresh children : forall normalized s,
  exists clones s',
    normalizeChildren children normalized s
    = Ok (normalized ++ seq (length (vnodes s)) (length clones)) s'
    /\ vnodes s' = vnodes s ++ clones
    /\ comps s' = comps s /\ nodes s' = nodes s
    /\ Forall unattached clones.
Proof.
  assert (Hnone : forall normalized s (s' : state),
             vnodes s' = vnodes s -> comps s' = comps s -> nodes s' = nodes s ->
             exists clones s'',
               Ok normalized s'
               = Ok (normalized ++ seq (length (vnodes s)) (length clones)) s''
               /\ vnodes s'' = vnodes s ++ clones
               /\ comps s'' = comps s /\ nodes s'' = nodes s
               /\ Forall unattached clones).
  { intros normalized s s' H1 H2 H3. exists [], s'. simpl.
    rewrite !app_nil_r. repeat split; try done. }
  assert (Hone : forall normalized s type props key ref,
             exists clones s'',
               bind (createVNode type props key ref)
                 (fun t => ret (normalized ++ [t])) s
               = Ok (normalized ++ seq (length (vnodes s)) (length clones)) s''
               /\ vnodes s'' = vnodes s ++ clones
               /\ comps s'' = comps s /\ nodes s'' = nodes s
               /\ Forall unattached clones).
  { intros normalized s type props key ref. eexists [_], _. simpl.
    split; [reflexivity|]. repeat split; try done.
    constructor; [|constructor]. repeat split. }
  induction children as [v Hleaf|l IH|l _] using jsval_nested_ind;
    intros normalized s.
  - destruct v; try done; simpl; try (by apply Hnone); try apply Hone.
    all: try (unfold bind, console_warn, modify; by apply Hnone).
    unfold bind at 1, gets at 1.
    destruct (v_type (vn s _)); try apply Hone.
    unfold bind, console_warn, modify. by apply Hnone.
  - simpl. revert normalized s.
    induction IH as [|x r Hx _ IHr]; intros normalized s; [by apply Hnone|].
    destruct (Hx normalized s) as (c1 & s1 & E1 & V1 & C1 & N1 & F1).
    destruct (IHr (normalized ++ seq (length (vnodes s)) (length c1)) s1)
      as (c2 & s2 & E2 & V2 & C2 & N2 & F2).
    exists (c1 ++ c2), s2. unfold bind at 1. rewrite E1.
    split.
    { etransitivity; [exact E2|]. f_equal.
      rewrite <- app_assoc. f_equal. rewrite V1, !length_app.
      by rewrite seq_app. }
    split; [by rewrite V2, V1, app_assoc|].
    split; [congruence|]. split; [congruence|]. by apply Forall_app.
  - simpl. unfold bind, console_warn, modify. by apply Hnone.
Qed.

Section C10.
Variable U : nat -> Prop.
Variable callbacks : nat -> list jsval -> jsval.
Variable components : nat -> jsval -> M jsval.

(** C10: normalization puts a fresh clone of every child vnode into the
    parent's normalized children (one clone per occurrence, each with empty
    reconciliation fields); and when no reference of the engine points to
    one of the caller's vnodes [U] and the user components respect this,
    then child reconciliation, a root render and a scheduled re-render leave
    every field of the vnodes of [U] as it was, and still hold no
    reference to them. *)
Theorem caller_vnodes_are_never_mutated fuel :
  (forall n props, safe U (components n props) any) ->
  (forall c normalized s,
      v_type (vn s c) <> TUndefined ->
      normalizeChildren (VNode c) normalized s
      = Ok (normalized ++ [length (vnodes s)])
           (set_vnodes (vnodes s ++ [clone_of (vn s c)]) s))
  /\ (forall children normalized s,
        exists clones s',
          normalizeChildren children normalized s
          = Ok (normalized ++ seq (length (vnodes s)) (length clones)) s'
          /\ vnodes s' = vnodes s ++ clones
          /\ Forall unattached clones)
  /\ (forall parentDom renderResult newParentVNode oldParentVNode namespace q
             oldDom s,
        ~ U newParentVNode -> unreferenced U s ->
        match diffChildren (S fuel) (diff callbacks components fuel)
                (unmount callbacks (S fuel)) parentDom renderResult
                newParentVNode oldParentVNode namespace q oldDom s with
        | Ok _ s' | Throw _ s' => untouched U s s' /\ unreferenced U s'
        | OutOfFuel => True
        end)
  /\ (forall vnode container s,
        unreferenced U s ->
        match render callbacks components fuel vnode container s with
        | Ok _ s' | Throw _ s' => untouched U s s' /\ unreferenced U s'
        | OutOfFuel => True
        end)
  /\ (forall s,
        unreferenced U s ->
        match run_microtask callbacks components fuel s with
        | Ok _ s' | Throw _ s' => untouched U s s' /\ unreferenced U s'
        | OutOfFuel => True
        end).
Proof.
  intros Hcomp. split; [apply normalizeChildren_clone|]. split.
  { intros children normalized s.
    destruct (normalizeChildren_fresh children normalized s)
      as (clones & s' & E & V & _ & _ & F). by exists clones, s'. }
  split.
  { intros parentDom renderResult newParentVNode oldParentVNode namespace q
      oldDom s Hparent Hs.
    pose proof (safe_diffChildren U (S fuel) (diff callbacks components fuel)
                  (unmount callbacks (S fuel)) parentDom renderResult
                  newParentVNode oldParentVNode namespace q oldDom
                  (safe_diff_is_fn U callbacks components Hcomp fuel)
                  (safe_unmount_is_fn U callbacks (S fuel)) Hparent s Hs) as H.
    destruct (diffChildren _ _ _ _ _ _ _ _ _ _ s); try done; tauto. }
  split.
  { intros vnode container s Hs.
    pose proof (safe_render U callbacks components Hcomp fuel vnode container
                  s Hs) as H.
    destruct (render _ _ _ _ _ s); try done; tauto. }
  intros s Hs.
  pose proof (safe_run_microtask U callbacks components Hcomp fuel s Hs) as H.
  destruct (run_microtask _ _ _ s); try done; tauto.
Qed.

End C10.

(** The counter component respects the frame: it only calls [useState]
    and [h]. *)
Lemma counter_component_safe n props :
  safe counter_caller_vnodes (counter_component n props) any.
Proof.
  destruct n as [|n]; simpl; [|by apply safe_ret].
  eapply safe_bind; [apply safe_quiet, quiet_useState|]. intros p _.
  eapply safe_bind; [apply safe_h|]. intros d _. by apply safe_ret.
Qed.

(** No engine reference of the mounted counter points to a caller
    vnode. *)
Lemma counter_mounted_unreferenced :
  unreferenced counter_caller_vnodes counter_mounted.
Proof.
  split; [intros u [-> | ->]; vm_compute; lia|].
  split; [|split].
  - intros w. do 6 (destruct w as [|w];
      [vm_compute; split;
       [intros l y E Hy; simplify_eq;
        apply list_elem_of_singleton in Hy; subst; intros [?|?]; lia
       |intros p E; simplify_eq; intros [?|?]; lia]|]).
    vm_compute. split; [intros l y E; simplify_eq|intros p E; simplify_eq].
  - intros c. do 2 (destruct c as [|c];
      [vm_compute; split;
       [intros v E; simplify_eq; intros [?|?]; lia|intros l p E; simplify_eq]|]).
    vm_compute. split; [intros v E; simplify_eq|intros l p E; simplify_eq].
  - intros d. do 3 (destruct d as [|d];
      [vm_compute; intros r E; simplify_eq; intros [?|?]; lia|]).
    vm_compute. intros r E; simplify_eq.
Qed.

(** C10, witness: the vnode rendered before is rendered again, at two
    positions; it gets two clones (7 and 8) and keeps all its fields. *)
Lemma caller_vnodes_are_never_mutated_witness :
  exists s',
    render_same_vnode_twice counter_mounted = Ok tt s'
    /\ vn s' 0 = vn counter_mounted 0
    /\ vn s' 3 = vn counter_mounted 3
    /\ v_children (vn s' 6) = Some [7; 8]
    /\ v_dom (vn s' 0) = None /\ v_children (vn s' 0) = None.
Proof.
  destruct (caller_vnodes_are_never_mutated counter_caller_vnodes no_result
              counter_component 10 counter_component_safe)
    as (_ & _ & _ & Hrender & _).
  specialize (Hrender (VArr [VNode 0; VNode 0]) 0 counter_mounted
                counter_mounted_unreferenced).
  unfold render_same_vnode_twice.
  destruct (render no_result counter_component 10 (VArr [VNode 0; VNode 0]) 0
              counter_mounted) as [[] s'|e s'|] eqn:E;
    [|vm_compute in E; discriminate E..].
  exists s'. split; [reflexivity|].
  destruct Hrender as [Hsame _].
  split; [apply Hsame; by left|]. split; [apply Hsame; by right|].
  assert (E' : Ok tt s' = render no_result counter_component 10
                             (VArr [VNode 0; VNode 0]) 0 counter_mounted)
    by (by rewrite E).
  vm_compute in E'. injection E' as ->. repeat split.
Defined.

(* ------------------------------------------------------------------ *)
(** ** Dependencies, flattening and the order of the queue *)
(* ------------------------------------------------------------------ *)

Lemma args_differ_false old : forall new,
  length old = length new -> (args_differ old new = false <-> old = new).
Proof.
  induction old as [|x xs IH]; intros [|y ys] Hlen; simpl in *; try done.
  injection Hlen as Hlen. rewrite orb_false_iff, negb_false_iff, Object_is_eq.
  rewrite (IH ys Hlen). split; [intros [-> ->]; done|by intros [= -> ->]].
Qed.

(** X1: for dependencies whose identity is represented (no array or object
    literal among the new ones), [argsChanged] answers "unchanged" exactly
    when both dependency lists are present and identical element by element
    under [Object.is]; a missing old or new list, and lists of different
    lengths, count as changed. *)
Theorem argsChanged_false_iff oldArgs newArgs :
  deps_identified newArgs ->
  argsChanged oldArgs newArgs = false
  <-> exists deps, oldArgs = Some deps /\ newArgs = Some deps.
Proof.
  intros _. unfold argsChanged. destruct oldArgs as [old|], newArgs as [new|];
    try (split; [done|by intros (? & ? & ?)]).
  destruct (Nat.eqb (length old) (length new)) eqn:E; simpl.
  - apply Nat.eqb_eq in E. rewrite (args_differ_false old new E). split.
    + intros ->. by exists new.
    + by intros (d & [= ->] & [= ->]).
  - apply Nat.eqb_neq in E. split; [done|].
    intros (d & [= ->] & [= ->]). done.
Qed.

(** X1, witness: the dependencies [[1, 'a']] over the same ones. *)
Lemma argsChanged_false_iff_witness :
  deps_identified (Some [VNum 1; VStr "a"])
  /\ argsChanged (Some [VNum 1; VStr "a"]) (Some [VNum 1; VStr "a"]) = false.
Proof.
  assert (H : deps_identified (Some [VNum 1; VStr "a"]))
    by (repeat constructor).
  split; [exact H|].
  apply (proj2 (argsChanged_false_iff (Some [VNum 1; VStr "a"])
                  (Some [VNum 1; VStr "a"]) H)).
  by eexists.
Defined.

Lemma flatten_child_arr l :
  flatten_child (VArr l) = flat_map flatten_child l.
Proof. induction l as [|x r IH]; simpl; [done|]. by rewrite <- IH. Qed.












Section X3.
Variable callbacks : nat -> list jsval -> jsval.
Variable components : nat -> jsval -> M jsval.


End X3.

(* ------------------------------------------------------------------ *)
(** ** Matching new children with old children *)
(* ------------------------------------------------------------------ *)

Lemma same_value_zero_eqb a b :
  same_value_zero a b = jsval_eqb (zero_norm a) (zero_norm b).
Proof.
  destruct a; destruct b; try reflexivity;
    repeat match goal with z : Z |- _ => destruct z end; reflexivity.
Qed.

Lemma same_value_zero_norm a b :
  same_value_zero a b = true <-> zero_norm a = zero_norm b.
Proof. rewrite same_value_zero_eqb. apply jsval_eqb_eq. Qed.

Lemma same_value_zero_refl a : same_value_zero a a = true.
Proof. by apply same_value_zero_norm. Qed.

Lemma same_value_zero_trans_l a b c :
  same_value_zero a b = true -> same_value_zero a c = same_value_zero b c.
Proof.
  intros H. apply same_value_zero_norm in H.
  by rewrite !same_value_zero_eqb, H.
Qed.

Lemma map_get_set k k' i m :
  map_get k (map_set k' i m)
  = if same_value_zero k' k then Some i else map_get k m.
Proof.
  induction m as [|[k2 j] r IH]; simpl; [done|].
  destruct (same_value_zero k2 k') eqn:E; simpl.
  - rewrite (same_value_zero_trans_l k2 k' k E). by destruct (same_value_zero k' k).
  - rewrite IH. destruct (same_value_zero k2 k) eqn:E2; [|done].
    destruct (same_value_zero k' k) eqn:E3; [|done].
    apply same_value_zero_norm in E2, E3.
    assert (same_value_zero k2 k' = true) by (apply same_value_zero_norm; congruence).
    congruence.
Qed.

(** What the key index answers for the key [k]. *)
Lemma map_get_index_keys k : forall olds i0 m0 j,
  map_get k (index_keys olds i0 m0) = Some j ->
  (exists cand, i0 <= j /\ olds !! (j - i0) = Some cand
     /\ is_nullish (v_key cand) = false
     /\ same_value_zero (v_key cand) k = true
     /\ forall j' cand', j < j' -> olds !! (j' - i0) = Some cand' ->
          is_nullish (v_key cand') = false ->
          same_value_zero (v_key cand') k = false)
  \/ (map_get k m0 = Some j
      /\ forall j' cand', i0 <= j' -> olds !! (j' - i0) = Some cand' ->
           is_nullish (v_key cand') = false ->
           same_value_zero (v_key cand') k = false).
Proof.
  induction olds as [|c olds IH]; intros i0 m0 j; simpl.
  - intros H. right. split; [done|]. intros j' c' _ Hc'. by rewrite lookup_nil in Hc'.
  - intros H. apply IH in H as [(cand & Hle & Hc & Hk & Hs & Hlast)|[Hm Hnone]].
    + left. exists cand. split; [lia|].
      replace (j - i0) with (S (j - S i0)) by lia. split; [done|].
      split; [done|]. split; [done|]. intros j' c' Hj' Hc' Hk'.
      apply (Hlast j' c'); [done| |done].
      replace (j' - i0) with (S (j' - S i0)) in Hc' by lia. done.
    + destruct (is_nullish (v_key c)) eqn:Hn; simpl in Hm.
      * right. split; [done|]. intros j' c' Hj' Hc' Hk'.
        destruct (decide (j' = i0)) as [->|Hne].
        -- rewrite Nat.sub_diag in Hc'. simpl in Hc'. injection Hc' as <-. congruence.
        -- apply (Hnone j' c'); [lia| |done].
           replace (j' - i0) with (S (j' - S i0)) in Hc' by lia. done.
      * rewrite map_get_set in Hm.
        destruct (same_value_zero (v_key c) k) eqn:Hs.
        -- injection Hm as <-. left. exists c. split; [done|].
           rewrite Nat.sub_diag. split; [done|]. split; [done|]. split; [done|].
           intros j' c' Hj' Hc' Hk'. apply (Hnone j' c'); [lia| |done].
           replace (j' - i0) with (S (j' - S i0)) in Hc' by lia. done.
        -- right. split; [done|]. intros j' c' Hj' Hc' Hk'.
           destruct (decide (j' = i0)) as [->|Hne].
           ++ rewrite Nat.sub_diag in Hc'. simpl in Hc'. injection Hc' as <-. done.
           ++ apply (Hnone j' c'); [lia| |done].
              replace (j' - i0) with (S (j' - S i0)) in Hc' by lia. done.
Qed.

Lemma map_get_index_keys_None k : forall olds i0 m0,
  map_get k (index_keys olds i0 m0) = None ->
  forall j cand, olds !! j = Some cand -> is_nullish (v_key cand) = false ->
                 same_value_zero (v_key cand) k = false.
Proof.
  induction olds as [|c olds IH]; intros i0 m0 H j cand Hc Hk; simpl in *.
  - by rewrite lookup_nil in Hc.
  - destruct j as [|j]; simpl in Hc.
    + injection Hc as <-. rewrite Hk in H. simpl in H.
      destruct (same_value_zero (v_key c) k) eqn:Hs; [|done]. exfalso.
      assert (Hin : exists j, map_get k (map_set (v_key c) i0 m0) = Some j).
      { rewrite map_get_set, Hs. by eexists. }
      clear -H Hin. revert H Hin. generalize (map_set (v_key c) i0 m0) (S i0).
      induction olds as [|c' olds IH]; intros m i H [j Hj]; simpl in *; [congruence|].
      apply (IH _ _ H). destruct (negb (is_nullish (v_key c'))); [|by eexists].
      rewrite map_get_set. destruct (same_value_zero (v_key c') k); by eexists.
    + by eapply IH.
Qed.

(** X5: a new child with a key reuses an old child exactly when that old
    child is the last keyed old child with the same key ([Map] keys compare
    by SameValueZero, a later duplicate of a key replaces the earlier one),
    has not been matched yet and has the same type; it never reuses an
    unkeyed old child or one with another key. *)
Theorem keyed_child_reuse olds matched i newChild j :
  is_nullish (v_key newChild) = false ->
  match_child olds (index_keys olds 0 []) matched i newChild = Some j
  <-> keyed_at olds (v_key newChild) j
      /\ default false (matched !! j) = false
      /\ exists cand, olds !! j = Some cand
                      /\ vtype_eqb (v_type cand) (v_type newChild) = true.
Proof.
  intros Hkey. unfold match_child. rewrite Hkey. simpl. split.
  - destruct (map_get _ _) as [keyIndex|] eqn:Hget; [|done].
    destruct (default false (matched !! keyIndex)) eqn:Hm; simpl; [done|].
    destruct (olds !! keyIndex) as [cand|] eqn:Hc; [|done].
    destruct (vtype_eqb _ _) eqn:Ht; [|done]. intros [= <-].
    apply map_get_index_keys in Hget as [(c & _ & Hc' & Hk & Hs & Hlast)|[Hm0 _]];
      [|done].
    rewrite Nat.sub_0_r in Hc'. split.
    + exists c. split; [done|]. split; [done|]. split; [done|].
      intros j' c' Hj' Hc'' Hk'. apply (Hlast j' c'); [done| |done].
      by rewrite Nat.sub_0_r.
    + split; [done|]. by exists cand.
  - intros ((c & Hc & Hk & Hs & Hlast) & Hm & (cand & Hc' & Ht)).
    rewrite Hc in Hc'. injection Hc' as <-.
    destruct (map_get _ _) as [keyIndex|] eqn:Hget.
    + apply map_get_index_keys in Hget
        as [(c2 & _ & Hc2 & Hk2 & Hs2 & Hlast2)|[Hm0 _]]; [|done].
      rewrite Nat.sub_0_r in Hc2.
      assert (keyIndex = j) as ->.
      { destruct (Nat.lt_trichotomy keyIndex j) as [Hlt|[->|Hgt]]; [|done|].
        - specialize (Hlast2 j c Hlt). rewrite Nat.sub_0_r in Hlast2.
          specialize (Hlast2 Hc Hk). congruence.
        - specialize (Hlast keyIndex c2 Hgt Hc2 Hk2). congruence. }
      by rewrite Hm, Hc, Ht.
    + pose proof (map_get_index_keys_None _ _ _ _ Hget j c Hc Hk). congruence.
Qed.

Lemma match_child_sound olds byKey matched i newChild j :
  match_child olds byKey matched i newChild = Some j ->
  default false (matched !! j) = false
  /\ exists old, olds !! j = Some old
                 /\ vtype_eqb (v_type old) (v_type newChild) = true.
Proof.
  unfold match_child. destruct (is_nullish (v_key newChild)) eqn:Hkey; simpl.
  - destruct ((i <? length olds)%nat && negb (default false (matched !! i))) eqn:E.
    + apply andb_true_iff in E as [_ E]. apply negb_true_iff in E.
      destruct (olds !! i) as [cand|] eqn:Hc.
      * destruct (is_nullish (v_key cand) && vtype_eqb (v_type cand) (v_type newChild))
          eqn:E2.
        -- intros [= <-]. apply andb_true_iff in E2 as [_ E2]. by eauto.
        -- intros H.
           pose proof (scan_unkeyed_spec (v_type newChild) matched olds 0) as Hs.
           rewrite H in Hs. destruct Hs as (_ & (c & Hc' & Hm & _ & Ht) & _).
           rewrite Nat.sub_0_r in Hc'. by eauto.
      * intros H.
        pose proof (scan_unkeyed_spec (v_type newChild) matched olds 0) as Hs.
        rewrite H in Hs. destruct Hs as (_ & (c & Hc' & Hm & _ & Ht) & _).
        rewrite Nat.sub_0_r in Hc'. by eauto.
    + intros H.
      pose proof (scan_unkeyed_spec (v_type newChild) matched olds 0) as Hs.
      rewrite H in Hs. destruct Hs as (_ & (c & Hc' & Hm & _ & Ht) & _).
      rewrite Nat.sub_0_r in Hc'. by eauto.
  - destruct (map_get _ _) as [keyIndex|]; [|done].
    destruct (default false (matched !! keyIndex)) eqn:Hm; simpl; [done|].
    destruct (olds !! keyIndex) as [cand|] eqn:Hc; [|done].
    destruct (vtype_eqb _ _) eqn:Ht; [|done]. intros [= <-]. by eauto.
Qed.

Lemma match_children_inv olds byKey : forall news i matched idx final,
  length matched = length olds ->
  match_children olds byKey news i matched = (idx, final) ->
  length final = length olds
  /\ (forall j, matched !! j = Some true -> final !! j = Some true)
  /\ (forall k j, idx !! k = Some (Some j) ->
        matched !! j = Some false /\ final !! j = Some true
        /\ exists old new, olds !! j = Some old /\ news !! k = Some new
             /\ vtype_eqb (v_type old) (v_type new) = true)
  /\ (forall k k' j, idx !! k = Some (Some j) -> idx !! k' = Some (Some j) -> k = k')
  /\ (forall j, final !! j = Some true ->
        matched !! j = Some true \/ exists k, idx !! k = Some (Some j)).
Proof.
  induction news as [|n news IH]; intros i matched idx final Hlen; simpl.
  - intros [= <- <-]. split; [done|]. split; [done|].
    split; [intros k j H; by rewrite lookup_nil in H|].
    split; [intros k k' j H; by rewrite lookup_nil in H|]. by left.
  - set (mi := match_child olds byKey matched i n).
    set (matched' := match mi with Some j => <[j:=true]> matched | None => matched end).
    destruct (match_children olds byKey news (S i) matched') as [rest fin] eqn:E.
    intros [= <- <-].
    assert (Hlen' : length matched' = length olds).
    { subst matched'. destruct mi; [by rewrite length_insert|done]. }
    destruct (IH (S i) matched' rest fin Hlen' E) as (H1 & H2 & H3 & H4 & H5).
    assert (Hmono : forall j, matched !! j = Some true -> matched' !! j = Some true).
    { intros j Hj. subst matched'. destruct mi as [j0|]; [|done].
      destruct (decide (j0 = j)) as [->|Hne].
      - apply list_lookup_insert_eq. by eapply lookup_lt_Some.
      - by rewrite list_lookup_insert_ne. }
    assert (Hhead : forall j, mi = Some j ->
              matched !! j = Some false /\ matched' !! j = Some true
              /\ exists old, olds !! j = Some old
                   /\ vtype_eqb (v_type old) (v_type n) = true).
    { intros j Hj. pose proof Hj as Hj'. unfold mi in Hj'.
      apply match_child_sound in Hj' as (Hm & old & Hold & Ht).
      assert (Hlt : j < length matched).
      { rewrite Hlen. by eapply lookup_lt_Some. }
      destruct (lookup_lt_is_Some_2 _ _ Hlt) as [b Hb]. rewrite Hb in Hm.
      simpl in Hm. subst b. split; [done|]. split; [|by eauto].
      subst matched'. rewrite Hj. by apply list_lookup_insert_eq. }
    assert (Hback : forall j, matched' !! j = Some false -> matched !! j = Some false).
    { intros j Hj. subst matched'. destruct mi as [j0|]; [|done].
      destruct (decide (j0 = j)) as [->|Hne].
      - rewrite list_lookup_insert_eq in Hj; [done|].
        apply lookup_lt_Some in Hj. by rewrite length_insert in Hj.
      - by rewrite list_lookup_insert_ne in Hj. }
    split; [done|]. split; [intros j Hj; by apply H2, Hmono|]. split.
    { intros [|k] j Hk; simpl in Hk.
      - injection Hk as Hk. destruct (Hhead j Hk) as (Ha & Hb & old & Hold & Ht).
        split; [done|]. split; [by apply H2|]. by exists old, n.
      - destruct (H3 k j Hk) as (Ha & Hb & old & new & Hold & Hnew & Ht).
        split; [by apply Hback|]. split; [done|]. by exists old, new. }
    split.
    { intros [|k] [|k'] j Hk Hk'; simpl in Hk, Hk'; [done| | |].
      - injection Hk as Hk. destruct (Hhead j Hk) as (_ & Hb & _).
        destruct (H3 k' j Hk') as (Ha & _). congruence.
      - injection Hk' as Hk'. destruct (Hhead j Hk') as (_ & Hb & _).
        destruct (H3 k j Hk) as (Ha & _). congruence.
      - f_equal. by eapply H4. }
    intros j Hj. destruct (H5 j Hj) as [Hm|[k Hk]]; [|right; by exists (S k)].
    subst matched'. destruct mi as [j0|] eqn:Hmi; [|by left].
    destruct (decide (j0 = j)) as [->|Hne]; [right; by exists 0|].
    left. by rewrite list_lookup_insert_ne in Hm.
Qed.

(** X4: in the matching phase of [diffChildren] every old child is reused
    by at most one new child, a reused old child has the type of the new
    child that reuses it, and an old child ends up flagged as matched
    exactly when some new child reuses it (the others are the ones
    unmounted). *)
Theorem match_children_partition (olds news : list vnode) :
  let r := match_children olds (index_keys olds 0 []) news 0
             (replicate (length olds) false) in
  length r.1 = length news /\ length r.2 = length olds
  /\ (forall k j, r.1 !! k = Some (Some j) ->
        exists old new, olds !! j = Some old /\ news !! k = Some new
          /\ vtype_eqb (v_type old) (v_type new) = true)
  /\ (forall k k' j, r.1 !! k = Some (Some j) -> r.1 !! k' = Some (Some j) -> k = k')
  /\ (forall j, r.2 !! j = Some true <-> exists k, r.1 !! k = Some (Some j)).
Proof.
  intros r. subst r.
  pose proof (match_children_length olds (index_keys olds 0 []) news 0
                (replicate (length olds) false)) as Hl.
  destruct (match_children _ _ _ _ _) as [idx final] eqn:E. simpl in *.
  destruct (match_children_inv olds _ news 0 _ idx final
              (length_replicate _ _) E) as (H1 & H2 & H3 & H4 & H5).
  split; [done|]. split; [done|]. split.
  { intros k j Hk. destruct (H3 k j Hk) as (_ & _ & H). exact H. }
  split; [exact H4|]. intros j. split.
  - intros Hj. destruct (H5 j Hj) as [Hm|Hk]; [|done].
    apply lookup_replicate in Hm as [? _]. done.
  - intros [k Hk]. by destruct (H3 k j Hk) as (_ & ? & _).
Qed.

(* ------------------------------------------------------------------ *)
(** ** Props: listeners, values and styles *)
(* ------------------------------------------------------------------ *)

Lemma str_in_true x l : str_in x l = true <-> x ∈ l.
Proof.
  unfold str_in. rewrite existsb_exists. split.
  - intros (y & Hy & E). apply String.eqb_eq in E. subst. by apply list_elem_of_In.
  - intros H. exists x. split; [by apply list_elem_of_In|apply String.eqb_refl].
Qed.

Lemma str_in_add_event e x l :
  str_in x (add_event e l) = String.eqb x e || str_in x l.
Proof.
  unfold add_event. destruct (str_in e l) eqn:E.
  - destruct (String.eqb_spec x e) as [->|]; [by rewrite E|done].
  - unfold str_in. rewrite existsb_app. simpl. rewrite orb_false_r.
    by rewrite orb_comm.
Qed.

Lemma str_in_remove_event e x l :
  str_in x (remove_event e l) = negb (String.eqb x e) && str_in x l.
Proof.
  apply eq_true_iff_eq. rewrite andb_true_iff, negb_true_iff, !str_in_true.
  unfold remove_event. rewrite list_elem_of_filter.
  destruct (String.eqb_spec x e); split; intros []; try done; split; congruence.
Qed.

Section XProps.
Variable callbacks : nat -> list jsval -> jsval.

(** X6: for a listener prop (a name beginning with [on]) written over an
    old value that tells whether the listener is registered, the node ends
    up with the handler registered exactly when the new value is truthy; the
    host then delivers an event of that name to the new handler, and to
    nobody when the handler was removed.  Registrations for other event
    names are untouched. *)
Theorem listener_prop_round_trip name value oldValue namespace n d e s :
  starts_with_on name = true ->
  truthy oldValue = str_in (event_name name) (d_events n) ->
  nd s d = setProperty name value oldValue namespace n ->
  handler_of (nd s d) (event_name name) = value
  /\ str_in (event_name name) (d_events (nd s d)) = truthy value
  /\ (forall ev, ev <> event_name name ->
        str_in ev (d_events (nd s d)) = str_in ev (d_events n)
        /\ handler_of (nd s d) ev = handler_of n ev)
  /\ dispatchEvent callbacks d (event_name name) e s
     = (if truthy value then call callbacks value [e] ;;; ret tt else ret tt) s.
Proof.
  intros Hon Hold Hnd.
  assert (Hset : setProperty name value oldValue namespace n
                 = setEventHandler name value oldValue n).
  { unfold setProperty. destruct name as [|a [|b r]]; try done.
    simpl in Hon. apply andb_true_iff in Hon as [Ha Hb].
    apply Ascii.eqb_eq in Ha, Hb. subst. reflexivity. }
  rewrite Hset in Hnd. unfold setEventHandler in Hnd. cbv zeta in Hnd.
  fold (event_name name) in Hnd.
  set (ev := event_name name) in *.
  set (n1 := set_d_listeners (Some (<[ev:=value]> (default ∅ (d_listeners n)))) n) in *.
  assert (Hh : forall m, d_listeners m = d_listeners n1 -> handler_of m ev = value).
  { intros m Hm. unfold handler_of. rewrite Hm. simpl. by rewrite lookup_insert_eq. }
  assert (Hh' : forall m ev', ev' <> ev -> d_listeners m = d_listeners n1 ->
                  handler_of m ev' = handler_of n ev').
  { intros m ev' Hne Hm. unfold handler_of. rewrite Hm. simpl.
    by rewrite lookup_insert_ne. }
  assert (Hev : str_in ev (d_events (nd s d)) = truthy value
                /\ d_listeners (nd s d) = d_listeners n1
                /\ forall ev', ev' <> ev ->
                     str_in ev' (d_events (nd s d)) = str_in ev' (d_events n)).
  { rewrite Hnd. destruct (truthy value) eqn:Hv, (truthy oldValue) eqn:Ho; simpl.
    - split; [by rewrite <- Hold|]. done.
    - rewrite str_in_add_event, String.eqb_refl. split; [done|]. split; [done|].
      intros ev' Hne. rewrite str_in_add_event.
      apply String.eqb_neq in Hne. by rewrite Hne.
    - rewrite str_in_remove_event, String.eqb_refl. split; [done|]. split; [done|].
      intros ev' Hne. rewrite str_in_remove_event.
      apply String.eqb_neq in Hne. by rewrite Hne.
    - split; [by rewrite <- Hold|]. done. }
  destruct Hev as (Hreg & Hl & Hoth).
  split; [by apply Hh|]. split; [done|]. split.
  { intros ev' Hne. split; [by apply Hoth|by apply Hh']. }
  unfold dispatchEvent. rewrite bind_gets, Hreg.
  destruct (truthy value) eqn:Hv; [|done].
  unfold eventProxy. rewrite bind_gets, Hl. simpl.
  rewrite lookup_insert_eq. simpl. by rewrite Hv.
Qed.

End XProps.

(** Folding a conditional write over a list of names. *)
Lemma fold_left_inv {A B} (P : A -> Prop) (f : A -> B -> A) (l : list B) a :
  P a -> (forall a x, P a -> P (f a x)) -> P (fold_left f l a).
Proof. revert a. induction l as [|x l IH]; intros a Ha Hf; simpl; auto. Qed.

Lemma fold_left_last {A B} (P : A -> Prop) (hit : B -> Prop) (f : A -> B -> A)
    (l : list B) a :
  (forall a x, hit x -> P (f a x)) ->
  (forall a x, P a -> P (f a x)) ->
  (exists x, x ∈ l /\ hit x) -> P (fold_left f l a).
Proof.
  intros Hhit Hkeep. revert a.
  induction l as [|x l IH]; intros a (y & Hy & Hh); simpl; [by inversion Hy|].
  apply elem_of_cons in Hy as [->|Hy].
  - apply fold_left_inv; [by apply Hhit|done].
  - apply IH. by exists y.
Qed.

Lemma attr_name_value name : attr_name name = "value" -> name = "value".
Proof.
  unfold attr_name. destruct (String.eqb_spec name "className"); [done|].
  destruct (String.eqb_spec name "htmlFor"); [done|]. done.
Qed.

Lemma d_fields_setStyle value oldValue n :
  d_fields (setStyle value oldValue n) = d_fields n.
Proof.
  unfold setStyle. destruct (is_string value); [done|]. cbv zeta.
  assert (Hstep : forall m k v, d_fields (setStyleProperty k v m) = d_fields m).
  { intros m k v. unfold setStyleProperty. by destruct (starts_with_dash k). }
  assert (E : forall m, d_fields
    (if is_object oldValue
     then fold_left (fun acc styleName =>
                       if negb (truthy value && has_prop value styleName)
                       then setStyleProperty styleName (VStr "") acc else acc)
            (keys_of oldValue) m
     else if is_string oldValue then set_d_cssText (VStr "") m else m)
    = d_fields m).
  { intros m. destruct (is_object oldValue).
    - apply (fold_left_inv (fun a => d_fields a = d_fields m)); [done|].
      intros a x Ha. destruct (negb _); [by rewrite Hstep|done].
    - by destruct (is_string oldValue). }
  destruct (is_object value); [|apply E].
  apply (fold_left_inv (fun a => d_fields a = d_fields n)); [apply E|].
  intros a x Ha. cbv zeta. destruct (_ || _); [by rewrite Hstep|done].
Qed.

Lemma d_fields_setProperty_other name value oldValue n :
  name <> "value" ->
  d_fields (setProperty name value oldValue None n) !! "value"
  = d_fields n !! "value".
Proof.
  intros Hne. unfold setProperty.
  destruct (String.eqb name "children"); [done|].
  destruct (String.eqb name "style"); [by rewrite d_fields_setStyle|].
  destruct (starts_with_on name).
  { unfold setEventHandler. cbv zeta.
    repeat match goal with |- context [if ?b then _ else _] => destruct b end;
      reflexivity. }
  destruct (String.eqb name "dangerouslySetInnerHTML").
  { by destruct (_ && _). }
  destruct (String.eqb name "ref"); [done|].
  destruct (String.eqb name "key"); [done|].
  unfold setPropertyOrAttribute. cbv zeta.
  assert (Hn : attr_name name <> "value").
  { intros H. by apply attr_name_value in H. }
  destruct (String.eqb (attr_name name) "value") eqn:E1.
  { apply String.eqb_eq in E1. done. }
  destruct (String.eqb_spec (attr_name name) "checked") as [E2|E2]; simpl.
  - rewrite E2. destruct (is_nullish value); simpl; by rewrite lookup_insert_ne.
  - repeat match goal with |- context [if ?b then _ else _] => destruct b end;
      reflexivity.
Qed.

(** X7: in an HTML element, a [value] prop is written to the [value]
    field of the node by every [diffProps], whatever the old props say and
    whatever the field holds (so a controlled input is forced back to its
    prop); a [null] or [undefined] value writes the empty string. *)
Theorem diffProps_forces_value newProps oldProps n :
  has_prop newProps "value" = true ->
  d_fields (diffProps newProps oldProps None n) !! "value"
  = Some (if is_nullish (get_prop newProps "value") then VStr ""
          else get_prop newProps "value").
Proof.
  intros Hhas. unfold diffProps. cbv zeta.
  apply (fold_left_last
           (fun a => d_fields a !! "value"
                     = Some (if is_nullish (get_prop newProps "value") then VStr ""
                             else get_prop newProps "value"))
           (fun x => x = "value")).
  - intros a x ->. cbv zeta. rewrite orb_true_r. simpl.
    unfold setProperty, setPropertyOrAttribute. simpl.
    destruct (is_nullish _); simpl; by rewrite lookup_insert_eq.
  - intros a x Ha. cbv zeta.
    destruct (String.eqb_spec x "value") as [->|Hne].
    + rewrite orb_true_r. simpl.
      unfold setProperty, setPropertyOrAttribute. simpl.
      destruct (is_nullish _); simpl; by rewrite lookup_insert_eq.
    + destruct (_ || _ || _); [|done]. by rewrite d_fields_setProperty_other.
  - exists "value". split; [|done].
    destruct newProps; try done. simpl in *.
    induction l as [|[k v] l IH]; simpl in *; [done|].
    apply orb_true_iff in Hhas as [E|E].
    + apply String.eqb_eq in E. subst. by left.
    + right. by apply IH.
Qed.

Lemma assoc_has_key k (l : list (string * jsval)) :
  k ∈ map fst l -> assoc_has k l = true.
Proof.
  induction l as [|[k' v] l IH]; simpl; [by inversion 1|].
  intros H. apply elem_of_cons in H as [->|H].
  - by rewrite String.eqb_refl.
  - rewrite IH by done. apply orb_true_r.
Qed.

Lemma fold_left_skip {A B} (f : A -> B -> A) (l : list B) a :
  (forall a x, x ∈ l -> f a x = a) -> fold_left f l a = a.
Proof.
  revert a. induction l as [|x l IH]; intros a H; simpl; [done|].
  rewrite H by left. apply IH. intros a' y Hy. apply H. by right.
Qed.

(** X8: diffing a props object against itself writes nothing to the node,
    provided it has no [value] or [checked] prop and no prop whose value is
    not [===] to itself ([NaN]). *)
Theorem diffProps_same_props props namespace n :
  (forall k, k ∈ keys_of props ->
     k <> "value" /\ k <> "checked"
     /\ strict_eq (get_prop props k) (get_prop props k) = true) ->
  diffProps props props namespace n = n.
Proof.
  intros H. unfold diffProps. cbv zeta.
  rewrite (fold_left_skip _ (keys_of props) n).
  - apply fold_left_skip. intros a k Hk. cbv zeta.
    destruct (H k Hk) as (Hv & Hc & He). rewrite He.
    apply String.eqb_neq in Hv, Hc. by rewrite Hv, Hc.
  - intros a k Hk. destruct props; try (by inversion Hk). simpl in *.
    by rewrite (assoc_has_key k l Hk), andb_false_r.
Qed.







(** X5, witness: with the key [a] on two old children, a new child keyed
    [a] reuses the later one. *)
Lemma keyed_child_reuse_witness :
  match_child duplicate_keys (index_keys duplicate_keys 0 [])
    [false; false; false] 0 (li_vnode (VStr "a")) = Some 2
  /\ keyed_at duplicate_keys (VStr "a") 2.
Proof.
  split; [vm_compute; reflexivity|].
  apply (proj1 (keyed_child_reuse duplicate_keys [false; false; false] 0
                  (li_vnode (VStr "a")) 2 eq_refl)).
  vm_compute; reflexivity.
Defined.

(** X6, witness: a click on the [div] that was given [onClick = f1]
    reaches [f1]. *)
Lemma listener_prop_round_trip_witness :
  handler_of (nd clickable 0) "click" = VFun 1
  /\ dispatchEvent no_result 0 "click" (VStr "event") clickable
     = Ok tt (add_log (EvCall 1 [VStr "event"]) clickable).
Proof.
  destruct (listener_prop_round_trip no_result "onClick" (VFun 1) VUndef None
              plain_element 0 (VStr "event") clickable)
    as (H1 & _ & _ & H2).
  - reflexivity.
  - vm_compute; reflexivity.
  - vm_compute; reflexivity.
  - split; [exact H1|]. etransitivity; [exact H2|]. vm_compute; reflexivity.
Defined.

(** X7, witness: [value: null] on an input writes the empty string. *)
Lemma diffProps_forces_value_witness :
  d_fields (diffProps (VRec [("value", VNull)]) (VRec [("value", VNull)]) None
              plain_element) !! "value"
  = Some (VStr "").
Proof.
  apply (diffProps_forces_value (VRec [("value", VNull)])
           (VRec [("value", VNull)]) plain_element).
  reflexivity.
Defined.

(** X8, witness: the same [id] and [title] again. *)
Lemma diffProps_same_props_witness :
  diffProps (VRec [("id", VStr "a"); ("title", VStr "t")])
    (VRec [("id", VStr "a"); ("title", VStr "t")]) None plain_element
  = plain_element.
Proof.
  apply (diffProps_same_props (VRec [("id", VStr "a"); ("title", VStr "t")])
           None plain_element).
  intros k Hk. simpl in Hk.
  apply elem_of_cons in Hk as [->|Hk]; [done|].
  apply list_elem_of_singleton in Hk as ->. done.
Defined.

(* ------------------------------------------------------------------ *)
(** ** Hooks: state, memoization and effects *)
(* ------------------------------------------------------------------ *)

Lemma has_slot_in_range s c i : has_slot s c i -> c < length (comps s).
Proof.
  unfold has_slot, cp. intros H.
  destruct (decide (c < length (comps s))); [done|].
  rewrite lookup_ge_None_2 in H by lia. simpl in H. lia.
Qed.

Lemma hook_entry_existing {A} (k : nat * nat -> M A) c i s :
  rendering s c i -> has_slot s c i ->
  bind next_index (fun index => bind (getHookState index) k) s
  = k (c, i) (next_hook c i s).
Proof.
  intros [Hcur Hidx] Hslot. unfold bind at 1, next_index. rewrite Hcur, Hidx.
  unfold getHookState. mred. cbn [currentComponent set_current]. mred.
  f_equal. apply upd_comp_id. fold (next_hook c i s).
  change (cp (next_hook c i s) c) with (cp s c).
  unfold has_slot in Hslot. apply Nat.leb_gt in Hslot. by rewrite Hslot.
Qed.

Lemma hook_entry_fresh {A} (k : nat * nat -> M A) c i s :
  rendering s c i -> fresh_slot s c i ->
  bind next_index (fun index => bind (getHookState index) k) s
  = k (c, i) (with_new_slot c i s).
Proof.
  intros [Hcur Hidx] [Hc Hi]. unfold bind at 1, next_index. rewrite Hcur, Hidx.
  unfold getHookState. mred. cbn [currentComponent set_current]. mred.
  f_equal. unfold with_new_slot, next_hook, upd_comp. f_equal.
  cbn [comps set_current]. unfold upd.
  destruct (comps s !! c) as [x|] eqn:E; [|done].
  f_equal. unfold cp in Hi. rewrite E in Hi. simpl in Hi.
  rewrite Hi. by rewrite Nat.leb_refl.
Qed.

Lemma slot_with_new_slot c i s :
  fresh_slot s c i ->
  slot (with_new_slot c i s) c i = empty_hook
  /\ has_slot (with_new_slot c i s) c i
  /\ c < length (comps (with_new_slot c i s)).
Proof.
  intros [Hc Hi]. unfold with_new_slot, has_slot, slot.
  rewrite cp_upd_eq by done. change (cp (next_hook c i s) c) with (cp s c).
  simpl. rewrite length_app. simpl. rewrite Hi.
  rewrite lookup_app_r by done. rewrite Nat.sub_diag. simpl.
  split; [done|]. split; [lia|]. unfold upd_comp. simpl. by rewrite upd_length.
Qed.

Lemma hook_entry {A} (k : nat * nat -> M A) c i s :
  at_hook s c i ->
  exists s0,
    bind next_index (fun index => bind (getHookState index) k) s = k (c, i) s0
    /\ entered c i s s0.
Proof.
  intros (Hr & Hc & Hi). unfold entered. case_decide as Hlt.
  - exists (next_hook c i s). split; [by apply hook_entry_existing|].
    repeat split; done.
  - assert (Hf : fresh_slot s c i) by (split; [done|lia]).
    exists (with_new_slot c i s). split; [by apply hook_entry_fresh|].
    destruct (slot_with_new_slot c i s Hf) as (Hempty & Hslot & _).
    split; [done|]. split.
    { rewrite Hempty. unfold slot. by rewrite lookup_ge_None_2 by lia. }
    split; [done|]. split.
    { intros j Hj. unfold slot, with_new_slot. rewrite cp_upd_eq by done.
      simpl. change (cp (next_hook c i s) c) with (cp s c).
      destruct (decide (j < i)).
      - by rewrite lookup_app_l by lia.
      - rewrite !lookup_ge_None_2; [done|lia|]. rewrite length_app. simpl. lia. }
    unfold with_new_slot. rewrite cp_upd_eq by done.
    repeat split; done.
Qed.

Lemma argsChanged_false_inv oldArgs newArgs :
  argsChanged oldArgs newArgs = false ->
  exists deps, oldArgs = Some deps /\ newArgs = Some deps.
Proof.
  destruct oldArgs as [old|], newArgs as [new|]; try done. unfold argsChanged.
  destruct (Nat.eqb (length old) (length new)) eqn:El; [|done]. simpl.
  apply Nat.eqb_eq in El. intros H. apply (args_differ_false old new El) in H.
  subst. by exists new.
Qed.

Lemma argsChanged_same deps : argsChanged (Some deps) (Some deps) = false.
Proof.
  unfold argsChanged. rewrite Nat.eqb_refl. simpl.
  by apply args_differ_false.
Qed.

Lemma flat_map_ext_elem {A B} (f g : A -> list B) (l : list A) :
  (forall x, x ∈ l -> f x = g x) -> flat_map f l = flat_map g l.
Proof.
  induction l as [|a l IH]; intros H; simpl; [done|].
  rewrite (H a) by left. f_equal. apply IH. intros x Hx. apply H. by right.
Qed.

Section XHooks.
Variable callbacks : nat -> list jsval -> jsval.

Lemma slot_after_upd c i f s :
  has_slot s c i ->
  slot (upd_slot c i f s) c i = f (slot s c i)
  /\ has_slot (upd_slot c i f s) c i.
Proof.
  intros H. pose proof (has_slot_in_range _ _ _ H) as Hc. split.
  - by apply slot_upd_eq.
  - unfold has_slot in *. rewrite c_list_upd_slot by done. by rewrite upd_length.
Qed.

(** X10: on a re-render [useState] ignores its argument: it returns the
    value held by the slot together with the setter of that slot, calls no
    initializer, and changes nothing but the hook index. *)
Theorem useState_rerender c i s initialState :
  rendering s c i -> has_slot s c i ->
  hs_initialized (slot s c i) = true -> hs_setState (slot s c i) = true ->
  useState callbacks initialState s
  = Ok (hs_value (slot s c i), VSetter c i) (next_hook c i s).
Proof.
  intros Hr Hs Hinit Hset. unfold useState.
  rewrite (hook_entry_existing _ c i s Hr Hs). cbv beta iota. mred.
  unfold next_hook. st. rewrite Hinit. simpl. mred. st. rewrite Hset. simpl.
  mred. st. reflexivity.
Qed.

(** X11: the first render's [useState] creates the slot: it holds the
    initial state, or the result of calling it once when it is a function,
    is owned by the rendering component, and its setter is the value
    returned; the earlier slots, the render queue and the other heaps are
    left as they were. *)
Theorem useState_first_render c i s initialState :
  rendering s c i -> fresh_slot s c i -> plain_update initialState ->
  exists s',
    useState callbacks initialState s
    = Ok (initial_value callbacks initialState, VSetter c i) s'
    /\ slot s' c i
       = mkHook true (initial_value callbacks initialState) (Some c) true
           VUndef false None None VUndef
    /\ length (c_list (cp s' c)) = S i
    /\ (forall j, j < i -> slot s' c j = slot s c j)
    /\ rendering s' c (S i)
    /\ log s' = log s ++ initializer_call initialState
    /\ renderQueue s' = renderQueue s /\ vnodes s' = vnodes s
    /\ nodes s' = nodes s /\ objs s' = objs s.
Proof.
  intros Hr Hf Hplain. unfold useState.
  rewrite (hook_entry_fresh _ c i s Hr Hf). cbv beta iota.
  destruct (slot_with_new_slot c i s Hf) as (Hempty & Hslot & Hc).
  assert (Hlen : length (c_list (cp (with_new_slot c i s) c)) = S i).
  { destruct Hf as [Hc0 Hi]. unfold with_new_slot. rewrite cp_upd_eq by done.
    simpl. rewrite length_app. simpl. unfold next_hook. st. lia. }
  assert (Hold : forall j, j < i -> slot (with_new_slot c i s) c j = slot s c j).
  { destruct Hf as [Hc0 Hi]. intros j Hj. unfold slot, with_new_slot.
    rewrite cp_upd_eq by done. simpl. unfold next_hook. st.
    by rewrite lookup_app_l by lia. }
  assert (Hcur : currentComponent (with_new_slot c i s) = Some c) by done.
  assert (Hidx : currentIndex (with_new_slot c i s) = S i) by done.
  assert (Hlog : log (with_new_slot c i s) = log s) by done.
  assert (Hq : renderQueue (with_new_slot c i s) = renderQueue s) by done.
  assert (Hv : vnodes (with_new_slot c i s) = vnodes s) by done.
  assert (Hn : nodes (with_new_slot c i s) = nodes s) by done.
  assert (Ho : objs (with_new_slot c i s) = objs s) by done.
  generalize dependent (with_new_slot c i s). intros s0 Hempty Hslot Hc Hlen Hold
    Hcur Hidx Hlog Hq Hv Hn Ho.
  mred. rewrite Hempty. simpl. mred.
  set (s1 := upd_slot c i (set_hs_initialized true) s0).
  destruct (slot_after_upd c i (set_hs_initialized true) s0 Hslot) as [E1 Hs1].
  fold s1 in E1, Hs1.
  assert (Hcall : exists s2,
     (if is_function initialState then call callbacks initialState []
      else ret initialState) s1
     = Ok (initial_value callbacks initialState) s2
     /\ s2 = match initialState with
             | VFun f => add_log (EvCall f []) s1 | _ => s1 end).
  { destruct initialState; simpl in *; try done; eexists; split; reflexivity. }
  destruct Hcall as (s2 & Hcall & Es2).
  rewrite (bind_Ok _ _ _ _ _ Hcall). mred.
  assert (Hs2 : has_slot s2 c i /\ slot s2 c i = slot s1 c i
                /\ currentComponent s2 = Some c).
  { subst s2. destruct initialState; done. }
  destruct Hs2 as (Hs2 & E2 & Hcur2).
  set (v := initial_value callbacks initialState) in *.
  destruct (slot_after_upd c i (set_hs_value v) s2 Hs2) as [E3 Hs3].
  set (s3 := upd_slot c i (set_hs_value v) s2) in *.
  change (currentComponent s3) with (currentComponent s2). rewrite Hcur2.
  destruct (slot_after_upd c i (set_hs_component (Some c)) s3 Hs3) as [E4 Hs4].
  set (s4 := upd_slot c i (set_hs_component (Some c)) s3) in *.
  rewrite E4, E3, E2, E1, Hempty. simpl. mred.
  destruct (slot_after_upd c i (set_hs_setState true) s4 Hs4) as [E5 Hs5].
  set (s5 := upd_slot c i (set_hs_setState true) s4) in *.
  rewrite E5, E4, E3, E2, E1, Hempty. simpl.
  exists s5. split; [reflexivity|].
  split; [by rewrite E5, E4, E3, E2, E1, Hempty|].
  assert (Hpast : forall f s', has_slot s' c i ->
            c_list (cp (upd_slot c i f s') c) = upd i f (c_list (cp s' c))).
  { intros f s' H'. apply c_list_upd_slot. by eapply has_slot_in_range. }
  assert (Hcp2 : cp s2 c = cp s1 c) by (subst s2; by destruct initialState).
  split.
  { subst s5 s4 s3. rewrite !Hpast, !upd_length by done. rewrite Hcp2.
    subst s1. rewrite Hpast, upd_length by done. done. }
  split.
  { intros j Hj. rewrite <- Hold by done. unfold slot.
    subst s5 s4 s3. rewrite !Hpast by done. rewrite Hcp2. subst s1.
    rewrite Hpast by done. by rewrite !upd_lookup_ne by lia. }
  split.
  { split; subst s5 s4 s3; st; [done|].
    subst s2 s1. destruct initialState; st; done. }
  subst s5 s4 s3. st. subst s2 s1.
  destruct initialState; st; unfold initializer_call;
    rewrite ?app_nil_r, ?Hlog, ?Hq, ?Hv, ?Hn, ?Ho; repeat split; try done;
    simpl; by rewrite Hlog.
Qed.

Lemma slot_at_hook_filled c i s :
  at_hook s c i -> slot s c i <> empty_hook -> has_slot s c i.
Proof.
  intros (_ & _ & Hi) Hne. unfold has_slot.
  destruct (decide (i < length (c_list (cp s c)))); [done|].
  exfalso. apply Hne. unfold slot. by rewrite lookup_ge_None_2 by lia.
Qed.

Lemma useMemo_with_cached factory c i s deps :
  at_hook s c i -> hs_args (slot s c i) = Some deps ->
  useMemo_with factory (Some deps) s
  = Ok (hs_value (slot s c i)) (next_hook c i s).
Proof.
  intros Hat Hargs.
  assert (Hs : has_slot s c i).
  { apply slot_at_hook_filled; [done|]. intros E. by rewrite E in Hargs. }
  unfold useMemo_with.
  rewrite (hook_entry_existing _ c i s (proj1 Hat) Hs). cbv beta iota. mred.
  unfold next_hook. st. rewrite Hargs, argsChanged_same. mred. by st.
Qed.

Lemma useMemo_with_recompute factory c i s deps :
  at_hook s c i -> argsChanged (hs_args (slot s c i)) deps = true ->
  forall s0, entered c i s s0 ->
  forall v s1, factory s0 = Ok v s1 -> comps s1 = comps s0 ->
  exists s',
    useMemo_with factory deps s = Ok v s'
    /\ s' = upd_slot c i (set_hs_args deps) (upd_slot c i (set_hs_value v) s1)
    /\ slot s' c i = set_hs_args deps (set_hs_value v (slot s c i))
    /\ (forall j, j <> i -> slot s' c j = slot s c j).
Proof.
  intros Hat Hch s0 Hent v s1 Hfac Hcomps.
  destruct (hook_entry (fun '(c, i) =>
      hs <~ gets (fun s => slot s c i);
      (if argsChanged (hs_args hs) deps then
         v <~ factory;
         modify (upd_slot c i (set_hs_value v)) ;;;
         modify (upd_slot c i (set_hs_args deps))
       else ret tt) ;;;
      gets (fun s => hs_value (slot s c i))) c i s Hat) as (s0' & Hrun & Hent').
  assert (s0' = s0) as -> by (destruct Hent as [-> _], Hent' as [-> _]; done).
  clear Hent'. unfold useMemo_with. rewrite Hrun. cbv beta iota.
  destruct Hent as (_ & Hsl & Hhas & Hoth & _).
  mred. rewrite Hsl, Hch. mred. rewrite (bind_Ok _ _ _ _ _ Hfac). mred.
  assert (Hhas1 : has_slot s1 c i) by (unfold has_slot, cp in *; by rewrite Hcomps).
  assert (Hsl1 : forall j, slot s1 c j = slot s0 c j)
    by (intros j; unfold slot, cp; by rewrite Hcomps).
  destruct (slot_after_upd c i (set_hs_value v) s1 Hhas1) as [E1 Hh1].
  destruct (slot_after_upd c i (set_hs_args deps) _ Hh1) as [E2 Hh2].
  eexists. split; [unfold gets; rewrite E2, E1; reflexivity|]. split; [done|].
  split; [by rewrite E2, E1, Hsl1, Hsl|].
  intros j Hj. rewrite <- Hoth, <- Hsl1 by done.
  pose proof (has_slot_in_range _ _ _ Hhas1) as Hc1.
  unfold slot. rewrite c_list_upd_slot by (by st).
  rewrite c_list_upd_slot by done. by rewrite !upd_lookup_ne by done.
Qed.

(** X12: for dependencies whose identity is represented (no array or
    object literal among them), [useMemo] returns the stored value without
    calling the factory when the dependencies are the ones stored (same
    length, pairwise [Object.is]); nothing but the hook index changes.
    Otherwise - first render, no dependency array, or a changed dependency -
    the factory is called once and its result and the dependencies are
    stored. *)
Theorem useMemo_caches c i s factory :
  at_hook s c i ->
  (forall deps, hs_args (slot s c i) = Some deps -> Forall identified deps ->
     useMemo callbacks factory (Some deps) s
     = Ok (hs_value (slot s c i)) (next_hook c i s))
  /\ (forall f deps, factory = VFun f -> deps_identified deps ->
        argsChanged (hs_args (slot s c i)) deps = true ->
        exists s',
          useMemo callbacks factory deps s = Ok (callbacks f []) s'
          /\ hs_value (slot s' c i) = callbacks f []
          /\ hs_args (slot s' c i) = deps
          /\ log s' = log s ++ [EvCall f []]).
Proof.
  intros Hat. split.
  - intros deps Hargs _. by apply useMemo_with_cached.
  - intros f deps -> _ Hch.
    destruct (hook_entry (fun _ => ret tt) c i s Hat) as (s0 & _ & Hent).
    destruct (useMemo_with_recompute (call callbacks (VFun f) []) c i s deps
                Hat Hch s0 Hent (callbacks f []) (add_log (EvCall f []) s0))
      as (s' & Hrun & -> & Hsl & Hoth); [done|done|].
    exists (upd_slot c i (set_hs_args deps)
              (upd_slot c i (set_hs_value (callbacks f []))
                 (add_log (EvCall f []) s0))).
    split; [exact Hrun|]. rewrite Hsl. split; [done|]. split; [done|].
    st. destruct Hent as (_&_&_&_&_&_&_&Hlog&_).
    cbn [log add_log]. by rewrite Hlog.
Qed.

(** X13: [useCallback] never calls the callback; for dependencies whose
    identity is represented (no array or object literal among them) it
    returns the function stored by an earlier render as long as the
    dependencies are the stored ones, and the function just given
    otherwise. *)
Theorem useCallback_identity c i s callback deps :
  at_hook s c i -> deps_identified deps ->
  exists s',
    useCallback callback deps s
    = Ok (if argsChanged (hs_args (slot s c i)) deps then callback
          else hs_value (slot s c i)) s'
    /\ hs_value (slot s' c i)
       = (if argsChanged (hs_args (slot s c i)) deps then callback
          else hs_value (slot s c i))
    /\ hs_args (slot s' c i)
       = (if argsChanged (hs_args (slot s c i)) deps then deps
          else hs_args (slot s c i))
    /\ log s' = log s /\ renderQueue s' = renderQueue s /\ objs s' = objs s.
Proof.
  intros Hat _. destruct (argsChanged (hs_args (slot s c i)) deps) eqn:Hch.
  - destruct (hook_entry (fun _ => ret tt) c i s Hat) as (s0 & _ & Hent).
    destruct (useMemo_with_recompute (ret callback) c i s deps
                Hat Hch s0 Hent callback s0)
      as (s' & Hrun & -> & Hsl & Hoth); [done|done|].
    eexists. split; [exact Hrun|]. rewrite Hsl. split; [done|]. split; [done|].
    st. by destruct Hent as (_&_&_&_&_&_&_&Hlog&Hq&_&_&Ho).
  - destruct (argsChanged_false_inv _ _ Hch) as (d & Hold & ->).
    exists (next_hook c i s). split; [by apply useMemo_with_cached|].
    unfold next_hook. by st.
Qed.

(** X14: [useRef] allocates its object once.  With no dependencies stored
    in the slot (the first render) a fresh object holding the initial value
    is created and stored; afterwards the stored object is returned, the
    argument is ignored and nothing is allocated. *)
Theorem useRef_stable c i s initialValue :
  at_hook s c i ->
  (hs_args (slot s c i) = None ->
   exists s',
     useRef initialValue s = Ok (VObj (length (objs s))) s'
     /\ objs s' = objs s ++ [initialValue]
     /\ hs_value (slot s' c i) = VObj (length (objs s))
     /\ hs_args (slot s' c i) = Some []
     /\ (forall j, j <> i -> slot s' c j = slot s c j)
     /\ log s' = log s)
  /\ (hs_args (slot s c i) = Some [] ->
      useRef initialValue s = Ok (hs_value (slot s c i)) (next_hook c i s)).
Proof.
  intros Hat. split.
  - intros Hargs.
    destruct (hook_entry (fun _ => ret tt) c i s Hat) as (s0 & _ & Hent).
    destruct (useMemo_with_recompute (new_ref_cell initialValue) c i s (Some [])
                Hat ltac:(by rewrite Hargs) s0 Hent
                (VObj (length (objs s0))) (set_objs (objs s0 ++ [initialValue]) s0))
      as (s' & Hrun & -> & Hsl & Hoth); [done|done|].
    destruct Hent as (_&_&_&_&_&_&_&Hlog&Hq&_&_&Ho).
    rewrite Ho in *.
    eexists. split; [unfold useRef; rewrite Hrun; reflexivity|].
    rewrite Hsl. st. cbn [objs set_objs log]. by rewrite Hlog.
  - intros Hargs. by apply useMemo_with_cached.
Qed.

(** X15: [useReducer] returns the state held by the slot, which on the
    first render is [initialArg] or [init(initialArg)], and the dispatcher
    of the slot; every render stores the reducer it was given, so that the
    dispatcher uses the reducer of the latest render. *)
Theorem useReducer_renders c i s reducer initialArg init :
  at_hook s c i -> plain_init init ->
  (hs_initialized (slot s c i) = true -> hs_dispatch (slot s c i) = true ->
   useReducer callbacks reducer initialArg init s
   = Ok (hs_value (slot s c i), VDispatch c i)
        (upd_slot c i (set_hs_reducer reducer) (next_hook c i s)))
  /\ (hs_initialized (slot s c i) = false ->
      let v := initial_reducer_state callbacks initialArg init in
      exists s',
        useReducer callbacks reducer initialArg init s
        = Ok (v, VDispatch c i) s'
        /\ hs_initialized (slot s' c i) = true
        /\ hs_value (slot s' c i) = v
        /\ hs_component (slot s' c i) = Some c
        /\ hs_reducer (slot s' c i) = reducer
        /\ hs_dispatch (slot s' c i) = true
        /\ log s' = log s ++ match init with
                            | VFun g => [EvCall g [initialArg]] | _ => []
                            end
        /\ renderQueue s' = renderQueue s).
Proof.
  intros Hat Hplain. split.
  - intros Hinit Hdisp.
    assert (Hs : has_slot s c i).
    { apply slot_at_hook_filled; [done|]. intros E. by rewrite E in Hinit. }
    unfold useReducer.
    rewrite (hook_entry_existing _ c i s (proj1 Hat) Hs). cbv beta iota. mred.
    unfold next_hook. st. rewrite Hinit. simpl. mred.
    destruct (slot_after_upd c i (set_hs_reducer reducer)
                (set_current (Some c) (S i) s) Hs) as [E1 _].
    rewrite E1. st. simpl. rewrite Hdisp. simpl. mred.
    rewrite E1. by st.
  - intros Hinit v.
    destruct (hook_entry (fun '(c, i) =>
      hs <~ gets (fun s => slot s c i);
      (if negb (hs_initialized hs) then
         modify (upd_slot c i (set_hs_initialized true)) ;;;
         v <~ (if truthy init then call callbacks init [initialArg]
               else ret initialArg);
         modify (upd_slot c i (set_hs_value v)) ;;;
         cur <~ gets currentComponent;
         modify (upd_slot c i (set_hs_component cur)) ;;;
         modify (upd_slot c i (set_hs_reducer reducer))
       else ret tt) ;;;
      modify (upd_slot c i (set_hs_reducer reducer)) ;;;
      hs1 <~ gets (fun s => slot s c i);
      when (negb (hs_dispatch hs1))
        (modify (upd_slot c i (set_hs_dispatch true))) ;;;
      hs2 <~ gets (fun s => slot s c i);
      ret (hs_value hs2, VDispatch c i)) c i s Hat) as (s0 & Hrun & Hent).
    unfold useReducer. rewrite Hrun. cbv beta iota.
    destruct Hent as (_ & Hsl & Hhas & _ & _ & _ & [Hcur _] & Hlog & Hq & _).
    mred. rewrite Hsl, Hinit. simpl. mred.
    destruct (slot_after_upd c i (set_hs_initialized true) s0 Hhas) as [E1 Hs1].
    set (s1 := upd_slot c i (set_hs_initialized true) s0) in *.
    assert (Hcall : exists s2,
       (if truthy init then call callbacks init [initialArg]
        else ret initialArg) s1 = Ok v s2
       /\ s2 = match init with
               | VFun g => add_log (EvCall g [initialArg]) s1 | _ => s1 end).
    { subst v. destruct init; simpl in *; try rewrite Hplain;
        try done; eexists; split; reflexivity. }
    destruct Hcall as (s2 & Hcall & Es2).
    rewrite (bind_Ok _ _ _ _ _ Hcall). mred.
    assert (Hs2 : has_slot s2 c i /\ slot s2 c i = slot s1 c i
                  /\ currentComponent s2 = Some c
                  /\ renderQueue s2 = renderQueue s).
    { subst s2 s1. destruct init; st; done. }
    destruct Hs2 as (Hs2 & E2 & Hcur2 & Hq2).
    destruct (slot_after_upd c i (set_hs_value v) s2 Hs2) as [E3 Hs3].
    set (s3 := upd_slot c i (set_hs_value v) s2) in *.
    change (currentComponent s3) with (currentComponent s2). rewrite Hcur2.
    destruct (slot_after_upd c i (set_hs_component (Some c)) s3 Hs3) as [E4 Hs4].
    set (s4 := upd_slot c i (set_hs_component (Some c)) s3) in *.
    destruct (slot_after_upd c i (set_hs_reducer reducer) s4 Hs4) as [E5 Hs5].
    set (s5 := upd_slot c i (set_hs_reducer reducer) s4) in *.
    destruct (slot_after_upd c i (set_hs_reducer reducer) s5 Hs5) as [E6 Hs6].
    set (s6 := upd_slot c i (set_hs_reducer reducer) s5) in *.
    destruct (slot_after_upd c i (set_hs_dispatch true) s6 Hs6) as [E7 Hs7].
    set (s7 := upd_slot c i (set_hs_dispatch true) s6) in *.
    rewrite E6, E5, E4, E3, E2, E1, Hsl. cbn [hs_dispatch set_hs_reducer
      set_hs_component set_hs_value set_hs_initialized].
    assert (Hlog7 : log s7 = log s ++ match init with
                            | VFun g => [EvCall g [initialArg]] | _ => []
                            end).
    { subst s7 s6 s5 s4 s3. st. subst s2 s1.
      destruct init; st; cbn [log add_log]; st; rewrite Hlog, ?app_nil_r; done. }
    destruct (hs_dispatch (slot s c i)) eqn:Hd; simpl; mred.
    + exists s6. rewrite E6, E5, E4, E3, E2, E1, Hsl. simpl.
      split; [reflexivity|]. repeat split; try done.
    + exists s7. fold s7. rewrite E7, E6, E5, E4, E3, E2, E1, Hsl. simpl.
      split; [reflexivity|]. repeat split; try done.
Qed.

(** X16: the dispatcher of a [useReducer] slot calls the stored reducer
    with the current state and the action, and stores the result; for a
    reducer that only computes its result, and a result whose identity is
    represented (not an array or object literal), the owner is enqueued for
    a re-render only when the result is not [Object.is] the state it
    replaces. *)
Theorem dispatch_reduces c i s r owner action :
  has_slot s c i -> hs_reducer (slot s c i) = VFun r ->
  hs_component (slot s c i) = Some owner ->
  identified (callbacks r [hs_value (slot s c i); action]) ->
  let v := hs_value (slot s c i) in
  let next := callbacks r [v; action] in
  exists s',
    call callbacks (VDispatch c i) [action] s = Ok VUndef s'
    /\ hs_value (slot s' c i) = next
    /\ log s' = log s ++ [EvCall r [v; action]]
    /\ renderQueue s'
       = (if Object_is v next then renderQueue s
          else enqueued owner (renderQueue s)).
Proof.
  intros Hs Hred Hown _ v next. pose proof (has_slot_in_range _ _ _ Hs) as Hc.
  unfold call, invoke_dispatch. cbn [hd]. mred. rewrite Hred. fold v.
  unfold call_user. mred. st. fold v. fold next.
  destruct (Object_is v next) eqn:Hsame; simpl; mred.
  - eexists. split; [reflexivity|]. st. apply Object_is_eq in Hsame.
    repeat split; done.
  - rewrite Hown. unfold bind at 1. rewrite enqueueRender_spec. unfold ret.
    assert (Hs' : has_slot (add_log (EvCall r [v; action]) s) c i) by done.
    destruct (slot_after_upd c i (set_hs_value next) _ Hs') as [E _].
    eexists. split; [reflexivity|]. st. unfold enqueued.
    destruct (bool_decide (owner ∈ renderQueue s)); [|destruct (scheduled s)];
      st; rewrite E; repeat split; done.
Qed.

Lemma useEffect_skip callback c i s deps :
  at_hook s c i -> hs_args (slot s c i) = Some deps ->
  useEffect callback (Some deps) s = Ok tt (next_hook c i s)
  /\ useLayoutEffect callback (Some deps) s = Ok tt (next_hook c i s).
Proof.
  intros Hat Hargs.
  assert (Hs : has_slot s c i).
  { apply slot_at_hook_filled; [done|]. intros E. by rewrite E in Hargs. }
  split.
  - unfold useEffect.
    rewrite (hook_entry_existing _ c i s (proj1 Hat) Hs). cbv beta iota. mred.
    unfold next_hook. st. by rewrite Hargs, argsChanged_same.
  - unfold useLayoutEffect.
    rewrite (hook_entry_existing _ c i s (proj1 Hat) Hs). cbv beta iota. mred.
    unfold next_hook. st. by rewrite Hargs, argsChanged_same.
Qed.

Lemma effect_queued c i s s0 callback deps (f : component -> component) :
  at_hook s c i -> entered c i s s0 ->
  (forall comp, c_list (f comp) = c_list comp) ->
  let s' := upd_comp c f
              (upd_slot c i (set_hs_pendingArgs deps)
                 (upd_slot c i (set_hs_value callback) s0)) in
  slot s' c i = set_hs_pendingArgs deps (set_hs_value callback (slot s c i))
  /\ (forall j, j <> i -> slot s' c j = slot s c j)
  /\ cp s' c = f (cp (upd_slot c i (set_hs_pendingArgs deps)
                        (upd_slot c i (set_hs_value callback) s0)) c)
  /\ log s' = log s /\ renderQueue s' = renderQueue s.
Proof.
  intros Hat Hent Hf s'.
  destruct Hent as (_ & Hsl & Hhas & Hoth & _ & _ & _ & Hlog & Hq & _).
  destruct (slot_after_upd c i (set_hs_value callback) s0 Hhas) as [E1 Hs1].
  destruct (slot_after_upd c i (set_hs_pendingArgs deps) _ Hs1) as [E2 Hs2].
  pose proof (has_slot_in_range _ _ _ Hs2) as Hc2.
  pose proof (has_slot_in_range _ _ _ Hs1) as Hc1.
  pose proof (has_slot_in_range _ _ _ Hhas) as Hc0.
  assert (Hcp : cp s' c = f (cp (upd_slot c i (set_hs_pendingArgs deps)
                        (upd_slot c i (set_hs_value callback) s0)) c))
    by (subst s'; by apply cp_upd_eq).
  split; [|split; [|split; [done|]]].
  - unfold slot at 1. rewrite Hcp, Hf. fold (slot (upd_slot c i (set_hs_pendingArgs deps)
                        (upd_slot c i (set_hs_value callback) s0)) c i).
    by rewrite E2, E1, Hsl.
  - intros j Hj. unfold slot at 1. rewrite Hcp, Hf, <- Hoth by done.
    rewrite c_list_upd_slot by done. rewrite c_list_upd_slot by done.
    by rewrite !upd_lookup_ne by done.
  - subst s'. st. done.
Qed.

(** X17: [useEffect] and [useLayoutEffect] never call the callback during
    the render.  For dependencies whose identity is represented (no array
    or object literal among them): with the dependencies that the last run
    of the effect committed they do nothing; with a changed (or missing)
    dependency list they store the callback and the pending dependencies and
    append the slot to the component's queue of pending (layout) effects,
    leaving the committed dependencies and the stored cleanup as they
    are. *)
Theorem effects_queue_when_deps_change c i s callback deps :
  at_hook s c i -> deps_identified deps ->
  (forall d, hs_args (slot s c i) = Some d -> deps = Some d ->
     useEffect callback deps s = Ok tt (next_hook c i s)
     /\ useLayoutEffect callback deps s = Ok tt (next_hook c i s))
  /\ (argsChanged (hs_args (slot s c i)) deps = true ->
      exists s1 s2,
        useEffect callback deps s = Ok tt s1
        /\ useLayoutEffect callback deps s = Ok tt s2
        /\ c_pendingEffects (cp s1 c) = c_pendingEffects (cp s c) ++ [i]
        /\ c_pendingLayoutEffects (cp s2 c)
           = Some (default [] (c_pendingLayoutEffects (cp s c)) ++ [i])
        /\ effect_stored c i callback deps s s1
        /\ effect_stored c i callback deps s s2).
Proof.
  intros Hat _. split.
  - intros d Hargs ->. by apply useEffect_skip.
  - intros Hch.
    destruct (hook_entry (fun _ => ret tt) c i s Hat) as (s0 & _ & Hent).
    destruct (hook_entry (fun '(c, i) =>
        hs <~ gets (fun s => slot s c i);
        if argsChanged (hs_args hs) deps then
          modify (upd_slot c i (set_hs_value callback)) ;;;
          modify (upd_slot c i (set_hs_pendingArgs deps)) ;;;
          modify (upd_comp c (fun comp =>
                    set_c_pendingEffects (c_pendingEffects comp ++ [i]) comp))
        else ret tt) c i s Hat) as (s0' & Hrun1 & Hent1).
    assert (s0' = s0) as -> by (destruct Hent as [-> _], Hent1 as [-> _]; done).
    destruct (hook_entry (fun '(c, i) =>
        hs <~ gets (fun s => slot s c i);
        if argsChanged (hs_args hs) deps then
          modify (upd_slot c i (set_hs_value callback)) ;;;
          modify (upd_slot c i (set_hs_pendingArgs deps)) ;;;
          modify (upd_comp c (fun comp =>
                    set_c_pendingLayoutEffects
                      (Some (default [] (c_pendingLayoutEffects comp) ++ [i]))
                      comp))
        else ret tt) c i s Hat) as (s0' & Hrun2 & Hent2).
    assert (s0' = s0) as -> by (destruct Hent as [-> _], Hent2 as [-> _]; done).
    clear Hent1 Hent2.
    pose proof (effect_queued c i s s0 callback deps
                  (fun comp => set_c_pendingEffects (c_pendingEffects comp ++ [i]) comp)
                  Hat Hent ltac:(done)) as H1.
    pose proof (effect_queued c i s s0 callback deps
                  (fun comp => set_c_pendingLayoutEffects
                      (Some (default [] (c_pendingLayoutEffects comp) ++ [i])) comp)
                  Hat Hent ltac:(done)) as H2.
    cbv zeta in H1, H2.
    destruct H1 as (A1 & B1 & C1 & D1 & F1), H2 as (A2 & B2 & C2 & D2 & F2).
    destruct Hent as (_ & Hsl & Hhas & _ & Hpe & Hple & _).
    pose proof (has_slot_in_range _ _ _ Hhas) as Hc0.
    eexists. eexists.
    split. { unfold useEffect. rewrite Hrun1. cbv beta iota. mred.
             rewrite Hsl, Hch. mred. reflexivity. }
    split. { unfold useLayoutEffect. rewrite Hrun2. cbv beta iota. mred.
             rewrite Hsl, Hch. mred. reflexivity. }
    split. { rewrite C1. cbn [c_pendingEffects set_c_pendingEffects].
             unfold upd_slot. rewrite !cp_upd_eq by (by st). simpl.
             by rewrite Hpe. }
    split. { rewrite C2. cbn [c_pendingLayoutEffects set_c_pendingLayoutEffects].
             unfold upd_slot. rewrite !cp_upd_eq by (by st). simpl.
             by rewrite Hple. }
    split; done.
Qed.

Lemma run_effect_step c i s :
  has_slot s c i -> effect_ready (slot s c i) ->
  exists s',
    run_effect callbacks c i s = Ok tt s'
    /\ log s' = log s ++ effect_events (slot s c i)
    /\ same_outside_comps s s'
    /\ length (comps s') = length (comps s)
    /\ (forall c', c' <> c -> cp s' c' = cp s c')
    /\ cp s' c = set_c_list (<[i := effect_done callbacks (slot s c i)]>
                               (c_list (cp s c))) (cp s c).
Proof.
  intros Hs [Hu [f Hf]]. pose proof (has_slot_in_range _ _ _ Hs) as Hc.
  assert (Hsl : c_list (cp s c) !! i = Some (slot s c i)).
  { unfold slot. destruct (lookup_lt_is_Some_2 _ _ Hs) as [x ->]. done. }
  unfold run_effect. mred. unfold effect_events, effect_done, cleanup_call.
  rewrite Hf.
  assert (Hfin : forall s0, comps s0 = comps s ->
    exists s',
      (callback <~ gets (fun s => hs_value (slot s c i));
       cleanup <~ call callbacks callback [];
       modify (upd_slot c i
                 (set_hs_cleanup (if is_function cleanup then cleanup else VUndef))) ;;;
       modify (upd_slot c i (fun h => set_hs_args (hs_pendingArgs h) h))) s0
      = Ok tt s'
      /\ log s' = log s0 ++ [EvCall f []]
      /\ same_outside_comps s0 s'
      /\ length (comps s') = length (comps s)
      /\ (forall c', c' <> c -> cp s' c' = cp s c')
      /\ cp s' c = set_c_list
                     (<[i := set_hs_args (hs_pendingArgs (slot s c i))
                              (set_hs_cleanup
                                 (if is_function (callbacks f [])
                                  then callbacks f [] else VUndef) (slot s c i))]>
                        (c_list (cp s c))) (cp s c)).
  { intros s0 Hcomps.
    assert (Hsl0 : slot s0 c i = slot s c i) by (unfold slot, cp; by rewrite Hcomps).
    assert (Hcp0 : forall c', cp s0 c' = cp s c') by (intros; unfold cp; by rewrite Hcomps).
    assert (Hc0 : c < length (comps s0)) by (by rewrite Hcomps).
    mred. rewrite Hsl0, Hf. unfold call, call_user. mred.
    eexists. split; [reflexivity|]. st. split; [done|]. split; [done|].
    split; [by rewrite Hcomps|]. split.
    - intros c' Hne. unfold upd_slot. rewrite !cp_upd_ne by done. apply Hcp0.
    - unfold upd_slot. rewrite cp_upd_eq by (by st). rewrite cp_upd_eq by (by st).
      st. rewrite Hcp0. unfold set_c_list. simpl. f_equal. unfold upd.
      rewrite Hsl. rewrite list_lookup_insert_eq by done.
      rewrite list_insert_insert_eq. reflexivity. }
  destruct Hu as [Hu|[g Hg]].
  - rewrite Hu. simpl. mred. destruct (Hfin s eq_refl) as (s' & Hrun & Hrest).
    exists s'. split; [exact Hrun|]. exact Hrest.
  - rewrite Hg. simpl. unfold call_user. mred.
    destruct (Hfin (add_log (EvCall g []) s) eq_refl)
      as (s' & Hrun & Hlog & Hsame & Hrest).
    exists s'. split; [exact Hrun|]. split.
    { rewrite Hlog. cbn [log add_log]. by rewrite <- app_assoc. }
    split; [|exact Hrest].
    destruct Hsame as (?&?&?&?&?&?&?&?&?&?). repeat split; done.
Qed.

Lemma run_effects_loop c l : forall s,
  NoDup l ->
  (forall i, i ∈ l -> has_slot s c i /\ effect_ready (slot s c i)) ->
  exists s',
    for_each l (run_effect callbacks c) s = Ok tt s'
    /\ log s' = log s ++ flat_map (fun i => effect_events (slot s c i)) l
    /\ same_outside_comps s s'
    /\ length (comps s') = length (comps s)
    /\ (forall c', c' <> c -> cp s' c' = cp s c')
    /\ (forall j, slot s' c j
                  = if bool_decide (j ∈ l) then effect_done callbacks (slot s c j)
                    else slot s c j)
    /\ length (c_list (cp s' c)) = length (c_list (cp s c))
    /\ c_pendingEffects (cp s' c) = c_pendingEffects (cp s c)
    /\ c_pendingLayoutEffects (cp s' c) = c_pendingLayoutEffects (cp s c)
    /\ c_vnode (cp s' c) = c_vnode (cp s c)
    /\ c_contextSubscriptions (cp s' c) = c_contextSubscriptions (cp s c).
Proof.
  induction l as [|i l IH]; intros s Hnd Hall.
  - exists s. simpl. rewrite app_nil_r. repeat split; try done.
  - apply NoDup_cons in Hnd as [Hni Hnd].
    destruct (Hall i ltac:(left)) as [Hs Hready].
    destruct (run_effect_step c i s Hs Hready)
      as (s1 & Hrun1 & Hlog1 & Hsame1 & Hlen1 & Hoth1 & Hcp1).
    assert (Hslot1 : forall j, slot s1 c j
              = if decide (j = i) then effect_done callbacks (slot s c i)
                else slot s c j).
    { intros j. unfold slot at 1. rewrite Hcp1. simpl. case_decide as Hj.
      - subst j. by rewrite list_lookup_insert_eq by done.
      - by rewrite list_lookup_insert_ne by done. }
    assert (Hlist1 : length (c_list (cp s1 c)) = length (c_list (cp s c))).
    { rewrite Hcp1. simpl. by rewrite length_insert. }
    destruct (IH s1 Hnd) as (s2 & Hrun2 & Hlog2 & Hsame2 & Hlen2 & Hoth2
                              & Hslot2 & Hlist2 & Hpe & Hple & Hvn & Hsub).
    { intros j Hj. assert (j <> i) by (intros ->; done).
      rewrite Hslot1. case_decide; [done|]. unfold has_slot. rewrite Hlist1.
      apply Hall. by right. }
    exists s2. split.
    { cbn [for_each]. unfold bind at 1. by rewrite Hrun1. }
    split.
    { rewrite Hlog2, Hlog1. simpl. rewrite <- app_assoc. f_equal. f_equal.
      apply flat_map_ext_elem. intros j Hj. rewrite Hslot1.
      case_decide; [|done]. by subst j. }
    split; [by eapply same_outside_comps_trans|].
    split; [congruence|]. split.
    { intros c' Hne. by rewrite Hoth2, Hoth1. }
    split.
    { intros j. rewrite Hslot2, !Hslot1.
      destruct (decide (j = i)) as [->|Hne].
      - rewrite bool_decide_eq_false_2 by done.
        by rewrite bool_decide_eq_true_2 by left.
      - destruct (bool_decide (j ∈ l)) eqn:E.
        + apply bool_decide_eq_true in E.
          by rewrite bool_decide_eq_true_2 by (by right).
        + apply bool_decide_eq_false in E.
          rewrite bool_decide_eq_false_2; [done|].
          intros [?|?]%elem_of_cons; done. }
    rewrite Hlist2, Hpe, Hple, Hvn, Hsub, Hlist1, Hcp1. done.
Qed.

Lemma runPendingEffects_spec c s :
  c < length (comps s) -> runnable s c (c_pendingEffects (cp s c)) ->
  exists s',
    runPendingEffects callbacks c s = Ok tt s'
    /\ effects_ran callbacks c (c_pendingEffects (cp s c)) s s'
    /\ c_pendingEffects (cp s' c) = []
    /\ same_outside_comps s s'
    /\ length (comps s') = length (comps s)
    /\ (forall c', c' <> c -> cp s' c' = cp s c')
    /\ length (c_list (cp s' c)) = length (c_list (cp s c))
    /\ c_pendingLayoutEffects (cp s' c) = c_pendingLayoutEffects (cp s c).
Proof.
  intros Hc [Hnd Hok]. unfold effects_ran.
  destruct (run_effects_loop c _ s Hnd Hok)
    as (s1 & Hrun & Hlog & Hsame & Hlen & Hoth & Hslot & Hlist & _ & Hple & _).
  unfold runPendingEffects. mred.
  destruct (c_pendingEffects (cp s c)) as [|i l] eqn:E.
  - exists s. simpl. rewrite app_nil_r. repeat split; try done.
  - rewrite (bind_Ok _ _ _ _ _ Hrun). mred.
    eexists. split; [reflexivity|]. st.
    assert (Hc1 : c < length (comps s1)) by (by rewrite Hlen).
    split; [split; [done|split]|].
    + intros j. rewrite <- Hslot. unfold slot. by rewrite cp_upd_eq.
    + by destruct Hsame as (_&_&_&->&_).
    + split; [by rewrite cp_upd_eq|]. split; [done|]. split; [done|].
      split; [intros c' Hne; rewrite cp_upd_ne by done; by apply Hoth|].
      rewrite cp_upd_eq by done. split; done.
Qed.

Lemma runPendingLayoutEffects_spec c s l :
  c < length (comps s) -> c_pendingLayoutEffects (cp s c) = Some l ->
  runnable s c l ->
  exists s',
    runPendingLayoutEffects callbacks c s = Ok tt s'
    /\ effects_ran callbacks c l s s'
    /\ c_pendingLayoutEffects (cp s' c) = Some []
    /\ same_outside_comps s s'
    /\ length (comps s') = length (comps s)
    /\ (forall c', c' <> c -> cp s' c' = cp s c')
    /\ length (c_list (cp s' c)) = length (c_list (cp s c))
    /\ c_pendingEffects (cp s' c) = c_pendingEffects (cp s c).
Proof.
  intros Hc El [Hnd Hok]. unfold effects_ran.
  destruct (run_effects_loop c _ s Hnd Hok)
    as (s1 & Hrun & Hlog & Hsame & Hlen & Hoth & Hslot & Hlist & Hpe & _).
  unfold runPendingLayoutEffects. mred. rewrite El.
  rewrite (bind_Ok _ _ _ _ _ Hrun). mred.
  eexists. split; [reflexivity|]. st.
  assert (Hc1 : c < length (comps s1)) by (by rewrite Hlen).
  split; [split; [done|split]|].
  - intros j. rewrite <- Hslot. unfold slot. by rewrite cp_upd_eq.
  - by destruct Hsame as (_&_&_&->&_).
  - split; [by rewrite cp_upd_eq|]. split; [done|]. split; [done|].
    split; [intros c' Hne; rewrite cp_upd_ne by done; by apply Hoth|].
    rewrite cp_upd_eq by done. split; done.
Qed.

Lemma effects_ran_committed c l s s' :
  effects_ran callbacks c l s s' -> effects_committed callbacks c l s s'.
Proof.
  intros (Hlog & Hslot & _). split; [done|].
  intros j Hj. rewrite Hslot. by rewrite bool_decide_eq_true_2.
Qed.

(** X18: [runPendingEffects] and [runPendingLayoutEffects] run the queued
    slots in queue order; for each slot the cleanup of its previous run is
    called first, then the callback; the cleanup returned is stored when it
    is a function, the pending dependencies become the committed ones, and
    the queue is emptied. *)
Theorem pending_effects_commit c s :
  c < length (comps s) ->
  (runnable s c (c_pendingEffects (cp s c)) ->
   exists s',
     runPendingEffects callbacks c s = Ok tt s'
     /\ effects_committed callbacks c (c_pendingEffects (cp s c)) s s'
     /\ c_pendingEffects (cp s' c) = [])
  /\ (forall l, c_pendingLayoutEffects (cp s c) = Some l -> runnable s c l ->
      exists s',
        runPendingLayoutEffects callbacks c s = Ok tt s'
        /\ effects_committed callbacks c l s s'
        /\ c_pendingLayoutEffects (cp s' c) = Some []).
Proof.
  intros Hc. split.
  - intros Hrun.
    destruct (runPendingEffects_spec c s Hc Hrun) as (s' & H1 & H2 & H3 & _).
    exists s'. split; [done|]. split; [by apply effects_ran_committed|done].
  - intros l El Hrun.
    destruct (runPendingLayoutEffects_spec c s l Hc El Hrun)
      as (s' & H1 & H2 & H3 & _).
    exists s'. split; [done|]. split; [by apply effects_ran_committed|done].
Qed.

End XHooks.

(** X10, witness: the mounted counter renders again with another initial
    state. *)
Lemma useState_rerender_witness :
  useState no_result (VNum 5) (counter_rendering 0)
  = Ok (VNum 0, VSetter 1 0) (counter_rendering 1).
Proof.
  etransitivity.
  - apply (useState_rerender no_result 1 0 (counter_rendering 0) (VNum 5)).
    + split; reflexivity.
    + vm_compute; lia.
    + vm_compute; reflexivity.
    + vm_compute; reflexivity.
  - vm_compute; reflexivity.
Defined.

(** X11, witness: a second [useState], with a lazy initializer. *)
Lemma useState_first_render_witness :
  exists s',
    useState answer (VFun 7) (counter_rendering 1)
    = Ok (VNum 7, VSetter 1 1) s'
    /\ slot s' 1 1
       = mkHook true (VNum 7) (Some 1) true VUndef false None None VUndef.
Proof.
  destruct (useState_first_render answer 1 1 (counter_rendering 1) (VFun 7))
    as (s' & H1 & H2 & _).
  - split; reflexivity.
  - split; [vm_compute; lia|reflexivity].
  - exact I.
  - exists s'. split; [exact H1|exact H2].
Defined.

(** X12, witness: a memo slot holding [7] for the dependencies [[1]]. *)
Lemma useMemo_caches_witness :
  useMemo answer (VFun 8) (Some [VNum 1]) memo_rendering
  = Ok (VNum 7) (next_hook 1 1 memo_rendering)
  /\ exists s', useMemo answer (VFun 8) (Some [VNum 2]) memo_rendering
                = Ok (VNum 8) s'.
Proof.
  destruct (useMemo_caches answer 1 1 memo_rendering (VFun 8)) as [Hsame Hnew].
  - split; [split; reflexivity|]. split; vm_compute; lia.
  - split.
    + apply (Hsame [VNum 1] eq_refl). repeat constructor.
    + destruct (Hnew 8 (Some [VNum 2]) eq_refl) as (s' & H & _).
      * repeat constructor.
      * reflexivity.
      * exists s'. exact H.
Defined.

(** X13, witness: the first [useCallback] of a slot. *)
Lemma useCallback_identity_witness :
  exists s', useCallback (VFun 9) (Some []) (counter_rendering 1)
             = Ok (VFun 9) s'.
Proof.
  destruct (useCallback_identity 1 1 (counter_rendering 1) (VFun 9) (Some []))
    as (s' & H & _).
  - split; [split; reflexivity|]. split; vm_compute; lia.
  - constructor.
  - exists s'. exact H.
Defined.

(** X14, witness: the first [useRef] of a slot. *)
Lemma useRef_stable_witness :
  exists s', useRef (VNum 3) (counter_rendering 1)
             = Ok (VObj (length (objs (counter_rendering 1)))) s'
             /\ objs s' = objs (counter_rendering 1) ++ [VNum 3].
Proof.
  destruct (useRef_stable 1 1 (counter_rendering 1) (VNum 3)) as [Hnew _].
  - split; [split; reflexivity|]. split; vm_compute; lia.
  - destruct (Hnew eq_refl) as (s' & H1 & H2 & _).
    exists s'. split; [exact H1|exact H2].
Defined.

(** X15, witness: the first [useReducer] of a slot, without [init]. *)
Lemma useReducer_renders_witness :
  exists s', useReducer answer (VFun 3) (VNum 0) VUndef (counter_rendering 1)
             = Ok (VNum 0, VDispatch 1 1) s'
             /\ hs_reducer (slot s' 1 1) = VFun 3.
Proof.
  destruct (useReducer_renders answer 1 1 (counter_rendering 1) (VFun 3)
              (VNum 0) VUndef) as [_ Hnew].
  - split; [split; reflexivity|]. split; vm_compute; lia.
  - reflexivity.
  - destruct (Hnew eq_refl) as (s' & H1 & _ & _ & _ & H2 & _).
    exists s'. split; [exact H1|exact H2].
Defined.

(** X16, witness: dispatching to the reducer slot; the reducer answers
    [3], the state was [0]. *)
Lemma dispatch_reduces_witness :
  exists s', call answer (VDispatch 1 1) [VStr "add"] reducer_rendered
             = Ok VUndef s'
             /\ hs_value (slot s' 1 1) = VNum 3
             /\ renderQueue s' = [1].
Proof.
  destruct (dispatch_reduces answer 1 1 reducer_rendered 3 1 (VStr "add"))
    as (s' & H1 & H2 & _ & H3).
  - vm_compute; lia.
  - reflexivity.
  - reflexivity.
  - vm_compute. exact I.
  - exists s'. split; [exact H1|]. split; [exact H2|exact H3].
Defined.

(** X17, witness: the first [useEffect] of a slot. *)
Lemma effects_queue_when_deps_change_witness :
  exists s1, useEffect (VFun 4) (Some []) (counter_rendering 1) = Ok tt s1
             /\ c_pendingEffects (cp s1 1) = [1]
             /\ log s1 = log (counter_rendering 1).
Proof.
  destruct (effects_queue_when_deps_change 1 1 (counter_rendering 1) (VFun 4)
              (Some [])) as [_ Hnew].
  - split; [split; reflexivity|]. split; vm_compute; lia.
  - constructor.
  - destruct (Hnew eq_refl) as (s1 & s2 & H1 & _ & H2 & _ & (_ & _ & H3 & _) & _).
    exists s1. split; [exact H1|]. split; [exact H2|exact H3].
Defined.

(** X18, witness: the queued effect of the counter runs. *)
Lemma pending_effects_commit_witness :
  exists s', runPendingEffects answer 1 effect_rendered = Ok tt s'
             /\ log s' = log effect_rendered ++ [EvCall 4 []]
             /\ hs_args (slot s' 1 1) = Some []
             /\ c_pendingEffects (cp s' 1) = [].
Proof.
  destruct (pending_effects_commit answer 1 effect_rendered) as [Hrun _].
  - vm_compute; lia.
  - assert (R : runnable effect_rendered 1
                  (c_pendingEffects (cp effect_rendered 1))).
    { split.
      - vm_compute; apply NoDup_singleton.
      - intros i Hi. vm_compute in Hi. apply list_elem_of_singleton in Hi as ->.
        split; [vm_compute; lia|].
        split; [left; vm_compute; reflexivity|exists 4; vm_compute; reflexivity]. }
    destruct (Hrun R) as (s' & H1 & (H2 & H3) & H4).
    exists s'. split; [exact H1|]. split; [exact H2|].
    split; [|exact H4].
    assert (Hin : 1 ∈ c_pendingEffects (cp effect_rendered 1))
      by (vm_compute; constructor).
    rewrite (H3 1 Hin). vm_compute. reflexivity.
Defined.

(* ------------------------------------------------------------------ *)
(** ** Context: providers and subscriptions *)
(* ------------------------------------------------------------------ *)

Lemma findProvider_sound ctx s fuel : forall start,
  match findProvider fuel ctx start s with
  | Ok r s' => s' = s /\ nearest_provider s ctx start r
  | Throw _ _ => False
  | OutOfFuel => True
  end.
Proof.
  induction fuel as [|fuel IH]; intros [v|]; simpl;
    try done; try (split; [done|constructor]).
  mred. destruct (is_provider_of ctx (v_type (vn s v))) eqn:E.
  - split; [done|]. by constructor.
  - specialize (IH (v_parent (vn s v))).
    destruct (findProvider fuel ctx (v_parent (vn s v)) s); try done.
    destruct IH as [-> IH]. split; [done|]. by constructor.
Qed.

Lemma findProvider_complete ctx s start r :
  nearest_provider s ctx start r ->
  exists fuel, forall fuel', fuel <= fuel' ->
    findProvider fuel' ctx start s = Ok r s.
Proof.
  intros H. induction H as [|v Hv|v r Hv H IH].
  - exists 0. intros fuel' _. by destruct fuel'.
  - exists 1. intros [|fuel'] Hle; [lia|]. simpl. mred. by rewrite Hv.
  - destruct IH as [fuel IH]. exists (S fuel). intros [|fuel'] Hle; [lia|].
    simpl. mred. rewrite Hv. apply IH. lia.
Qed.

(** X19: [findProvider] returns the nearest provider of the context on the
    parent chain of the start vnode (the start vnode included), or [null]
    when the chain has none; it changes nothing and never throws.  The
    answer is found as soon as the chain is exhausted. *)
Theorem findProvider_nearest ctx s :
  (forall fuel start,
     match findProvider fuel ctx start s with
     | Ok r s' => s' = s /\ nearest_provider s ctx start r
     | Throw _ _ => False
     | OutOfFuel => True
     end)
  /\ (forall start r, nearest_provider s ctx start r ->
        exists fuel, forall fuel', fuel <= fuel' ->
          findProvider fuel' ctx start s = Ok r s).
Proof.
  split.
  - intros fuel start. apply findProvider_sound.
  - intros start r. apply findProvider_complete.
Qed.

Lemma upd_vnode_id v f s :
  f (vn s v) = vn s v -> upd_vnode v f s = s.
Proof.
  intros H. unfold upd_vnode, upd. unfold vn in H.
  destruct (vnodes s !! v) as [x|] eqn:E; simpl in H.
  - rewrite H, list_insert_id by done. by destruct s.
  - by destruct s.
Qed.

Lemma filter_ext_elem {A} (P Q : A -> Prop) `{!forall x, Decision (P x)}
    `{!forall x, Decision (Q x)} (l : list A) :
  (forall x, x ∈ l -> P x <-> Q x) -> filter P l = filter Q l.
Proof.
  induction l as [|a l IH]; intros Hext; [done|].
  assert (IH' : filter P l = filter Q l).
  { apply IH. intros x Hx. apply Hext. by right. }
  destruct (decide (P a)) as [Ha|Ha].
  - rewrite !filter_cons_True; [by f_equal| |done]. apply Hext; [by left|done].
  - rewrite !filter_cons_False; [done| |done]. intros Hq. apply Ha.
    apply Hext; [by left|done].
Qed.

Lemma filter_all {A} (P : A -> Prop) `{!forall x, Decision (P x)} (l : list A) :
  (forall x, x ∈ l -> P x) -> filter P l = l.
Proof.
  induction l as [|a l IH]; intros Hall; [done|].
  rewrite filter_cons_True by (apply Hall; by left). f_equal. apply IH.
  intros x Hx. apply Hall. by right.
Qed.

Lemma set_add_elem x y l : y ∈ set_add x l <-> y = x \/ y ∈ l.
Proof.
  unfold set_add. case_bool_decide as H.
  - split; [tauto|]. intros [->|?]; done.
  - rewrite elem_of_app, list_elem_of_singleton. tauto.
Qed.

Lemma set_add_NoDup x l : NoDup l -> NoDup (set_add x l).
Proof.
  unfold set_add. intros H. case_bool_decide as Hx; [done|].
  apply NoDup_app. split; [done|]. split; [|apply NoDup_singleton].
  intros y Hy Hy'. apply list_elem_of_singleton in Hy'. by subst.
Qed.

Lemma set_add_idem x l : set_add x (set_add x l) = set_add x l.
Proof.
  unfold set_add at 1. rewrite bool_decide_eq_true_2; [done|].
  apply set_add_elem. by left.
Qed.

(** X20: [subscribeToProvider] adds the component to the subscriber set of
    the provider vnode and the vnode to the set of the component, creating
    either set when it is missing.  The sets stay duplicate-free, the sets
    of other vnodes and components are untouched, and subscribing again
    changes nothing. *)
Theorem subscribeToProvider_sets p c s :
  p < length (vnodes s) -> c < length (comps s) ->
  exists s',
    subscribeToProvider p c s = Ok tt s'
    /\ subscribers s' p = set_add c (subscribers s p)
    /\ subscriptions s' c = set_add p (subscriptions s c)
    /\ (forall x, x ∈ subscribers s' p <-> x = c \/ x ∈ subscribers s p)
    /\ (NoDup (subscribers s p) -> NoDup (subscribers s' p))
    /\ (forall p', p' <> p -> vn s' p' = vn s p')
    /\ (forall c', c' <> c -> cp s' c' = cp s c')
    /\ renderQueue s' = renderQueue s /\ log s' = log s
    /\ subscribeToProvider p c s' = Ok tt s'.
Proof.
  intros Hp Hc. unfold subscribeToProvider. mred.
  eexists. split; [reflexivity|].
  set (s1 := upd_vnode p _ s).
  set (s2 := upd_comp c _ s1).
  assert (Hv2 : vn s2 p = set_v_subs (Some (set_add c (subscribers s p))) (vn s p)).
  { subst s2. st. subst s1. by rewrite vn_upd_eq. }
  assert (Hc2 : cp s2 c = set_c_subs (Some (set_add p (subscriptions s c))) (cp s c)).
  { subst s2. rewrite cp_upd_eq by (subst s1; by st). subst s1. by st. }
  assert (Hsub : subscribers s2 p = set_add c (subscribers s p)).
  { unfold subscribers at 1. by rewrite Hv2. }
  split; [done|]. split; [unfold subscriptions at 1; by rewrite Hc2|].
  split; [intros x; rewrite Hsub; apply set_add_elem|].
  split; [rewrite Hsub; apply set_add_NoDup|].
  split; [intros p' Hne; subst s2 s1; st; by rewrite vn_upd_ne|].
  split; [intros c' Hne; subst s2; by rewrite cp_upd_ne|].
  split; [done|]. split; [done|].
  unfold modify, bind. f_equal.
  assert (E1 : upd_vnode p (fun v => set_v_subs
                 (Some (set_add c (default [] (v_contextSubscriptions v)))) v) s2
               = s2).
  { apply upd_vnode_id. rewrite Hv2. simpl. by rewrite set_add_idem. }
  rewrite E1. apply upd_comp_id. rewrite Hc2. simpl. by rewrite set_add_idem.
Qed.

Lemma notify_loop p l : forall s,
  exists s',
    for_each l (fun component =>
        alive <~ gets (fun s => c_vnode (cp s component));
        match alive with
        | Some _ => enqueueRender component
        | None =>
            modify (upd_vnode p (fun v =>
              set_v_subs (option_map (remove_nat component)
                            (v_contextSubscriptions v)) v))
        end) s = Ok tt s'
    /\ comps s' = comps s /\ log s' = log s
    /\ (forall p', p' <> p -> vn s' p' = vn s p')
    /\ subscribers s' p
       = filter (fun x => ~ (x ∈ l /\ alive s x = false)) (subscribers s p)
    /\ renderQueue s'
       = foldl (fun q c => enqueued c q) (renderQueue s)
           (filter (fun c => alive s c = true) l).
Proof.
  induction l as [|c l IH]; intros s.
  - exists s. repeat split; try done.
    symmetry. apply filter_all. intros x _ [Hx _]. by apply not_elem_of_nil in Hx.
  - cbn [for_each]. mred.
    destruct (c_vnode (cp s c)) as [v|] eqn:Ev.
    + assert (Ha : alive s c = true)
        by (unfold alive; rewrite Ev; by apply bool_decide_eq_true_2).
      unfold bind at 1. rewrite enqueueRender_spec.
      set (s1 := if bool_decide (c ∈ renderQueue s) then s else _).
      assert (H1 : comps s1 = comps s /\ log s1 = log s /\ vnodes s1 = vnodes s
                   /\ renderQueue s1 = enqueued c (renderQueue s)).
      { subst s1. unfold enqueued.
        destruct (bool_decide (c ∈ renderQueue s)); [done|].
        destruct (scheduled s); done. }
      destruct H1 as (Hc1 & Hl1 & Hv1 & Hq1).
      destruct (IH s1) as (s' & Hrun & Hc & Hl & Hoth & Hv & Hq).
      assert (Hal : forall x, alive s1 x = alive s x)
        by (intros x; unfold alive, cp; by rewrite Hc1).
      assert (Hvn : forall x, vn s1 x = vn s x)
        by (intros x; unfold vn; by rewrite Hv1).
      exists s'. split; [exact Hrun|]. rewrite Hc, Hl, Hc1, Hl1.
      split; [done|]. split; [done|].
      split; [intros p' Hne; by rewrite Hoth, Hvn|].
      split.
      * rewrite Hv. unfold subscribers. rewrite Hvn.
        apply list_filter_iff. intros x. rewrite Hal, elem_of_cons.
        split; [|tauto]. intros H [[->|Hx] Hd]; [congruence|tauto].
      * rewrite Hq, Hq1. rewrite (filter_cons_True _ c) by done. simpl.
        f_equal. apply list_filter_iff. intros x. by rewrite Hal.
    + assert (Ha : alive s c = false).
      { unfold alive. rewrite Ev. apply bool_decide_eq_false_2. by intros [? ?]. }
      mred. set (s1 := upd_vnode p _ s).
      destruct (IH s1) as (s' & Hrun & Hc & Hl & Hoth & Hv & Hq).
      assert (Hal : forall x, alive s1 x = alive s x) by done.
      exists s'. split; [exact Hrun|]. rewrite Hc, Hl.
      split; [done|]. split; [done|].
      split; [intros p' Hne; rewrite Hoth by done; subst s1; by rewrite vn_upd_ne|].
      split.
      * rewrite Hv. unfold subscribers. subst s1. rewrite vn_upd_cases.
        case_decide as Hp.
        -- simpl. destruct (v_contextSubscriptions (vn s p)) as [subs|]; simpl.
           ++ unfold remove_nat. rewrite list_filter_filter.
              apply list_filter_iff. intros x. rewrite elem_of_cons. split.
              ** intros [H Hne] [[->|Hx] Hd]; [done|tauto].
              ** intros H. split; [tauto|]. intros ->. tauto.
           ++ done.
        -- assert (vn s p = blank_vnode) as ->.
           { unfold vn. destruct (vnodes s !! p) eqn:E; [|done].
             exfalso. apply Hp. split; [done|]. by eapply lookup_lt_Some. }
           done.
      * rewrite Hq. rewrite (filter_cons_False _ c) by congruence.
        f_equal.
Qed.

(** X21: [notifyContextSubscribers] enqueues every subscriber of the
    provider vnode that is still mounted, in subscription order and each at
    most once, and drops the unmounted ones from the subscriber set; it
    calls nothing and leaves other vnodes alone. *)
Theorem notifyContextSubscribers_enqueues p s :
  exists s',
    notifyContextSubscribers p s = Ok tt s'
    /\ subscribers s' p = filter (fun c => alive s c = true) (subscribers s p)
    /\ renderQueue s'
       = foldl (fun q c => enqueued c q) (renderQueue s)
           (filter (fun c => alive s c = true) (subscribers s p))
    /\ (forall c, c ∈ renderQueue s'
                  <-> c ∈ renderQueue s
                      \/ (c ∈ subscribers s p /\ alive s c = true))
    /\ (NoDup (renderQueue s) -> NoDup (renderQueue s'))
    /\ (forall p', p' <> p -> vn s' p' = vn s p')
    /\ comps s' = comps s /\ log s' = log s.
Proof.
  assert (Hfold : forall l q,
            (forall c, c ∈ foldl (fun q c => enqueued c q) q l <-> c ∈ q \/ c ∈ l)
            /\ (NoDup q -> NoDup (foldl (fun q c => enqueued c q) q l))).
  { induction l as [|x l IH]; intros q; simpl.
    - split; [|done]. intros c. rewrite elem_of_nil. tauto.
    - destruct (IH (enqueued x q)) as [IH1 IH2]. split.
      + intros c. rewrite IH1. unfold enqueued. fold (set_add x q).
        rewrite set_add_elem, elem_of_cons. tauto.
      + intros Hq. apply IH2. unfold enqueued. fold (set_add x q).
        by apply set_add_NoDup. }
  unfold notifyContextSubscribers. mred.
  destruct (v_contextSubscriptions (vn s p)) as [l|] eqn:E.
  - destruct (notify_loop p l s) as (s' & Hrun & Hc & Hl & Hoth & Hv & Hq).
    assert (Hsubs : subscribers s p = l) by (unfold subscribers; by rewrite E).
    exists s'. split; [exact Hrun|]. rewrite Hsubs.
    split.
    { rewrite Hv, Hsubs. apply filter_ext_elem. intros x Hx.
      destruct (alive s x).
      - split; [done|]. by intros _ [_ ?].
      - split; [|done]. intros H. exfalso. by apply H. }
    split; [done|]. rewrite Hq.
    split.
    { intros c. rewrite (proj1 (Hfold _ _)), list_elem_of_filter. tauto. }
    split; [apply Hfold|]. done.
  - exists s. split; [done|]. unfold subscribers. rewrite E. simpl.
    split; [done|]. split; [done|]. split.
    { intros c. rewrite elem_of_nil. tauto. }
    done.
Qed.

(** X28: during the render of a mounted component, [useContext] reads the
    nearest provider vnode above the component's vnode: it subscribes the
    component to that vnode and returns the [_contextValue] stored on it;
    without such a provider it returns the default value of the context and
    changes nothing. *)
Theorem useContext_reads_nearest ctx s c v r :
  currentComponent s = Some c -> c_vnode (cp s c) = Some v ->
  nearest_provider s ctx (v_parent (vn s v)) r ->
  exists fuel, forall fuel', fuel <= fuel' ->
    match r with
    | None => useContext fuel' ctx s = Ok (ctx_defaultValue ctx) s
    | Some p =>
        exists s',
          subscribeToProvider p c s = Ok tt s'
          /\ useContext fuel' ctx s = Ok (v_contextValue (vn s p)) s'
    end.
Proof.
  intros Hcur Hv Hnear.
  destruct (findProvider_complete ctx s _ r Hnear) as [fuel Hfuel].
  exists fuel. intros fuel' Hle. specialize (Hfuel fuel' Hle).
  unfold useContext. mred. rewrite Hcur. mred. rewrite Hv. mred.
  rewrite (bind_Ok _ _ _ _ _ Hfuel). destruct r as [p|]; [|done].
  unfold subscribeToProvider. mred. eexists. split; [reflexivity|].
  unfold gets. f_equal. st. rewrite vn_upd_cases. by case_decide.
Qed.

(* ------------------------------------------------------------------ *)
(** ** Creating and normalizing vnodes *)
(* ------------------------------------------------------------------ *)

Lemma or_null_spec x :
  (if negb (strict_eq x VUndef) then x else VNull) = or_null x.
Proof. destruct x as [| | | z | | | | | | | | | | | |]; try done. by destruct z. Qed.

Lemma assoc_get_strip k l :
  k <> "key" -> k <> "ref" -> assoc_get k (strip_key_ref l) = assoc_get k l.
Proof.
  intros Hk Hr. unfold strip_key_ref.
  induction l as [|[k' x] l IH]; [done|]. simpl.
  destruct (decide (k' ≠ "key" ∧ k' ≠ "ref")) as [Hd|Hd].
  - rewrite filter_cons_True by done. simpl. by rewrite IH.
  - rewrite filter_cons_False by done. rewrite IH.
    destruct (String.eqb k' k) eqn:E; [|done].
    apply String.eqb_eq in E. subst k'. exfalso. apply Hd. done.
Qed.

Lemma assoc_has_strip k l :
  k = "key" \/ k = "ref" -> assoc_has k (strip_key_ref l) = false.
Proof.
  intros Hk. unfold strip_key_ref.
  induction l as [|[k' x] l IH]; [done|].
  destruct (decide (k' ≠ "key" ∧ k' ≠ "ref")) as [Hd|Hd].
  - rewrite filter_cons_True by done. simpl. rewrite IH.
    destruct (String.eqb k' k) eqn:E; [|done].
    apply String.eqb_eq in E. subst k'. destruct Hd, Hk; done.
  - by rewrite filter_cons_False by done.
Qed.

Lemma assoc_get_set k k' v l :
  assoc_get k (assoc_set k' v l) = if String.eqb k' k then v else assoc_get k l.
Proof.
  induction l as [|[k0 x] l IH]; simpl.
  - by destruct (String.eqb k' k).
  - destruct (String.eqb k0 k') eqn:E0; simpl.
    + apply String.eqb_eq in E0. subst k0. by destruct (String.eqb k' k).
    + rewrite IH. destruct (String.eqb k0 k) eqn:E1; [|done].
      apply String.eqb_eq in E1. subst k0. rewrite String.eqb_sym in E0.
      by rewrite E0.
Qed.

Lemma assoc_has_set k k' v l :
  assoc_has k (assoc_set k' v l) = String.eqb k' k || assoc_has k l.
Proof.
  induction l as [|[k0 x] l IH]; simpl.
  - by rewrite orb_false_r.
  - destruct (String.eqb k0 k') eqn:E0; simpl.
    + apply String.eqb_eq in E0. subst k0. by destruct (String.eqb k' k).
    + rewrite IH. destruct (String.eqb k0 k), (String.eqb k' k); done.
Qed.

Section XVNode.
Variable callbacks : nat -> list jsval -> jsval.

(** X22: with no [options.vnode] hook installed,
    [h(type, props, ...children)] allocates one new vnode and touches
    nothing else.  Its [key] and [ref] are those of [props] ([null] when
    absent) and are removed from the props; every other prop is kept; the
    [children] prop is the only flattened child, the array of them when
    there are several, and whatever [props.children] was when there are
    none.  The vnode is not yet linked to a parent, a DOM node or a
    component. *)
Theorem h_builds_vnode type props children s :
  props_object props ->
  truthy (assoc_get "vnode" (options s)) = false ->
  exists v,
    h callbacks type props children s
    = Ok (length (vnodes s)) (set_vnodes (vnodes s ++ [v]) s)
    /\ v_type v = type
    /\ v_key v = or_null (get_prop props "key")
    /\ v_ref v = or_null (get_prop props "ref")
    /\ has_prop (v_props v) "key" = false
    /\ has_prop (v_props v) "ref" = false
    /\ (forall k, k <> "key" -> k <> "ref" -> k <> "children" ->
          get_prop (v_props v) k = get_prop props k)
    /\ get_prop (v_props v) "children"
       = children_prop (flattenChildren children) (get_prop props "children")
    /\ v_children v = None /\ v_dom v = None /\ v_component v = None
    /\ v_parent v = None /\ v_depth v = 0 /\ v_contextSubscriptions v = None.
Proof.
  intros Hprops Hopt. unfold h. cbv zeta. rewrite !or_null_spec.
  assert (Hl : exists l,
            match or_empty props with VRec l => strip_key_ref l | _ => [] end
            = strip_key_ref l
            /\ (forall k, get_prop (or_empty props) k = get_prop props k)
            /\ (forall k, get_prop props k = assoc_get k l)).
  { destruct props; try done; by eexists. }
  destruct Hl as (l & -> & Hget & Hl). rewrite !Hget.
  set (final := match flattenChildren children with
                | [] => strip_key_ref l
                | [one] => assoc_set "children" one (strip_key_ref l)
                | _ => assoc_set "children" (VArr (flattenChildren children))
                         (strip_key_ref l)
                end).
  assert (Hfinal : (has_prop (VRec final) "key" = false
                    /\ has_prop (VRec final) "ref" = false)
                   /\ (forall k, k <> "key" -> k <> "ref" -> k <> "children" ->
                         assoc_get k final = assoc_get k l)
                   /\ assoc_get "children" final
                      = children_prop (flattenChildren children)
                          (assoc_get "children" l)).
  { subst final. simpl. destruct (flattenChildren children) as [|one [|two r]].
    - split; [split; apply assoc_has_strip; tauto|]. split.
      + intros k Hk Hr _. by apply assoc_get_strip.
      + by apply assoc_get_strip.
    - split; [split; rewrite assoc_has_set; simpl; apply assoc_has_strip; tauto|].
      split.
      + intros k Hk Hr Hc. rewrite assoc_get_set.
        destruct (String.eqb "children" k) eqn:E.
        * apply String.eqb_eq in E. by subst.
        * by apply assoc_get_strip.
      + by rewrite assoc_get_set.
    - split; [split; rewrite assoc_has_set; simpl; apply assoc_has_strip; tauto|].
      split.
      + intros k Hk Hr Hc. rewrite assoc_get_set.
        destruct (String.eqb "children" k) eqn:E.
        * apply String.eqb_eq in E. by subst.
        * by apply assoc_get_strip.
      + by rewrite assoc_get_set. }
  destruct Hfinal as ([Hk Hr] & Hother & Hch).
  eexists. split.
  { unfold bind at 1. unfold createVNode at 1. unfold bind at 1.
    unfold call_option. mred. cbn [options set_vnodes]. rewrite Hopt. reflexivity. }
  cbn [v_type v_key v_ref v_props v_children v_dom v_component v_parent v_depth
       v_contextSubscriptions].
  split; [done|]. split; [done|]. split; [done|].
  split; [exact Hk|]. split; [exact Hr|].
  split; [intros k H1 H2 H3; rewrite Hl; by apply Hother|].
  split; [by rewrite Hl|]. done.
Qed.

Lemma normalize_cons x l normalized s :
  normalizeChildren (VArr (x :: l)) normalized s
  = bind (normalizeChildren x normalized) (normalizeChildren (VArr l)) s.
Proof. reflexivity. Qed.

Lemma normalize_app l1 l2 : forall normalized s,
  normalizeChildren (VArr (l1 ++ l2)) normalized s
  = bind (normalizeChildren (VArr l1) normalized)
      (normalizeChildren (VArr l2)) s.
Proof.
  induction l1 as [|x l1 IH]; intros n s; [done|].
  rewrite <- app_comm_cons, !normalize_cons.
  etransitivity; [|symmetry; apply bind_bind].
  apply bind_ext. intros a s'. apply IH.
Qed.

(** X23: nesting and holes in the children do not matter to
    [normalizeChildren]: a value and its flattening (nested arrays spliced,
    [null], [undefined] and booleans dropped, as [h] does) give the same
    vnodes, warnings and final state; and normalizing a concatenation is
    normalizing the parts in turn. *)
Theorem normalizeChildren_flatten children normalized s :
  normalizeChildren (VArr (flatten_child children)) normalized s
  = normalizeChildren children normalized s
  /\ (forall l1 l2,
        normalizeChildren (VArr (l1 ++ l2)) normalized s
        = bind (normalizeChildren (VArr l1) normalized)
            (normalizeChildren (VArr l2)) s).
Proof.
  split; [|intros; apply normalize_app].
  revert normalized s.
  induction children as [v Hleaf|l IH|l _] using jsval_nested_ind;
    intros n s.
  - assert (Hone : normalizeChildren (VArr [v]) n s = normalizeChildren v n s).
    { rewrite normalize_cons. unfold bind. by destruct (normalizeChildren v n s). }
    destruct v; try done; exfalso; by apply Hleaf.
  - rewrite flatten_child_arr. revert n s.
    induction IH as [|x l Hx _ IHl]; intros n s; [done|].
    simpl flat_map. rewrite normalize_app, normalize_cons.
    unfold bind. rewrite Hx. destruct (normalizeChildren x n s); done.
  - reflexivity.
Qed.

End XVNode.

(* ------------------------------------------------------------------ *)
(** ** The scheduler *)
(* ------------------------------------------------------------------ *)

Lemma remove_first_absent c l : c ∉ l -> remove_first c l = l.
Proof.
  induction l as [|y l IH]; intros H; [done|]. simpl.
  apply not_elem_of_cons in H as [Hne Hl].
  destruct (Nat.eqb y c) eqn:E; [apply Nat.eqb_eq in E; by subst|].
  by rewrite IH.
Qed.

Lemma remove_first_last c l : c ∉ l -> remove_first c (l ++ [c]) = l.
Proof.
  induction l as [|y l IH]; intros H; simpl.
  - by rewrite Nat.eqb_refl.
  - apply not_elem_of_cons in H as [Hne Hl].
    destruct (Nat.eqb y c) eqn:E; [apply Nat.eqb_eq in E; by subst|].
    by rewrite IH.
Qed.

Lemma remove_first_elem c x l : x ∈ remove_first c l -> x ∈ l.
Proof.
  induction l as [|y l IH]; simpl; [done|].
  destruct (Nat.eqb y c); [by right|].
  intros [->|H]%elem_of_cons; [by left|right; by apply IH].
Qed.

Lemma remove_first_NoDup c l :
  NoDup l -> NoDup (remove_first c l) /\ c ∉ remove_first c l.
Proof.
  induction l as [|y l IH]; intros H; simpl.
  - split; [done|apply not_elem_of_nil].
  - apply NoDup_cons in H as [Hy Hl]. destruct (Nat.eqb y c) eqn:E.
    + apply Nat.eqb_eq in E. subst y. done.
    + apply Nat.eqb_neq in E. destruct (IH Hl) as [IH1 IH2]. split.
      * apply NoDup_cons. split; [|done]. intros Hin. apply Hy.
        by eapply remove_first_elem.
      * apply not_elem_of_cons. split; [done|done].
Qed.

(** X24: [dequeueRender] takes back what [enqueueRender] did to the queue,
    but not the microtask: after enqueueing and dequeueing a component that
    was not queued, the queue is as before, while the flush stays scheduled.
    Dequeueing a component that is not queued changes nothing, and a
    duplicate-free queue stays so, without the component. *)
Theorem enqueue_then_dequeue c s :
  (c ∉ renderQueue s ->
   exists s',
     bind (enqueueRender c) (fun _ => dequeueRender c) s = Ok tt s'
     /\ renderQueue s' = renderQueue s
     /\ scheduled s' = true
     /\ microtasks s' = (if scheduled s then microtasks s else S (microtasks s)))
  /\ (c ∉ renderQueue s -> dequeueRender c s = Ok tt s)
  /\ (NoDup (renderQueue s) ->
      exists s',
        dequeueRender c s = Ok tt s'
        /\ (c ∉ renderQueue s') /\ NoDup (renderQueue s')
        /\ (forall x, x <> c -> x ∈ renderQueue s -> x ∈ renderQueue s')).
Proof.
  split; [|split].
  - intros Hc. unfold bind at 1. rewrite enqueueRender_spec.
    rewrite bool_decide_eq_false_2 by done. unfold dequeueRender, modify.
    eexists. split; [reflexivity|]. cbn [renderQueue set_renderQueue].
    destruct (scheduled s) eqn:E; st; cbn [renderQueue set_renderQueue];
      rewrite remove_first_last by done; repeat split; done.
  - intros Hc. unfold dequeueRender, modify. rewrite remove_first_absent by done.
    by destruct s.
  - intros Hnd. unfold dequeueRender, modify. eexists. split; [reflexivity|].
    cbn [renderQueue set_renderQueue].
    destruct (remove_first_NoDup c _ Hnd) as [H1 H2].
    split; [done|]. split; [done|].
    intros x Hne. generalize (renderQueue s). intros l.
    induction l as [|y l IH]; [done|]. simpl.
    destruct (Nat.eqb y c) eqn:E.
    + apply Nat.eqb_eq in E. subst y. intros [->|H]%elem_of_cons; done.
    + intros [->|H]%elem_of_cons; [by left|right; by apply IH].
Qed.

Section XSched.
Variable callbacks : nat -> list jsval -> jsval.
Variable components : nat -> jsval -> M jsval.

Lemma drain_empties fuel : forall s s',
  drain callbacks components fuel s = Ok tt s' -> renderQueue s' = [].
Proof.
  induction fuel as [|fuel IH]; intros s s' H; [done|].
  simpl in H. rewrite bind_gets in H.
  destruct (renderQueue s) as [|c rest] eqn:E.
  - injection H as <-. done.
  - rewrite bind_modify, bind_gets in H.
    destruct (c_vnode (cp (set_renderQueue rest s) c)).
    + unfold bind in H.
      destruct (renderComponent callbacks components fuel c _) as [[] s1| |];
        try done. by eapply IH.
    + by eapply IH.
Qed.

(** X25: when [processRenderQueue] completes, the queue is empty: the
    components that were enqueued while it ran have been served in the same
    pass. *)
Theorem processRenderQueue_drains fuel s s' :
  processRenderQueue callbacks components fuel s = Ok tt s' ->
  renderQueue s' = [].
Proof.
  intros H. unfold processRenderQueue in H. rewrite !bind_modify in H.
  by eapply drain_empties.
Qed.

(** X26: [getParentDom] answers with the DOM node of the nearest ancestor
    vnode that has one (the vnode itself is not looked at), or [null] when
    no ancestor has; it changes nothing and never throws. *)
Theorem getParentDom_nearest s vnode :
  (forall fuel,
     match getParentDom fuel vnode s with
     | Ok r s' => s' = s /\ nearest_dom s (v_parent (vn s vnode)) r
     | Throw _ _ => False
     | OutOfFuel => True
     end)
  /\ (forall r, nearest_dom s (v_parent (vn s vnode)) r ->
        exists fuel, forall fuel', fuel <= fuel' ->
          getParentDom fuel' vnode s = Ok r s).
Proof.
  assert (H1 : forall fuel start,
     match getParentDom_from fuel start s with
     | Ok r s' => s' = s /\ nearest_dom s start r
     | Throw _ _ => False
     | OutOfFuel => True
     end).
  { induction fuel as [|fuel IH]; intros [p|]; simpl;
      try done; try (split; [done|constructor]).
    mred. destruct (v_dom (vn s p)) as [d|] eqn:E.
    + split; [done|]. by constructor.
    + specialize (IH (v_parent (vn s p))).
      destruct (getParentDom_from fuel (v_parent (vn s p)) s); try done.
      destruct IH as [-> IH]. split; [done|]. by constructor. }
  assert (H2 : forall start r, nearest_dom s start r ->
        exists fuel, forall fuel', fuel <= fuel' ->
          getParentDom_from fuel' start s = Ok r s).
  { intros start r H. induction H as [|p d Hd|p r Hd H IH].
    + exists 0. intros fuel' _. by destruct fuel'.
    + exists 1. intros [|fuel'] Hle; [lia|]. simpl. mred. by rewrite Hd.
    + destruct IH as [fuel IH]. exists (S fuel). intros [|fuel'] Hle; [lia|].
      simpl. mred. rewrite Hd. apply IH. lia. }
  split.
  - intros fuel. unfold getParentDom. mred. apply H1.
  - intros r Hr. destruct (H2 _ _ Hr) as [fuel Hf]. exists fuel.
    intros fuel' Hle. unfold getParentDom. mred. by apply Hf.
Qed.

End XSched.

(** X25, witness: the flush after [setState(1)] on the mounted counter
    completes and leaves the queue empty. *)
Lemma processRenderQueue_drains_witness :
  renderQueue counter_updated = [1]
  /\ renderQueue
       (state_of (processRenderQueue no_result counter_component 10
                    counter_updated)) = [].
Proof.
  split; [vm_compute; reflexivity|].
  destruct (processRenderQueue no_result counter_component 10 counter_updated)
    as [[] s'| |] eqn:E.
  - exact (processRenderQueue_drains no_result counter_component 10
             counter_updated s' E).
  - vm_compute in E. discriminate E.
  - vm_compute in E. discriminate E.
Defined.

(* ------------------------------------------------------------------ *)
(** ** Commit and paint *)
(* ------------------------------------------------------------------ *)

Section XCommit.
Variable callbacks : nat -> list jsval -> jsval.


End XCommit.


(** X20, witness: the mounted counter subscribes to the root vnode. *)
Lemma subscribeToProvider_sets_witness :
  exists s',
    subscribeToProvider 0 1 counter_mounted = Ok tt s'
    /\ subscribers s' 0 = [1] /\ subscriptions s' 1 = [0].
Proof.
  destruct (subscribeToProvider_sets 0 1 counter_mounted)
    as (s' & H1 & H2 & H3 & _).
  - vm_compute; lia.
  - vm_compute; lia.
  - exists s'. split; [exact H1|]. split.
    + rewrite H2. vm_compute; reflexivity.
    + rewrite H3. vm_compute; reflexivity.
Defined.

(** X22, witness: [h('li', {key: 'a', id: 'x'}, 'hi', [null])]. *)
Lemma h_builds_vnode_witness :
  exists v,
    h no_result (TTag "li") (VRec [("key", VStr "a"); ("id", VStr "x")])
      [VStr "hi"; VArr [VNull]] empty_state
    = Ok 0 (set_vnodes [v] empty_state)
    /\ v_key v = VStr "a"
    /\ get_prop (v_props v) "id" = VStr "x"
    /\ get_prop (v_props v) "children" = VStr "hi".
Proof.
  destruct (h_builds_vnode no_result (TTag "li")
              (VRec [("key", VStr "a"); ("id", VStr "x")])
              [VStr "hi"; VArr [VNull]] empty_state)
    as (v & H1 & _ & H2 & _ & _ & _ & H3 & H4 & _).
  - exact I.
  - reflexivity.
  - exists v. split; [exact H1|]. split; [exact H2|].
    split; [by apply H3|exact H4].
Defined.

(** X28, witness: the consumer below the Provider of the themed
    application. *)
Lemma useContext_reads_nearest_witness :
  exists fuel s',
    useContext fuel Theme consumer_rendering = Ok VUndef s'
    /\ subscribeToProvider 5 3 consumer_rendering = Ok tt s'.
Proof.
  destruct (useContext_reads_nearest Theme consumer_rendering 3 6 (Some 5))
    as [fuel H].
  - reflexivity.
  - vm_compute; reflexivity.
  - assert (E : v_parent (vn consumer_rendering 6) = Some 5)
      by (vm_compute; reflexivity).
    rewrite E. apply np_here. vm_compute; reflexivity.
  - destruct (H fuel (le_n fuel)) as (s' & H1 & H2).
    exists fuel, s'. split; [|exact H1].
    etransitivity; [exact H2|]. f_equal.
Defined.
